(** * PromptExtract: the workflow graph and its upstream searches

    A shallow embedding of [extract_prompts.py]: the link index, the node
    registry, the output-node locator, the two breadth-first upstream
    searches, the recursive string resolver and the per-document entry
    point, followed by the properties of the specification.

    Modelling conventions.
    - A parsed workflow document is typed as the data model describes it:
      a field that is present has the type the data model gives it.  What the
      code can observe about presence is kept: a key that is missing is
      [None], a [link] or an [id] that is present but [null] is
      [Some SNull].
    - Python exceptions are results: [Raise (KeyError k)] for a failed
      subscript on a dict, [Raise TypeError] for a subscript on a value that
      has none, [Raise IndexError] for one past the end.
    - The [while q] loops and the recursion of [helper] take fuel; the
      top-level functions supply an amount computed from the workflow, and
      the development proves that it is never exhausted.
    - The interpreter bounds the depth of a recursion by a number the
      source does not fix, and raises [RecursionError] beyond it.  The
      embedding leaves that bound out: [flatten_strings] is total, and
      [extract_string_value_recursive] is the resolver with room for the
      longest chain of the workflow.  The fuel of [helper] is the depth its
      recursion may reach, so a run that meets the bound is a run of
      [helper] with less fuel, which ends [OutOfFuel]; what is said of the
      exceptions of the resolver is said of [helper] at every depth.
    - A Python [str] is a [string] whose characters are code points below
      256; [len] is [String.length]. *)

From Stdlib Require Import List String Ascii ZArith Bool Arith Lia.
Import ListNotations.
Local Open Scope string_scope.
Local Open Scope list_scope.

Set Implicit Arguments.
Set Warnings "-register-all".

(** ** Python primitives *)

(** [d.get(k, default)] on an optional field. *)
Definition get_or {A : Type} (o : option A) (default : A) : A :=
  match o with Some x => x | None => default end.

(** The characters [str.strip()] removes: the whitespace code points
    below 256. *)
Definition is_space (c : ascii) : bool :=
  let n := nat_of_ascii c in
  (((9 <=? n) && (n <=? 13)) || ((28 <=? n) && (n <=? 32))
   || (n =? 133) || (n =? 160))%nat.

Fixpoint lstrip (s : string) : string :=
  match s with
  | EmptyString => EmptyString
  | String c r => if is_space c then lstrip r else s
  end.

Fixpoint rstrip (s : string) : string :=
  match s with
  | EmptyString => EmptyString
  | String c r =>
      match rstrip r with
      | EmptyString => if is_space c then EmptyString else String c EmptyString
      | r' => String c r'
      end
  end.

(** [s.strip()] *)
Definition strip (s : string) : string := rstrip (lstrip s).

(** Truth value of a [str]: non-empty. *)
Definition str_truthy (s : string) : bool :=
  match s with EmptyString => false | String _ _ => true end.

(** [needle in hay] on strings: substring test. *)
Fixpoint contains (needle hay : string) : bool :=
  if prefix needle hay then true
  else match hay with
       | EmptyString => false
       | String _ r => contains needle r
       end.

(** [max(first :: rest, key=key)]: the first element whose key is maximal;
    the running best is replaced only by a strictly greater key. *)
Definition py_max {A K : Type} (ltb : K -> K -> bool) (key : A -> K)
    (first : A) (rest : list A) : A :=
  fold_left (fun best x => if ltb (key best) (key x) then x else best)
            rest first.

(** ** Data model *)

(** Identifiers and positional link fields: [null], an integer or a string. *)
Inductive scalar : Type :=
| SNull
| SInt (z : Z)
| SStr (s : string).

Definition scalar_eqb (a b : scalar) : bool :=
  match a, b with
  | SNull, SNull => true
  | SInt x, SInt y => Z.eqb x y
  | SStr x, SStr y => String.eqb x y
  | _, _ => false
  end.

(** Truth value of an identifier ([if not images_link]). *)
Definition scalar_truthy (a : scalar) : bool :=
  match a with
  | SNull => false
  | SInt z => negb (Z.eqb z 0)
  | SStr s => str_truthy s
  end.

(** The literal payload [widgets_values]: a string, a number, a boolean,
    [null], or a nested sequence of such.  Numbers are integers here: the
    code only asks whether the payload is zero and whether it is a string or
    a sequence. *)
Inductive wval : Type :=
| WNull
| WBool (b : bool)
| WNum (z : Z)
| WStr (s : string)
| WList (l : list wval).

Definition wval_truthy (v : wval) : bool :=
  match v with
  | WNull => false
  | WBool b => b
  | WNum z => negb (Z.eqb z 0)
  | WStr s => str_truthy s
  | WList l => match l with [] => false | _ :: _ => true end
  end.

(** An input slot.  [inp_link = None]: the object has no ["link"] key;
    [Some SNull]: the key is present with value [null]. *)
Record input : Type := mkInput {
  inp_name : option string;
  inp_type : option string;
  inp_link : option scalar
}.

(** A node.  Each field is [None] when its key is missing.  [node_other]
    tells whether the object has a key besides the five modelled ones; it
    only matters for the truth value of the object. *)
Record node : Type := mkNode {
  node_id : option scalar;
  node_type : option string;
  node_order : option Z;
  node_inputs : option (list input);
  node_widgets_values : option wval;
  node_other : bool
}.

(** A workflow: [nodes] and [links] (a missing key reads as the empty
    list); a link is a positional record of fields. *)
Record workflow : Type := mkWorkflow {
  nodes : list node;
  links : list (list scalar)
}.

Definition is_some {A : Type} (o : option A) : bool :=
  match o with Some _ => true | None => false end.

(** Truth value of a node object: a dict is true when it has a key. *)
Definition node_truthy (n : node) : bool :=
  is_some (node_id n) || is_some (node_type n) || is_some (node_order n)
  || is_some (node_inputs n) || is_some (node_widgets_values n)
  || node_other n.

(** [n.get("inputs", [])] *)
Definition inputs_of (n : node) : list input := get_or (node_inputs n) [].

(** [n.get("type", "")] *)
Definition type_of (n : node) : string := get_or (node_type n) "".

(** [inp.get("name") == name] *)
Definition name_is (inp : input) (name : string) : bool :=
  match inp_name inp with Some s => String.eqb s name | None => false end.

(** [inp.get("type") == ty] *)
Definition type_is (inp : input) (ty : string) : bool :=
  match inp_type inp with Some s => String.eqb s ty | None => false end.

(** ["link" in inp] *)
Definition has_link (inp : input) : bool := is_some (inp_link inp).

(** ** Results of fallible, fuelled code *)

Inductive exn : Type :=
| KeyError (k : scalar)
| TypeError
| IndexError.

Inductive res (A : Type) : Type :=
| Ret (a : A)
| Raise (e : exn)
| OutOfFuel.
Arguments Raise {A} e.
Arguments OutOfFuel {A}.

Definition bind {A B : Type} (m : res A) (k : A -> res B) : res B :=
  match m with
  | Ret a => k a
  | Raise e => Raise e
  | OutOfFuel => OutOfFuel
  end.

Notation "x <- m ;; k" := (bind m (fun x => k))
  (at level 61, m at next level, right associativity).

(** ** Link index *)

(** The tuple stored per link:
    [(src_id, src_slot, dst_id, dst_slot, ltype)]. *)
Definition edge : Type := (scalar * scalar * scalar * scalar * scalar)%type.

Definition edge_src (e : edge) : scalar :=
  match e with (src_id, _, _, _, _) => src_id end.

(** A dict keyed by identifiers: the newest binding of a key is found
    first, as an assignment overwrites. *)
Definition dict : Type := list (scalar * edge).

Definition dict_set (k : scalar) (v : edge) (d : dict) : dict := (k, v) :: d.

Fixpoint dict_get (k : scalar) (d : dict) : option edge :=
  match d with
  | [] => None
  | (k', v) :: d' => if scalar_eqb k' k then Some v else dict_get k d'
  end.

Definition build_link_map (w : workflow) : dict :=
  fold_left
    (fun link_map rec =>
       match rec with
       | link_id :: src_id :: src_slot :: dst_id :: dst_slot :: ltype :: _ =>
           dict_set link_id (src_id, src_slot, dst_id, dst_slot, ltype) link_map
       | _ => link_map
       end)
    (links w) [].

(** [link_map[k][0]] *)
Definition link_src (link_map : dict) (k : scalar) : res scalar :=
  match dict_get k link_map with
  | Some e => Ret (edge_src e)
  | None => Raise (KeyError k)
  end.

(** ** Node registry *)

Definition get_node_by_id (w : workflow) (id : scalar) : option node :=
  find (fun n => scalar_eqb (get_or (node_id n) SNull) id) (nodes w).

(** ** Output-node locator *)

Definition is_saveimage (n : node) : bool :=
  contains "SaveImage" (type_of n) || contains "Save Image" (type_of n).

Definition order_of (n : node) : Z := get_or (node_order n) 0%Z.

Definition find_highest_order_saveimage (w : workflow) : option node :=
  match filter is_saveimage (nodes w) with
  | [] => None
  | c :: cands => Some (py_max Z.ltb order_of c cands)
  end.

(** [find_input_link_id]: the value of ["link"] at the first slot of that
    name carrying the key; [SNull] is Python's [None]. *)
Fixpoint find_input_link_id_in (inps : list input) (name : string) : scalar :=
  match inps with
  | [] => SNull
  | inp :: rest =>
      match inp_link inp with
      | Some l => if name_is inp name then l else find_input_link_id_in rest name
      | None => find_input_link_id_in rest name
      end
  end.

Definition find_input_link_id (n : node) (name : string) : scalar :=
  find_input_link_id_in (inputs_of n) name.

(** ** Sets of node ids

    [seen] and [visited] are only ever extended by one id and tested for
    membership. *)
Definition idset : Type := list scalar.

Definition set_mem (i : scalar) (s : idset) : bool := existsb (scalar_eqb i) s.

Definition set_add (i : scalar) (s : idset) : idset := i :: s.

(** [node["id"]]: a subscript, so a missing key raises. *)
Definition id_of (n : node) : res scalar :=
  match node_id n with
  | Some i => Ret i
  | None => Raise (KeyError (SStr "id"))
  end.

(** The searches return their result together with the ids they expanded,
    in order: the ids that passed the [seen] test.  The log is not part of
    the Python state; it is what the visited-set properties speak about. *)
Definition logged (A : Type) : Type := (list scalar * res A)%type.

Definition log {A : Type} (i : scalar) (r : logged A) : logged A :=
  (i :: fst r, snd r).

(** ** Upstream conditioning search *)

(** The first [for] of the loop body: [Some r] when it returns (or raises),
    [None] when it runs to its end. *)
Fixpoint positive_scan (w : workflow) (link_map : dict) (inps : list input)
  : option (res (option node)) :=
  match inps with
  | [] => None
  | inp :: rest =>
      match inp_link inp with
      | Some l =>
          if name_is inp "positive" then
            Some (src_id <- link_src link_map l ;;
                  Ret (get_node_by_id w src_id))
          else positive_scan w link_map rest
      | None => positive_scan w link_map rest
      end
  end.

(** The second [for]: the nodes appended to the queue, in slot order. *)
Fixpoint walk_all_inputs (w : workflow) (link_map : dict) (inps : list input)
  : res (list node) :=
  match inps with
  | [] => Ret []
  | inp :: rest =>
      match inp_link inp with
      | Some l =>
          src_id <- link_src link_map l ;;
          match get_node_by_id w src_id with
          | Some pred =>
              if node_truthy pred then
                more <- walk_all_inputs w link_map rest ;; Ret (pred :: more)
              else walk_all_inputs w link_map rest
          | None => walk_all_inputs w link_map rest
          end
      | None => walk_all_inputs w link_map rest
      end
  end.

Fixpoint positive_loop (w : workflow) (link_map : dict) (fuel : nat)
    (q : list node) (seen : idset) : logged (option node) :=
  match fuel with
  | O => ([], OutOfFuel)
  | S fuel' =>
      match q with
      | [] => ([], Ret None)
      | n :: q' =>
          match id_of n with
          | Ret i =>
              if set_mem i seen then positive_loop w link_map fuel' q' seen
              else
                let seen' := set_add i seen in
                log i
                  match positive_scan w link_map (inputs_of n) with
                  | Some r => ([], r)
                  | None =>
                      match walk_all_inputs w link_map (inputs_of n) with
                      | Ret preds =>
                          positive_loop w link_map fuel' (q' ++ preds) seen'
                      | Raise e => ([], Raise e)
                      | OutOfFuel => ([], OutOfFuel)
                      end
                  end
          | Raise e => ([], Raise e)
          | OutOfFuel => ([], OutOfFuel)
          end
      end
  end.

(** One unit per node that can enter a queue, one per input slot, and one
    for the final test of the empty queue. *)
Definition node_cost (n : node) : nat := S (List.length (inputs_of n)).

Definition search_fuel (w : workflow) (start_node : node) : nat :=
  S (S (list_sum (map node_cost (start_node :: nodes w)))).

Definition positive_search_log (w : workflow) (start_node : node)
  : logged (option node) :=
  positive_loop w (build_link_map w) (search_fuel w start_node)
                [start_node] [].

Definition bfs_upstream_to_positive_source (w : workflow) (start_node : node)
  : res (option node) :=
  snd (positive_search_log w start_node).

(** ** Upstream text-encoder search *)

Definition is_clip_encode (n : node) : bool :=
  contains "CLIPTextEncode" (type_of n).

(** [inp.get("type") in ("CONDITIONING", "CLIP", "STRING", "any")] *)
Definition type_allowed (inp : input) : bool :=
  match inp_type inp with
  | Some t =>
      String.eqb t "CONDITIONING" || String.eqb t "CLIP"
      || String.eqb t "STRING" || String.eqb t "any"
  | None => false
  end.

Fixpoint walk_allowed_inputs (w : workflow) (link_map : dict)
    (inps : list input) : res (list node) :=
  match inps with
  | [] => Ret []
  | inp :: rest =>
      match inp_link inp with
      | Some l =>
          if type_allowed inp then
            src_id <- link_src link_map l ;;
            match get_node_by_id w src_id with
            | Some pred =>
                if node_truthy pred then
                  more <- walk_allowed_inputs w link_map rest ;;
                  Ret (pred :: more)
                else walk_allowed_inputs w link_map rest
            | None => walk_allowed_inputs w link_map rest
            end
          else walk_allowed_inputs w link_map rest
      | None => walk_allowed_inputs w link_map rest
      end
  end.

Fixpoint clip_loop (w : workflow) (link_map : dict) (fuel : nat)
    (q : list node) (seen : idset) : logged (option node) :=
  match fuel with
  | O => ([], OutOfFuel)
  | S fuel' =>
      match q with
      | [] => ([], Ret None)
      | n :: q' =>
          match id_of n with
          | Ret i =>
              if set_mem i seen then clip_loop w link_map fuel' q' seen
              else
                let seen' := set_add i seen in
                log i
                  (if is_clip_encode n then ([], Ret (Some n))
                   else
                     match walk_allowed_inputs w link_map (inputs_of n) with
                     | Ret preds =>
                         clip_loop w link_map fuel' (q' ++ preds) seen'
                     | Raise e => ([], Raise e)
                     | OutOfFuel => ([], OutOfFuel)
                     end)
          | Raise e => ([], Raise e)
          | OutOfFuel => ([], OutOfFuel)
          end
      end
  end.

Definition clip_search_log (w : workflow) (start_node : node)
  : logged (option node) :=
  clip_loop w (build_link_map w) (search_fuel w start_node) [start_node] [].

Definition find_upstream_clip_encode (w : workflow) (start_node : node)
  : res (option node) :=
  snd (clip_search_log w start_node).

(** ** String resolver *)

Fixpoint flatten_strings (x : wval) : list string :=
  match x with
  | WStr s => [s]
  | WList l => flat_map flatten_strings l
  | _ => []
  end.

(** [wv[0]] *)
Definition subscript0 (wv : wval) : res wval :=
  match wv with
  | WList (x :: _) => Ret x
  | WList [] => Raise IndexError
  | WStr (String c _) => Ret (WStr (String c EmptyString))
  | WStr EmptyString => Raise IndexError
  | _ => Raise TypeError
  end.

(** The tests on a slot made by the resolver. *)
Definition is_text (inp : input) : bool := name_is inp "text".

Definition is_string (inp : input) : bool := type_is inp "STRING".

(** The block "CLIP node with inline text": [Ret (Some s)] when it returns
    [s], [Ret None] when control goes on to the generic block. *)
Definition inline_text (n : node) : res (option string) :=
  if is_clip_encode n then
    let text_input := find is_text (inputs_of n) in
    let linked :=
      match text_input with Some i => has_link i | None => false end in
    let wv := get_or (node_widgets_values n) (WList []) in
    if negb linked && wval_truthy wv then
      first <- subscript0 wv ;;
      match first with
      | WStr s => Ret (Some (strip s))
      | _ => Ret None
      end
    else Ret None
  else Ret None.

(** [s.strip()] as a condition: the string has a character that is not
    whitespace. *)
Definition nonblank (s : string) : bool := str_truthy (strip s).

(** The block "Generic string from widgets_values": the longest string
    among the flattened ones that are not blank, stripped. *)
Definition longest_widget_string (n : node) : option string :=
  match node_widgets_values n with
  | Some wv =>
      if wval_truthy wv then
        match filter nonblank (flatten_strings wv) with
        | [] => None
        | s :: strs => Some (strip (py_max Nat.ltb String.length s strs))
        end
      else None
  | None => None
  end.

(** [helper] reads and extends the [visited] set of the enclosing call. *)
Definition resolver (A : Type) : Type := idset -> res (A * idset).

(** One of the two [for] loops that follow links: [sel] is the test on the
    slot besides ["link" in inp], [recur] the recursive call.  [Some s]
    when the loop returns [s], [None] when it runs to its end. *)
Fixpoint follow_inputs (w : workflow) (link_map : dict)
    (recur : node -> resolver (option string)) (sel : input -> bool)
    (inps : list input) : resolver (option string) :=
  fun visited =>
    match inps with
    | [] => Ret (None, visited)
    | inp :: rest =>
        match inp_link inp with
        | Some l =>
            if sel inp then
              src_id <- link_src link_map l ;;
              match get_node_by_id w src_id with
              | Some pred =>
                  if node_truthy pred then
                    r <- recur pred visited ;;
                    match fst r with
                    | Some s =>
                        if str_truthy s then Ret (Some s, snd r)
                        else follow_inputs w link_map recur sel rest (snd r)
                    | None =>
                        follow_inputs w link_map recur sel rest (snd r)
                    end
                  else follow_inputs w link_map recur sel rest visited
              | None => follow_inputs w link_map recur sel rest visited
              end
            else follow_inputs w link_map recur sel rest visited
        | None => follow_inputs w link_map recur sel rest visited
        end
    end.

Fixpoint helper (w : workflow) (link_map : dict) (fuel : nat) (n : node)
  : resolver (option string) :=
  fun visited =>
    match fuel with
    | O => OutOfFuel
    | S fuel' =>
        i <- id_of n ;;
        if set_mem i visited then Ret (None, visited)
        else
          let visited := set_add i visited in
          own <- inline_text n ;;
          match own with
          | Some s => Ret (Some s, visited)
          | None =>
              match longest_widget_string n with
              | Some s => Ret (Some s, visited)
              | None =>
                  r <- follow_inputs w link_map (helper w link_map fuel')
                         is_text (inputs_of n) visited ;;
                  match fst r with
                  | Some s => Ret (Some s, snd r)
                  | None =>
                      follow_inputs w link_map (helper w link_map fuel')
                        is_string (inputs_of n) (snd r)
                  end
              end
          end
    end.

(** The recursion is at most one call deep per node of the workflow, plus
    the start node and a last call that stops at a visited id. *)
Definition resolve_fuel (w : workflow) : nat := S (S (List.length (nodes w))).

Definition extract_string_value_recursive (w : workflow) (n : node)
  : res (option string) :=
  r <- helper w (build_link_map w) (resolve_fuel w) n [] ;; Ret (fst r).

(** ** Per-document entry point *)

Inductive reason : Type :=
| no_workflow
| no_saveimage
| no_saveimage_images_link
| no_start_from_saveimage
| no_positive_found
| no_clip_encode_upstream
| no_prompt_resolved
| error (e : exn).

(** A result that passes [if not x: return ...]: a node object that is
    present and has a key. *)
Definition truthy_node (o : option node) : option node :=
  match o with
  | Some n => if node_truthy n then Some n else None
  | None => None
  end.

(** The body of the [try], from the parsed workflow on. *)
Definition extract_from_workflow (w : workflow)
  : res (option string * option reason) :=
  match truthy_node (find_highest_order_saveimage w) with
  | None => Ret (None, Some no_saveimage)
  | Some save =>
      let images_link := find_input_link_id save "images" in
      if negb (scalar_truthy images_link) then
        Ret (None, Some no_saveimage_images_link)
      else
        src_id <- link_src (build_link_map w) images_link ;;
        match truthy_node (get_node_by_id w src_id) with
        | None => Ret (None, Some no_start_from_saveimage)
        | Some start_node =>
            pos_src <- bfs_upstream_to_positive_source w start_node ;;
            match truthy_node pos_src with
            | None => Ret (None, Some no_positive_found)
            | Some pos_src =>
                clip_node <- find_upstream_clip_encode w pos_src ;;
                match truthy_node clip_node with
                | None => Ret (None, Some no_clip_encode_upstream)
                | Some clip_node =>
                    prompt <- extract_string_value_recursive w clip_node ;;
                    match prompt with
                    | Some s =>
                        if str_truthy s then Ret (Some s, None)
                        else Ret (None, Some no_prompt_resolved)
                    | None => Ret (None, Some no_prompt_resolved)
                    end
                end
            end
        end
  end.

(** [extract_final_positive_prompt_from_png] on the metadata of the image:
    [None] when it has no workflow text, [Some w] for the parsed document.
    The [except] clause turns every exception into [error].  The result is
    [None] only if a search ran out of fuel. *)
Definition extract_final_positive_prompt_from_png (doc : option workflow)
  : option (option string * option reason) :=
  match doc with
  | None => Some (None, Some no_workflow)
  | Some w =>
      match extract_from_workflow w with
      | Ret p => Some p
      | Raise e => Some (None, Some (error e))
      | OutOfFuel => None
      end
  end.

(** ** Writing the prompts *)

(** [s.replace(old, new)] for one-character [old] and [new]. *)
Fixpoint replace_char (old new : ascii) (s : string) : string :=
  match s with
  | EmptyString => EmptyString
  | String c r =>
      String (if Ascii.eqb c old then new else c) (replace_char old new r)
  end.

(** [s.split()]: the maximal runs of characters that are not whitespace, in
    order; a run is opened by a character that is not whitespace and is
    closed when the next character is whitespace or the string ends. *)
Fixpoint py_split (s : string) : list string :=
  match s with
  | EmptyString => []
  | String c r =>
      if is_space c then py_split r
      else
        match r with
        | EmptyString => [String c EmptyString]
        | String c' _ =>
            if is_space c' then String c EmptyString :: py_split r
            else
              match py_split r with
              | word :: words => String c word :: words
              | [] => [String c EmptyString]
              end
        end
  end.

Definition carriage_return : ascii := ascii_of_nat 13.
Definition line_feed : ascii := ascii_of_nat 10.
Definition space : ascii := ascii_of_nat 32.

(** [" ".join(prompt.replace("\r", " ").replace("\n", " ").split())] *)
Definition one_line (prompt : string) : string :=
  String.concat " "
    (py_split (replace_char line_feed space
                 (replace_char carriage_return space prompt))).

(** [write_txt]: the text written to the output file, one line per row;
    [rows] holds pairs of file name and prompt. *)
Fixpoint write_txt (rows : list (string * string)) : string :=
  match rows with
  | [] => EmptyString
  | (_, prompt) :: rest =>
      (one_line prompt ++ String line_feed EmptyString ++ write_txt rest)%string
  end.

(** ** Command line *)

(** [c.lower()] for a code point below 256: the letters A-Z and the
    capital letters of Latin-1 (192-222 except the multiplication sign). *)
Definition lower_char (c : ascii) : ascii :=
  let n := nat_of_ascii c in
  if (((65 <=? n) && (n <=? 90))
      || ((192 <=? n) && (n <=? 222) && negb (n =? 215)))%nat
  then ascii_of_nat (n + 32)
  else c.

Fixpoint lower (s : string) : string :=
  match s with
  | EmptyString => EmptyString
  | String c r => String (lower_char c) (lower r)
  end.

(** [s.endswith(suffix)] *)
Fixpoint endswith (s suffix : string) : bool :=
  if String.eqb s suffix then true
  else match s with
       | EmptyString => false
       | String _ r => endswith r suffix
       end.

(** What [Image.open] and [json.loads] make of a file: an exception, or the
    metadata of the image as the entry point reads it. *)
Inductive png_file : Type :=
| Unreadable
| Metadata (doc : option workflow).

(** The prompt of the pair the entry point returns for a file; the outer
    [None] is a search out of fuel. *)
Definition prompt_of_file (f : png_file) : option (option string) :=
  match f with
  | Unreadable => Some None
  | Metadata doc =>
      match extract_final_positive_prompt_from_png doc with
      | Some (prompt, _) => Some prompt
      | None => None
      end
  end.

(** The loop of [main] over the entries of the input folder, given in the
    order of [os.listdir] with the file found at each name: the rows
    appended to [results]. *)
Fixpoint collect_results (entries : list (string * png_file))
  : option (list (string * string)) :=
  match entries with
  | [] => Some []
  | (name, f) :: rest =>
      if endswith (lower name) ".png" then
        match prompt_of_file f, collect_results rest with
        | Some (Some prompt), Some results =>
            if str_truthy prompt then Some ((name, prompt) :: results)
            else Some results
        | Some None, Some results => Some results
        | _, _ => None
        end
      else collect_results rest
  end.

(** What [main] decides from [sys.argv]. *)
Record options : Type := mkOptions {
  input_folder : string;
  output_file : string;
  as_csv : bool
}.

Definition main_options (argv : list string) : options :=
  let use_csv := existsb (String.eqb "--csv") argv in
  let args := filter (fun a => negb (String.eqb a "--csv")) (tl argv) in
  let output :=
    match args with
    | _ :: out :: _ => out
    | _ => if use_csv then "prompts.csv" else "prompts.txt"
    end in
  {| input_folder := match args with a :: _ => a | [] => "." end;
     output_file := output;
     as_csv := use_csv || endswith (lower output) ".csv" |}.

(** [main], as far as files go: the output path, which writer is called,
    and the rows it is given.  [listdir] gives the entries of a folder.  The
    lines printed on the console are left out. *)
Definition main (argv : list string)
    (listdir : string -> list (string * png_file))
  : option (options * list (string * string)) :=
  let opts := main_options argv in
  match collect_results (listdir (input_folder opts)) with
  | Some results => Some (opts, results)
  | None => None
  end.

(** * Definitions for the properties *)

(** A string that starts with a character [strip] keeps. *)
Definition starts_solid (s : string) : Prop :=
  match s with EmptyString => True | String c _ => is_space c = false end.

(** The shape shared by the two searches.
    Both [while q] loops pop a node, skip it when its id is in [seen],
    otherwise record the id, possibly stop, and else append the nodes found
    by walking the inputs.  [bfs_loop] is that shape with the two varying
    parts as parameters; each search is an instance of it, so what is proved
    of [bfs_loop] holds of both. *)
Section BfsLoop.
Variable stop : node -> option (res (option node)).
Variable walk : node -> res (list node).

Fixpoint bfs_loop (fuel : nat) (q : list node) (seen : idset)
  : logged (option node) :=
  match fuel with
  | O => ([], OutOfFuel)
  | S fuel' =>
      match q with
      | [] => ([], Ret None)
      | n :: q' =>
          match id_of n with
          | Ret i =>
              if set_mem i seen then bfs_loop fuel' q' seen
              else
                log i
                  match stop n with
                  | Some r => ([], r)
                  | None =>
                      match walk n with
                      | Ret preds =>
                          bfs_loop fuel' (q' ++ preds) (set_add i seen)
                      | Raise e => ([], Raise e)
                      | OutOfFuel => ([], OutOfFuel)
                      end
                  end
          | Raise e => ([], Raise e)
          | OutOfFuel => ([], OutOfFuel)
          end
      end
  end.
End BfsLoop.

(** The nodes with an id outside [seen] (or with none), weighted. *)
Definition unseen (seen : idset) (n : node) : bool :=
  match node_id n with
  | Some i => negb (set_mem i seen)
  | None => true
  end.

Definition unseen_sum (cost : node -> nat) (seen : idset) (c : list node)
  : nat :=
  list_sum (map (fun n => if unseen seen n then cost n else 0) c).

(** What a call of the resolver must satisfy for the loops around it:
    it does not run out of fuel, and it only extends [visited]. *)
Definition settles (A : Type) (m : resolver A) (visited : idset) : Prop :=
  m visited <> OutOfFuel
  /\ forall a v, m visited = Ret (a, v) -> incl visited v.

(** The edge of the link of a slot, when the slot has a link that resolves. *)
Definition spec_resolved_link (w : workflow) (inp : input) : option edge :=
  match inp_link inp with
  | Some l => dict_get l (build_link_map w)
  | None => None
  end.

(** "an input slot named exactly "positive" with a resolvable link": the
    edge of the first such slot. *)
Fixpoint spec_positive_edge (w : workflow) (inps : list input) : option edge :=
  match inps with
  | [] => None
  | inp :: rest =>
      match (if name_is inp "positive" then spec_resolved_link w inp else None)
      with
      | Some e => Some e
      | None => spec_positive_edge w rest
      end
  end.

(** "the source node of every linked input slot" that [allowed] admits, in
    slot order. *)
Definition spec_sources (w : workflow) (allowed : input -> bool)
    (inps : list input) : list node :=
  flat_map
    (fun inp =>
       if allowed inp then
         match spec_resolved_link w inp with
         | Some e =>
             match get_node_by_id w (edge_src e) with
             | Some p => [p]
             | None => []
             end
         | None => []
         end
       else [])
    inps.

(** Section 4.4: dequeue; skip a visited id; at a "positive" input return
    the source of its link; otherwise enqueue the sources of all linked
    inputs at the back; an empty queue is "absent". *)
Inductive spec_positive_search (w : workflow)
  : list node -> idset -> option node -> Prop :=
| sps_empty seen :
    spec_positive_search w [] seen None
| sps_visited n q seen i r :
    node_id n = Some i -> In i seen ->
    spec_positive_search w q seen r ->
    spec_positive_search w (n :: q) seen r
| sps_found n q seen i e :
    node_id n = Some i -> ~ In i seen ->
    spec_positive_edge w (inputs_of n) = Some e ->
    spec_positive_search w (n :: q) seen (get_node_by_id w (edge_src e))
| sps_expand n q seen i r :
    node_id n = Some i -> ~ In i seen ->
    spec_positive_edge w (inputs_of n) = None ->
    spec_positive_search w
      (q ++ spec_sources w (fun _ => true) (inputs_of n)) (i :: seen) r ->
    spec_positive_search w (n :: q) seen r.

(** The allow-list of section 4.5. *)
Definition spec_allow_list : list string :=
  ["CONDITIONING"; "CLIP"; "STRING"; "any"].

Definition spec_allowed (inp : input) : bool :=
  match inp_type inp with
  | Some t => existsb (String.eqb t) spec_allow_list
  | None => false
  end.

(** Section 4.5: the same shape; a node whose type contains the
    text-encoder marker is returned before it is expanded, and only slots
    of an allowed type are expanded. *)
Inductive spec_encoder_search (w : workflow)
  : list node -> idset -> option node -> Prop :=
| ses_empty seen :
    spec_encoder_search w [] seen None
| ses_visited n q seen i r :
    node_id n = Some i -> In i seen ->
    spec_encoder_search w q seen r ->
    spec_encoder_search w (n :: q) seen r
| ses_found n q seen i :
    node_id n = Some i -> ~ In i seen ->
    contains "CLIPTextEncode" (type_of n) = true ->
    spec_encoder_search w (n :: q) seen (Some n)
| ses_expand n q seen i r :
    node_id n = Some i -> ~ In i seen ->
    contains "CLIPTextEncode" (type_of n) = false ->
    spec_encoder_search w
      (q ++ spec_sources w spec_allowed (inputs_of n)) (i :: seen) r ->
    spec_encoder_search w (n :: q) seen r.

(** The invariant of the data model the searches rely on, over the start
    node and the nodes of the workflow: every node has an id. *)
Definition ids_present (c : list node) : Prop :=
  forall n, In n c -> node_id n <> None.

(** [widgets_values] is missing, [null], a string or a sequence: its first
    element can be read whenever it is true. *)
Definition widgets_indexable (n : node) : Prop :=
  match node_widgets_values n with
  | Some (WBool _) | Some (WNum _) => False
  | _ => True
  end.

(** The slots whose link the conditioning search looks up when it expands
    [n]: the first slot named "positive" that has a "link" key, and when
    there is none, the slots of the node. *)
Definition positive_reads (n : node) (inp : input) : Prop :=
  match find (fun x => name_is x "positive" && has_link x) (inputs_of n) with
  | Some p => inp = p
  | None => In inp (inputs_of n)
  end.

(** The slots whose link the text-encoder search looks up when it expands
    [n]: none when [n] is an encoder, else those of an allowed type. *)
Definition clip_reads (n : node) (inp : input) : Prop :=
  is_clip_encode n = false /\ In inp (inputs_of n) /\ type_allowed inp = true.

(** The exception [e] is the [KeyError] of a link id that a slot read at
    [n] carries and the link table lacks. *)
Definition dangling_at (w : workflow) (reads : node -> input -> Prop)
    (n : node) (e : exn) : Prop :=
  exists inp l,
    reads n inp /\ inp_link inp = Some l
    /\ dict_get l (build_link_map w) = None /\ e = KeyError l.

(** A node whose id is in the log of a search: the search expanded it. *)
Definition expanded (ids : list scalar) (n : node) : Prop :=
  exists i, node_id n = Some i /\ In i ids.

(** The three faults of a document that make a lookup raise: a node object
    without id, a slot whose link id is not in the link table, and a
    text-encoder node whose [widgets_values] is a number or a boolean. *)
Definition lookup_fault (w : workflow) (c : list node) (e : exn) : Prop :=
  (e = KeyError (SStr "id") /\ exists n, In n c /\ node_id n = None)
  \/ (exists n, In n c /\ dangling_at w (fun m inp => In inp (inputs_of m)) n e)
  \/ (e = TypeError
      /\ exists n, In n c /\ is_clip_encode n = true
                   /\ ~ widgets_indexable n).

(** The stages of the entry point before the resolver: the save node, its
    "images" link, the node that link comes from, the source of the
    positive conditioning and the text encoder upstream of it are all
    found, and [clip_node] is that encoder. *)
Definition stages_reach (w : workflow) (clip_node : node) : Prop :=
  exists save src_id start_node pos pos_src clip,
    truthy_node (find_highest_order_saveimage w) = Some save
    /\ scalar_truthy (find_input_link_id save "images") = true
    /\ link_src (build_link_map w) (find_input_link_id save "images")
       = Ret src_id
    /\ truthy_node (get_node_by_id w src_id) = Some start_node
    /\ bfs_upstream_to_positive_source w start_node = Ret pos
    /\ truthy_node pos = Some pos_src
    /\ find_upstream_clip_encode w pos_src = Ret clip
    /\ truthy_node clip = Some clip_node.

(** What the entry point makes of the value of the resolver. *)
Definition report (resolved : option string)
  : option string * option reason :=
  match resolved with
  | Some s => if str_truthy s then (Some s, None)
              else (None, Some no_prompt_resolved)
  | None => (None, Some no_prompt_resolved)
  end.

(** The key and the tuple a link record contributes to the index, when it
    has at least six fields. *)
Definition record_entry (rec : list scalar) : option (scalar * edge) :=
  match rec with
  | link_id :: src_id :: src_slot :: dst_id :: dst_slot :: ltype :: _ =>
      Some (link_id, (src_id, src_slot, dst_id, dst_slot, ltype))
  | _ => None
  end.

(** A string that sits, as a string, somewhere in a nested payload. *)
Inductive string_leaf (s : string) : wval -> Prop :=
| leaf_here : string_leaf s (WStr s)
| leaf_inside l x : In x l -> string_leaf s x -> string_leaf s (WList l).

(** A string the resolver can return from the payload of a node: the
    strip of a string of the payload, or of the first character of a payload
    that is itself a string. *)
Definition from_widgets (n : node) (s : string) : Prop :=
  exists wv t,
    node_widgets_values n = Some wv /\ s = strip t
    /\ (In t (flatten_strings wv)
        \/ exists c r, wv = WStr (String c r) /\ t = String c EmptyString).

(** What the traversal reads of a link record: whether it has six fields,
    and then its id and its source node. *)
Definition record_wire (rec : list scalar) : option (scalar * scalar) :=
  match record_entry rec with
  | Some (link_id, e) => Some (link_id, edge_src e)
  | None => None
  end.

(** Two workflows with the same nodes whose link lists agree, record by
    record, on what the traversal reads. *)
Definition same_wiring (w1 w2 : workflow) : Prop :=
  nodes w1 = nodes w2
  /\ Forall2 (fun r1 r2 => record_wire r1 = record_wire r2)
             (links w1) (links w2).

(** All characters of a string pass a test. *)
Fixpoint all_chars (p : ascii -> bool) (s : string) : bool :=
  match s with
  | EmptyString => true
  | String c r => p c && all_chars p r
  end.

(** A word: not empty, and without whitespace. *)
Definition is_word (s : string) : bool :=
  str_truthy s && all_chars (fun c => negb (is_space c)) s.

(** The characters of a string that are not whitespace, in order. *)
Fixpoint solid_chars (s : string) : string :=
  match s with
  | EmptyString => EmptyString
  | String c r => if is_space c then solid_chars r else String c (solid_chars r)
  end.

(** Reading a text back line by line: the pieces that end at a line feed,
    and the rest after the last one when it is not empty. *)
Fixpoint lines_of (s : string) : list string :=
  match s with
  | EmptyString => []
  | String c r =>
      if Ascii.eqb c line_feed then EmptyString :: lines_of r
      else match lines_of r with
           | line :: more => String c line :: more
           | [] => [String c EmptyString]
           end
  end.

(** * Sample workflows *)

(** Constructors for slots, nodes and link records with every modelled key
    present. *)
Definition slot (name ty : string) (link : option scalar) : input :=
  mkInput (Some name) (Some ty) link.

Definition plain_node (i : Z) (ty : string) (order : option Z)
    (ins : list input) (wv : option wval) : node :=
  mkNode (Some (SInt i)) (Some ty) order (Some ins) wv true.

Definition link_rec (i src : Z) (ty : string) : list scalar :=
  [SInt i; SInt src; SInt 0; SInt 0; SInt 0; SStr ty].

Definition sample_save : node :=
  plain_node 1 "SaveImage" (Some 9%Z)
    [slot "images" "IMAGE" (Some (SInt 10))] None.

Definition sample_decode : node :=
  plain_node 2 "VAEDecode" None
    [slot "samples" "LATENT" (Some (SInt 11))] None.

Definition sample_sampler : node :=
  plain_node 3 "KSampler" None
    [slot "latent_image" "LATENT" (Some (SInt 16));
     slot "positive" "CONDITIONING" (Some (SInt 12));
     slot "negative" "CONDITIONING" (Some (SInt 13))]
    (Some (WList [WNum 20; WStr "euler"])).

Definition sample_encoder_a : node :=
  plain_node 4 "CLIPTextEncode" None
    [slot "clip" "CLIP" (Some (SInt 14)); slot "text" "STRING" None]
    (Some (WList [WStr "a cat, masterpiece"])).

Definition sample_encoder_b : node :=
  plain_node 5 "CLIPTextEncode" None
    [slot "clip" "CLIP" (Some (SInt 15))]
    (Some (WList [WStr "blurry"])).

Definition sample_loader : node :=
  plain_node 6 "CheckpointLoaderSimple" None []
    (Some (WList [WStr "model.safetensors"])).

Definition sample_preview : node :=
  plain_node 7 "Save Image (preview)" (Some 9%Z)
    [slot "images" "IMAGE" (Some (SInt 10))] None.

Definition sample_latent : node :=
  plain_node 8 "EmptyLatentImage" None [] (Some (WList [WNum 512; WNum 512])).

Definition sample_primitive : node :=
  plain_node 9 "PrimitiveString" None [] (Some (WList [WStr "fallback text"])).

(** A small workflow used to run the properties: a save node fed, through
    a decoder, by a sampler whose positive input comes from encoder 4;
    encoder 5 feeds the negative input, and node 7 is a second save node
    of equal order. *)
Definition sample_workflow : workflow :=
  mkWorkflow
    [sample_encoder_b; sample_save; sample_decode; sample_sampler;
     sample_encoder_a; sample_loader; sample_preview; sample_latent;
     sample_primitive]
    [link_rec 10 2 "IMAGE"; link_rec 11 3 "LATENT";
     link_rec 12 4 "CONDITIONING"; link_rec 13 5 "CONDITIONING";
     link_rec 14 6 "CLIP"; link_rec 15 6 "CLIP"; link_rec 16 8 "LATENT";
     link_rec 17 9 "STRING"].

Definition sample_show_text : node :=
  plain_node 20 "ShowText" None []
    (Some (WList [WStr "neg"; WStr "a cat, highly detailed, 4k"])).

(** An encoder as ComfyUI saves it with the text slot left unconnected:
    the key is there, its value is [null]. *)
Definition sample_null_text_encoder : node :=
  plain_node 30 "CLIPTextEncode" None
    [slot "clip" "CLIP" (Some (SInt 14)); slot "text" "STRING" (Some SNull)]
    (Some (WList [WStr "short"; WStr "a much longer second value"])).

(** A node of a string helper whose "text" link 77 is in no link record;
    its STRING slot "suffix" is wired to the primitive node 9. *)
Definition sample_dangling_concat : node :=
  plain_node 60 "StringConcatenate" None
    [slot "text" "STRING" (Some (SInt 77));
     slot "suffix" "STRING" (Some (SInt 17))] None.

(** The same node with no "link" key on the "text" slot. *)
Definition sample_repaired_concat : node :=
  plain_node 60 "StringConcatenate" None
    [slot "text" "STRING" None;
     slot "suffix" "STRING" (Some (SInt 17))] None.

Definition sample_dangling_positive : node :=
  plain_node 63 "KSampler" None
    [slot "positive" "CONDITIONING" (Some (SInt 77));
     slot "latent_image" "LATENT" (Some (SInt 16))] None.

(** A sampler with a slot left unconnected: the key is there with [null]. *)
Definition sample_unlinked_sampler : node :=
  plain_node 61 "KSampler" None
    [slot "latent_image" "LATENT" (Some SNull)] None.

Definition sample_dangling_combine : node :=
  plain_node 62 "ConditioningCombine" None
    [slot "conditioning_1" "CONDITIONING" (Some (SInt 78))] None.

(** A node object without an "id" key. *)
Definition sample_no_id : node :=
  mkNode None (Some "ShowText") None None (Some (WList [WStr "x"])) true.

(** A workflow for the text-encoder search: node 50 has an IMAGE slot that
    leads to an encoder-typed node 52, a MODEL slot whose link 999 is in no
    record, and a CONDITIONING slot that leads to encoder 51. *)
Definition pruned_combine : node :=
  plain_node 50 "ConditioningCombine" None
    [slot "image" "IMAGE" (Some (SInt 61));
     slot "model" "MODEL" (Some (SInt 999));
     slot "conditioning_1" "CONDITIONING" (Some (SInt 60))] None.

Definition pruned_encoder : node :=
  plain_node 51 "CLIPTextEncode" None [] (Some (WList [WStr "wanted"])).

Definition pruned_vision : node :=
  plain_node 52 "CLIPTextEncodeFromImage" None []
    (Some (WList [WStr "unrelated"])).

Definition pruned_workflow : workflow :=
  mkWorkflow [pruned_vision; pruned_combine; pruned_encoder]
             [link_rec 60 51 "CONDITIONING"; link_rec 61 52 "IMAGE"].

(** Two string helpers that feed each other, with no literal anywhere. *)
Definition cyclic_a : node :=
  plain_node 40 "StringConcatenate" None
    [slot "text" "STRING" (Some (SInt 50))] None.

Definition cyclic_b : node :=
  plain_node 41 "StringConcatenate" None
    [slot "text" "STRING" (Some (SInt 51))] None.

Definition cyclic_workflow : workflow :=
  mkWorkflow [cyclic_a; cyclic_b]
             [link_rec 50 41 "STRING"; link_rec 51 40 "STRING"].

(** A decoder saved with its "vae" slot unconnected ([null]) and its
    "samples" slot wired to the sampler. *)
Definition sample_half_wired_decode : node :=
  plain_node 65 "VAEDecode" None
    [slot "vae" "VAE" (Some SNull);
     slot "samples" "LATENT" (Some (SInt 11))] None.

(** A combiner with one conditioning slot unconnected ([null]) and the other
    wired to encoder 4. *)
Definition sample_half_wired_combine : node :=
  plain_node 66 "ConditioningCombine" None
    [slot "conditioning_1" "CONDITIONING" (Some SNull);
     slot "conditioning_2" "CONDITIONING" (Some (SInt 12))] None.

(** A link list with records of fewer than six fields and with two full
    records for the id 8. *)
Definition legacy_workflow : workflow :=
  mkWorkflow []
    [[SInt 7; SInt 1; SInt 0];
     link_rec 8 1 "IMAGE";
     [SInt 8; SInt 2; SInt 0; SInt 0; SInt 0; SStr "IMAGE"; SStr "extra"];
     [SInt 8; SInt 3]].

(** A save node whose "images" link has the id 0, which is in the link
    table. *)
Definition zero_link_workflow : workflow :=
  mkWorkflow
    [plain_node 1 "SaveImage" None [slot "images" "IMAGE" (Some (SInt 0))] None;
     sample_decode]
    [link_rec 0 2 "IMAGE"].

(** The sample workflow with other slots, destinations and types in its
    link records. *)
Definition rewired_record (i src : Z) : list scalar :=
  [SInt i; SInt src; SInt 5; SInt 42; SInt 9; SStr "*"; SNull].

Definition retyped_workflow : workflow :=
  mkWorkflow (nodes sample_workflow)
    [rewired_record 10 2; rewired_record 11 3; rewired_record 12 4;
     rewired_record 13 5; rewired_record 14 6; rewired_record 15 6;
     rewired_record 16 8; rewired_record 17 9].

(** A payload with a string two levels down. *)
Definition nested_payload : wval :=
  WList [WNum 20; WBool true; WList [WNull; WStr "euler"]].

(** A folder: an image with the sample workflow, a file of another
    extension, a file that cannot be read and an image without workflow. *)
Definition sample_folder (folder : string) : list (string * png_file) :=
  [("a.PNG", Metadata (Some sample_workflow));
   ("notes.txt", Metadata (Some sample_workflow));
   ("broken.png", Unreadable);
   ("plain.png", Metadata None)].

(** An encoder whose [widgets_values] is a bare number. *)
Definition sample_numeric_encoder : node :=
  mkNode (Some (SInt 68)) (Some "CLIPTextEncode") None None
         (Some (WNum 7)) true.

(** A sampler whose "positive" slot is wired to encoder 4 and whose
    optional slot is saved unconnected ([null]). *)
Definition sample_spare_slot_sampler : node :=
  plain_node 67 "KSampler" None
    [slot "positive" "CONDITIONING" (Some (SInt 12));
     slot "control" "CONTROL_NET" (Some SNull)] None.

(** The sample workflow with a blank literal in encoder 4. *)
Definition blank_encoder : node :=
  plain_node 4 "CLIPTextEncode" None [] (Some (WList [WStr "  "])).

Definition blank_workflow : workflow :=
  mkWorkflow
    [sample_save; sample_decode; sample_sampler; sample_latent; blank_encoder]
    (links sample_workflow).

(** The sample workflow saved without the record of link 12, the link of
    the "positive" slot of the sampler. *)
Definition broken_workflow : workflow :=
  mkWorkflow (nodes sample_workflow)
    [link_rec 10 2 "IMAGE"; link_rec 11 3 "LATENT";
     link_rec 13 5 "CONDITIONING"; link_rec 14 6 "CLIP";
     link_rec 15 6 "CLIP"; link_rec 16 8 "LATENT"; link_rec 17 9 "STRING"].

(** * Properties *)

(** Case analysis on membership in an explicit list. *)
Ltac in_cases H tac :=
  simpl in H; repeat (destruct H as [<- | H]; [tac |]); try contradiction.

(** Two derivations for the same queue read the same id from a node. *)
Ltac same_id :=
  repeat match goal with
         | H1 : node_id ?n = Some ?a, H2 : node_id ?n = Some ?b |- _ =>
             assert (b = a) by congruence; subst b; clear H2
         end.

(** ** Primitives *)

Lemma scalar_eqb_eq (a b : scalar) : scalar_eqb a b = true <-> a = b.
Proof.
  destruct a, b; simpl; split; intro H; try discriminate; try reflexivity.
  - apply Z.eqb_eq in H. now subst.
  - inversion H. apply Z.eqb_refl.
  - apply String.eqb_eq in H. now subst.
  - inversion H. apply String.eqb_refl.
Qed.

Lemma scalar_eqb_refl (a : scalar) : scalar_eqb a a = true.
Proof. now apply scalar_eqb_eq. Qed.

Lemma set_mem_In (i : scalar) (s : idset) : set_mem i s = true <-> In i s.
Proof.
  unfold set_mem. rewrite existsb_exists. split.
  - intros [x [Hx Heq]]. apply scalar_eqb_eq in Heq. now subst.
  - intro H. exists i. split; [assumption | apply scalar_eqb_refl].
Qed.

Lemma set_mem_not_In (i : scalar) (s : idset) :
  set_mem i s = false <-> ~ In i s.
Proof.
  rewrite <- set_mem_In. destruct (set_mem i s); split; intro H;
    try discriminate; try reflexivity; try easy.
Qed.

Lemma lstrip_starts_solid (s : string) : starts_solid (lstrip s).
Proof.
  induction s as [| c r IH]; simpl; [exact I |].
  destruct (is_space c) eqn:E; [assumption | simpl; assumption].
Qed.

Lemma lstrip_solid (s : string) : starts_solid s -> lstrip s = s.
Proof.
  destruct s as [| c r]; simpl; [reflexivity |]. intros ->. reflexivity.
Qed.

Lemma rstrip_starts_solid (s : string) :
  starts_solid s -> starts_solid (rstrip s).
Proof.
  destruct s as [| c r]; simpl; [trivial |]. intro H.
  destruct (rstrip r); [rewrite H |]; simpl; assumption.
Qed.

Lemma rstrip_cons (c : ascii) (r : string) :
  rstrip (String c r) =
  match rstrip r with
  | EmptyString => if is_space c then EmptyString else String c EmptyString
  | r' => String c r'
  end.
Proof. reflexivity. Qed.

Lemma rstrip_idem (s : string) : rstrip (rstrip s) = rstrip s.
Proof.
  induction s as [| c r IH]; [reflexivity |].
  rewrite rstrip_cons. destruct (rstrip r) as [| c' r'] eqn:E.
  - destruct (is_space c) eqn:Ec; [reflexivity |].
    rewrite rstrip_cons. simpl. now rewrite Ec.
  - rewrite rstrip_cons, IH. reflexivity.
Qed.

Lemma strip_idem (s : string) : strip (strip s) = strip s.
Proof.
  unfold strip.
  rewrite (lstrip_solid (rstrip (lstrip s))).
  - apply rstrip_idem.
  - apply rstrip_starts_solid, lstrip_starts_solid.
Qed.

(** [contains] is the substring relation. *)
Lemma prefix_app (s1 s2 : string) :
  prefix s1 s2 = true <-> exists b, s2 = (s1 ++ b)%string.
Proof.
  revert s2. induction s1 as [| c s1 IH]; intros s2.
  - split; [intros _; now exists s2 | now destruct s2].
  - destruct s2 as [| c' s2]; simpl.
    + split; [discriminate | intros [b Hb]; discriminate].
    + destruct (ascii_dec c c') as [<- | Hne].
      * rewrite IH. split; intros [b Hb]; exists b; congruence.
      * split; [discriminate |]. intros [b Hb]. congruence.
Qed.

Lemma contains_eq (needle hay : string) :
  contains needle hay =
  if prefix needle hay then true
  else match hay with
       | EmptyString => false
       | String _ r => contains needle r
       end.
Proof. destruct hay; reflexivity. Qed.

Lemma contains_spec (needle hay : string) :
  contains needle hay = true <-> exists a b, hay = (a ++ needle ++ b)%string.
Proof.
  induction hay as [| c hay IH]; rewrite contains_eq.
  - destruct (prefix needle "") eqn:Hp.
    + split; [| reflexivity]. intros _. apply prefix_app in Hp.
      destruct Hp as [b Hb]. now exists "", b.
    + split; [discriminate |]. intros (a & b & H).
      destruct a; [| discriminate]. simpl in H.
      assert (prefix needle "" = true) by (apply prefix_app; now exists b).
      congruence.
  - destruct (prefix needle (String c hay)) eqn:Hp.
    + split; [| reflexivity]. intros _. apply prefix_app in Hp.
      destruct Hp as [b Hb]. now exists "", b.
    + rewrite IH. split.
      * intros (a & b & ->). now exists (String c a), b.
      * intros (a & b & H). destruct a as [| c' a]; simpl in H.
        -- assert (prefix needle (String c hay) = true)
             by (apply prefix_app; now exists b).
           congruence.
        -- inversion H. now exists a, b.
Qed.

(** ** [max] with a key *)

Section PyMax.
Variables (A K : Type) (ltb : K -> K -> bool) (key : A -> K).
Hypothesis ltb_trans :
  forall a b c, ltb a b = true -> ltb b c = true -> ltb a c = true.
Hypothesis ltb_cotrans :
  forall a b c, ltb a b = false -> ltb b c = false -> ltb a c = false.

Lemma py_max_snoc (first : A) (rest : list A) (x : A) :
  py_max ltb key first (rest ++ [x]) =
  let best := py_max ltb key first rest in
  if ltb (key best) (key x) then x else best.
Proof. unfold py_max. rewrite fold_left_app. reflexivity. Qed.

(** The maximum splits the sequence: strictly smaller keys before it,
    no greater key after it. *)
Lemma py_max_split (first : A) (rest : list A) :
  exists pre post,
    first :: rest = pre ++ py_max ltb key first rest :: post
    /\ Forall (fun x => ltb (key x) (key (py_max ltb key first rest)) = true)
              pre
    /\ Forall (fun x => ltb (key (py_max ltb key first rest)) (key x) = false)
              post.
Proof.
  induction rest as [| x rest IH] using rev_ind.
  - exists [], []. repeat split; constructor.
  - destruct IH as (pre & post & Hsplit & Hpre & Hpost).
    rewrite py_max_snoc. cbv zeta.
    set (best := py_max ltb key first rest) in *.
    destruct (ltb (key best) (key x)) eqn:E.
    + exists (first :: rest), []. split; [| split].
      * now rewrite app_comm_cons.
      * rewrite Hsplit. apply Forall_app. split; [| constructor].
        -- eapply Forall_impl; [| exact Hpre]. intros a Ha.
           cbv beta in Ha. eapply ltb_trans; eassumption.
        -- assumption.
        -- eapply Forall_impl; [| exact Hpost]. intros a Ha.
           cbv beta in Ha. destruct (ltb (key a) (key x)) eqn:E'; [reflexivity |].
           rewrite (ltb_cotrans Ha E') in E. discriminate.
      * constructor.
    + exists pre, (post ++ [x]). split; [| split].
      * rewrite app_comm_cons, Hsplit, <- app_assoc. reflexivity.
      * assumption.
      * apply Forall_app. split; [assumption |]. now constructor.
Qed.
End PyMax.

Lemma filter_split (A : Type) (f : A -> bool) (l pre' post' : list A) (m : A) :
  filter f l = pre' ++ m :: post' ->
  exists pre post,
    l = pre ++ m :: post /\ filter f pre = pre' /\ filter f post = post'
    /\ f m = true.
Proof.
  revert pre'. induction l as [| a l IH]; intros pre' H; simpl in H.
  - destruct pre'; discriminate.
  - destruct (f a) eqn:E.
    + destruct pre' as [| p pre']; simpl in H; inversion H; subst.
      * exists [], l. simpl. auto.
      * destruct (IH _ H2) as (pre & post & -> & Hp & Hq & Hm).
        exists (p :: pre), post. simpl. rewrite E, Hp. auto.
    + destruct (IH _ H) as (pre & post & -> & Hp & Hq & Hm).
      exists (a :: pre), post. simpl. rewrite E. auto.
Qed.

Lemma find_split (A : Type) (f : A -> bool) (l : list A) (x : A) :
  find f l = Some x ->
  exists pre post,
    l = pre ++ x :: post /\ Forall (fun y => f y = false) pre /\ f x = true.
Proof.
  induction l as [| a l IH]; simpl; [discriminate |].
  destruct (f a) eqn:E.
  - intros [= ->]. exists [], l. auto.
  - intro H. destruct (IH H) as (pre & post & -> & Hp & Hx).
    exists (a :: pre), post. auto.
Qed.

Lemma find_none_forall (A : Type) (f : A -> bool) (l : list A) :
  find f l = None -> Forall (fun y => f y = false) l.
Proof.
  intro H. apply Forall_forall. intros x Hx. eapply find_none; eassumption.
Qed.

(** ** Output-node locator *)

Lemma Zltb_trans (a b c : Z) :
  Z.ltb a b = true -> Z.ltb b c = true -> Z.ltb a c = true.
Proof. rewrite !Z.ltb_lt. lia. Qed.

Lemma Zltb_cotrans (a b c : Z) :
  Z.ltb a b = false -> Z.ltb b c = false -> Z.ltb a c = false.
Proof. rewrite !Z.ltb_ge. lia. Qed.



(** C7: the output-node locator returns absent when no node's type
    contains an image-save marker; otherwise it returns a candidate [n]
    that splits the node sequence so that every candidate before it has a
    strictly lower [order] (a missing order counting as 0) and every
    candidate after it has an order that is not higher: the highest order,
    and among equal orders the first in the node sequence. *)
Theorem find_highest_order_saveimage_spec (w : workflow) :
  ((forall n, In n (nodes w) -> is_saveimage n = false) ->
   find_highest_order_saveimage w = None)
  /\ (forall c, In c (nodes w) -> is_saveimage c = true ->
      exists pre n post,
        find_highest_order_saveimage w = Some n
        /\ nodes w = pre ++ n :: post
        /\ is_saveimage n = true
        /\ (forall x, In x pre -> is_saveimage x = true ->
            (order_of x < order_of n)%Z)
        /\ (forall x, In x post -> is_saveimage x = true ->
            (order_of x <= order_of n)%Z)).
Proof.
  unfold find_highest_order_saveimage.
  destruct (filter is_saveimage (nodes w)) as [| c0 cands] eqn:Hf; split.
  - reflexivity.
  - intros c Hin Hc. exfalso.
    assert (In c (filter is_saveimage (nodes w))) as H
        by (apply filter_In; auto).
    rewrite Hf in H. exact H.
  - intro Hnone. exfalso.
    assert (In c0 (filter is_saveimage (nodes w))) as H
        by (rewrite Hf; left; reflexivity).
    apply filter_In in H. destruct H as [Hin Hc].
    rewrite (Hnone _ Hin) in Hc. discriminate.
  - intros _ _ _.
    destruct (@py_max_split _ _ Z.ltb order_of Zltb_trans Zltb_cotrans
                c0 cands)
      as (pre' & post' & Hsplit & Hpre & Hpost).
    set (m := py_max Z.ltb order_of c0 cands) in *.
    rewrite Hsplit in Hf.
    apply filter_split in Hf.
    destruct Hf as (pre & post & Hn & Hp & Hq & Hm).
    exists pre, m, post. repeat split; try assumption.
    + intros x Hx Hsx.
      assert (In x pre') as H by (rewrite <- Hp; apply filter_In; auto).
      rewrite Forall_forall in Hpre. apply Hpre in H.
      now apply Z.ltb_lt in H.
    + intros x Hx Hsx.
      assert (In x post') as H by (rewrite <- Hq; apply filter_In; auto).
      rewrite Forall_forall in Hpost. apply Hpost in H.
      now apply Z.ltb_ge in H.
Qed.

Lemma find_highest_order_saveimage_spec_witness :
  In sample_preview (nodes sample_workflow)
  /\ is_saveimage sample_preview = true
  /\ exists pre n post,
       find_highest_order_saveimage sample_workflow = Some n
       /\ nodes sample_workflow = pre ++ n :: post
       /\ is_saveimage n = true
       /\ (forall x, In x pre -> is_saveimage x = true ->
           (order_of x < order_of n)%Z)
       /\ (forall x, In x post -> is_saveimage x = true ->
           (order_of x <= order_of n)%Z).
Proof.
  assert (In sample_preview (nodes sample_workflow)) as Hin
      by (simpl; tauto).
  split; [exact Hin |]. split; [reflexivity |].
  exact (proj2 (find_highest_order_saveimage_spec sample_workflow)
               sample_preview Hin eq_refl).
Defined.

Example sample_tie_picks_first :
  find_highest_order_saveimage sample_workflow = Some sample_save.
Proof. reflexivity. Qed.

(** ** String resolver: the node's own literals *)

Lemma helper_eq (w : workflow) (link_map : dict) (fuel : nat) (n : node)
    (visited : idset) :
  helper w link_map (S fuel) n visited =
  (i <- id_of n ;;
   if set_mem i visited then Ret (None, visited)
   else
     own <- inline_text n ;;
     match own with
     | Some s => Ret (Some s, set_add i visited)
     | None =>
         match longest_widget_string n with
         | Some s => Ret (Some s, set_add i visited)
         | None =>
             r <- follow_inputs w link_map (helper w link_map fuel) is_text
                    (inputs_of n) (set_add i visited) ;;
             match fst r with
             | Some s => Ret (Some s, snd r)
             | None =>
                 follow_inputs w link_map (helper w link_map fuel) is_string
                   (inputs_of n) (snd r)
             end
         end
     end).
Proof. reflexivity. Qed.

Lemma id_of_some (n : node) (i : scalar) : node_id n = Some i -> id_of n = Ret i.
Proof. unfold id_of. now intros ->. Qed.

(** The first block returns the stripped first widget value of an encoder
    whose first slot named "text" has no "link" key. *)
Lemma inline_text_first (n : node) (s : string) (rest : list wval) :
  is_clip_encode n = true ->
  (forall t, find is_text (inputs_of n) = Some t -> inp_link t = None) ->
  node_widgets_values n = Some (WList (WStr s :: rest)) ->
  inline_text n = Ret (Some (strip s)).
Proof.
  intros Hclip Htext Hwv. unfold inline_text. rewrite Hclip, Hwv.
  fold is_text. destruct (find is_text (inputs_of n)) as [t |] eqn:Ef.
  - unfold has_link. rewrite (Htext t eq_refl). reflexivity.
  - reflexivity.
Qed.

Lemma helper_returns_own (w : workflow) (link_map : dict) (fuel : nat)
    (n : node) (i : scalar) (visited : idset) (s : string) :
  node_id n = Some i -> set_mem i visited = false ->
  inline_text n = Ret (Some s) ->
  helper w link_map (S fuel) n visited = Ret (Some s, set_add i visited).
Proof.
  intros Hid Hnew Hown.
  rewrite helper_eq, (id_of_some _ Hid). simpl. rewrite Hnew, Hown.
  reflexivity.
Qed.

Lemma helper_returns_longest (w : workflow) (link_map : dict) (fuel : nat)
    (n : node) (i : scalar) (visited : idset) (s : string) :
  node_id n = Some i -> set_mem i visited = false ->
  inline_text n = Ret None -> longest_widget_string n = Some s ->
  helper w link_map (S fuel) n visited = Ret (Some s, set_add i visited).
Proof.
  intros Hid Hnew Hown Hlong.
  rewrite helper_eq, (id_of_some _ Hid). simpl. rewrite Hnew, Hown.
  simpl. rewrite Hlong. reflexivity.
Qed.

(** C3: for a text-encoder node whose first slot named "text" is absent or
    carries no link, and whose [widgets_values] is a sequence starting with
    a string, the string resolver returns that string stripped, whatever
    the other widget values, input slots and links of the workflow are. *)
Theorem extract_string_value_inline (w : workflow) (n : node) (i : scalar)
    (s : string) (rest : list wval) :
  node_id n = Some i ->
  is_clip_encode n = true ->
  (forall t, find is_text (inputs_of n) = Some t -> inp_link t = None) ->
  node_widgets_values n = Some (WList (WStr s :: rest)) ->
  extract_string_value_recursive w n = Ret (Some (strip s)).
Proof.
  intros Hid Hclip Htext Hwv. unfold extract_string_value_recursive, resolve_fuel.
  rewrite (helper_returns_own w _ _ n [] Hid eq_refl
             (inline_text_first n Hclip Htext Hwv)).
  reflexivity.
Qed.

Lemma extract_string_value_inline_witness :
  extract_string_value_recursive sample_workflow sample_encoder_a
  = Ret (Some "a cat, masterpiece").
Proof.
  apply (@extract_string_value_inline sample_workflow sample_encoder_a
           (SInt 4) "a cat, masterpiece" []).
  - reflexivity.
  - reflexivity.
  - simpl. intros t [= <-]. reflexivity.
  - reflexivity.
Defined.

(** The first block passes control on for a node of another type, and for
    an encoder whose first slot named "text" has a "link" key. *)
Lemma inline_text_other_type (n : node) :
  is_clip_encode n = false -> inline_text n = Ret None.
Proof. unfold inline_text. now intros ->. Qed.

Lemma inline_text_linked (n : node) (t : input) :
  find is_text (inputs_of n) = Some t -> has_link t = true ->
  inline_text n = Ret None.
Proof.
  intros Hfind Hlink. unfold inline_text. rewrite Hfind, Hlink.
  now destruct (is_clip_encode n).
Qed.




Example longest_widget_string_sample :
  extract_string_value_recursive sample_workflow sample_show_text
  = Ret (Some "a cat, highly detailed, 4k").
Proof. reflexivity. Qed.

(** The length that decides is the length before stripping. *)
Example longest_is_measured_unstripped :
  longest_widget_string
    (plain_node 21 "ShowText" None [] (Some (WList [WStr "a     "; WStr "bcd"])))
  = Some "a".
Proof. reflexivity. Qed.

(** ** String resolver: a "link" key with value [null] *)

(** A loop over slots skips those before the first selected one. *)
Lemma follow_inputs_skip (w : workflow) (link_map : dict)
    (recur : node -> resolver (option string)) (sel : input -> bool)
    (pre rest : list input) (visited : idset) :
  Forall (fun inp => sel inp = false) pre ->
  follow_inputs w link_map recur sel (pre ++ rest) visited
  = follow_inputs w link_map recur sel rest visited.
Proof.
  induction 1 as [| inp pre Hsel _ IH]; [reflexivity |].
  simpl. rewrite Hsel. destruct (inp_link inp); exact IH.
Qed.

Lemma follow_inputs_dangling (w : workflow) (link_map : dict)
    (recur : node -> resolver (option string)) (sel : input -> bool)
    (inp : input) (rest : list input) (l : scalar) (visited : idset) :
  inp_link inp = Some l -> sel inp = true -> dict_get l link_map = None ->
  follow_inputs w link_map recur sel (inp :: rest) visited
  = Raise (KeyError l).
Proof.
  intros Hl Hsel Hget. simpl. rewrite Hl, Hsel. unfold link_src.
  rewrite Hget. reflexivity.
Qed.

(** C10: a text-encoder node whose first slot named "text" has a "link"
    key with value [null] counts as linked: the first block does not
    return the node's own first widget value.  The node goes on to the
    generic block, which returns the longest non-blank widget string when
    there is one; otherwise the "text" link is followed, and as [null] is
    the id of no link record the lookup raises [KeyError]. *)
Theorem null_link_counts_as_linked (w : workflow) (n : node) (i : scalar)
    (t : input) (fuel : nat) (visited : idset) :
  node_id n = Some i ->
  set_mem i visited = false ->
  is_clip_encode n = true ->
  find is_text (inputs_of n) = Some t ->
  inp_link t = Some SNull ->
  inline_text n = Ret None
  /\ (forall s, longest_widget_string n = Some s ->
      helper w (build_link_map w) (S fuel) n visited
      = Ret (Some s, set_add i visited))
  /\ (longest_widget_string n = None ->
      dict_get SNull (build_link_map w) = None ->
      helper w (build_link_map w) (S fuel) n visited
      = Raise (KeyError SNull)).
Proof.
  intros Hid Hnew Hclip Hfind Hnull.
  assert (inline_text n = Ret None) as Hown.
  { unfold inline_text. rewrite Hclip. fold is_text. rewrite Hfind.
    unfold has_link. rewrite Hnull. reflexivity. }
  split; [exact Hown |]. split.
  - intros s Hs. now apply helper_returns_longest.
  - intros Hnone Hget.
    rewrite helper_eq, (id_of_some _ Hid). simpl. rewrite Hnew, Hown.
    simpl. rewrite Hnone.
    destruct (find_split _ _ Hfind) as (pre & post & -> & Hpre & Ht).
    rewrite follow_inputs_skip by exact Hpre.
    rewrite (@follow_inputs_dangling w _ _ is_text t post SNull _ Hnull Ht Hget).
    reflexivity.
Qed.

Lemma null_link_counts_as_linked_witness :
  inline_text sample_null_text_encoder = Ret None
  /\ (forall s, longest_widget_string sample_null_text_encoder = Some s ->
      helper sample_workflow (build_link_map sample_workflow) 1
             sample_null_text_encoder []
      = Ret (Some s, set_add (SInt 30) []))
  /\ (longest_widget_string sample_null_text_encoder = None ->
      dict_get SNull (build_link_map sample_workflow) = None ->
      helper sample_workflow (build_link_map sample_workflow) 1
             sample_null_text_encoder []
      = Raise (KeyError SNull)).
Proof.
  apply (@null_link_counts_as_linked sample_workflow sample_null_text_encoder
           (SInt 30) (slot "text" "STRING" (Some SNull)) 0 []).
  - reflexivity.
  - reflexivity.
  - reflexivity.
  - reflexivity.
  - reflexivity.
Defined.

(** With the key present the second widget value wins; without the key the
    first one is returned. *)
Example null_link_skips_first_widget :
  extract_string_value_recursive sample_workflow sample_null_text_encoder
  = Ret (Some "a much longer second value").
Proof. reflexivity. Qed.

Example null_link_without_strings_raises :
  extract_string_value_recursive sample_workflow
    (plain_node 31 "CLIPTextEncode" None
       [slot "text" "STRING" (Some SNull)] (Some (WList [WNum 7])))
  = Raise (KeyError SNull).
Proof. reflexivity. Qed.

(** ** The two searches: visited ids and termination *)

Section BfsFacts.
Variable stop : node -> option (res (option node)).
Variable walk : node -> res (list node).

(** No id is expanded twice, and none that was already in [seen]. *)
Lemma bfs_loop_log_fresh (fuel : nat) :
  forall q seen,
    NoDup (fst (bfs_loop stop walk fuel q seen))
    /\ forall i, In i (fst (bfs_loop stop walk fuel q seen)) -> ~ In i seen.
Proof.
  induction fuel as [| fuel IH]; intros q seen; simpl.
  - split; [constructor | intros i []].
  - destruct q as [| n q']; simpl; [split; [constructor | intros i []] |].
    destruct (id_of n) as [i | e |]; simpl;
      try (split; [constructor | intros j []]).
    destruct (set_mem i seen) eqn:Hmem; [apply IH |].
    apply set_mem_not_In in Hmem.
    destruct (stop n) as [r |]; simpl.
    + split; [repeat constructor; intros [] |].
      intros j [<- | []]. exact Hmem.
    + destruct (walk n) as [preds | e |]; simpl;
        try (split; [repeat constructor; intros [] |
                     intros j [<- | []]; exact Hmem]).
      destruct (IH (q' ++ preds) (set_add i seen)) as [Hnd Hfresh].
      split.
      * constructor; [| exact Hnd]. intro Hin.
        apply (Hfresh i Hin). left. reflexivity.
      * intros j [<- | Hj]; [exact Hmem |].
        intro Hseen. apply (Hfresh j Hj). right. exact Hseen.
Qed.

(** A loop that did not run out of fuel gives the same with more. *)
Lemma bfs_loop_more_fuel (fuel : nat) :
  forall q seen extra,
    snd (bfs_loop stop walk fuel q seen) <> OutOfFuel ->
    bfs_loop stop walk (fuel + extra) q seen = bfs_loop stop walk fuel q seen.
Proof.
  induction fuel as [| fuel IH]; intros q seen extra; simpl.
  - intro H. now contradiction H.
  - destruct q as [| n q']; [reflexivity |].
    destruct (id_of n) as [i | e |]; try reflexivity.
    destruct (set_mem i seen); [apply IH |].
    destruct (stop n) as [r |]; [reflexivity |].
    destruct (walk n) as [preds | e |]; try reflexivity.
    simpl. intro H. rewrite IH by exact H. reflexivity.
Qed.
End BfsFacts.

Lemma unseen_mono (seen seen' : idset) (n : node) :
  incl seen seen' -> unseen seen' n = true -> unseen seen n = true.
Proof.
  unfold unseen. destruct (node_id n) as [i |]; [| reflexivity].
  intros Hincl H. apply negb_true_iff in H. apply negb_true_iff.
  apply set_mem_not_In. apply set_mem_not_In in H. auto.
Qed.

Lemma unseen_sum_mono (cost : node -> nat) (seen seen' : idset)
    (c : list node) :
  incl seen seen' -> unseen_sum cost seen' c <= unseen_sum cost seen c.
Proof.
  intro Hincl. unfold unseen_sum.
  induction c as [| m c IH]; simpl; [lia |].
  destruct (unseen seen' m) eqn:E.
  - rewrite (unseen_mono m Hincl E). lia.
  - destruct (unseen seen m); lia.
Qed.

Lemma unseen_sum_le (cost : node -> nat) (seen : idset) (c : list node) :
  unseen_sum cost seen c <= list_sum (map cost c).
Proof.
  unfold unseen_sum. induction c as [| m c IH]; simpl; [lia |].
  destruct (unseen seen m); lia.
Qed.

(** Recording the id of an unseen node of [c] pays for its cost. *)
Lemma unseen_sum_add (cost : node -> nat) (seen : idset) (c : list node)
    (n : node) (i : scalar) :
  In n c -> node_id n = Some i -> ~ In i seen ->
  unseen_sum cost (set_add i seen) c + cost n <= unseen_sum cost seen c.
Proof.
  intros Hin Hid Hnew.
  induction c as [| m c IH]; [contradiction |].
  assert (incl seen (set_add i seen)) as Hincl by (intros x Hx; now right).
  pose proof (unseen_sum_mono cost c Hincl) as Hrest.
  unfold unseen_sum in *. simpl map. simpl list_sum.
  destruct Hin as [-> | Hin].
  - assert (unseen (set_add i seen) n = false) as ->.
    { unfold unseen. rewrite Hid. apply negb_false_iff, set_mem_In.
      left. reflexivity. }
    assert (unseen seen n = true) as ->.
    { unfold unseen. rewrite Hid. apply negb_true_iff.
      now apply set_mem_not_In. }
    lia.
  - specialize (IH Hin).
    destruct (unseen (set_add i seen) m) eqn:E.
    + rewrite (unseen_mono m Hincl E). lia.
    + destruct (unseen seen m); lia.
Qed.

Lemma snd_log (A : Type) (i : scalar) (r : logged A) : snd (log i r) = snd r.
Proof. reflexivity. Qed.

Section BfsTotal.
Variable stop : node -> option (res (option node)).
Variable walk : node -> res (list node).
Variable c : list node.
Hypothesis stop_fuel : forall n, stop n <> Some OutOfFuel.
Hypothesis walk_fuel : forall n, walk n <> OutOfFuel.
Hypothesis walk_bound :
  forall n preds, walk n = Ret preds ->
    List.length preds <= List.length (inputs_of n)
    /\ Forall (fun p => In p c) preds.

(** Every iteration lowers the length of the queue plus the cost of the
    nodes not yet expanded. *)
Lemma bfs_loop_total (fuel : nat) :
  forall q seen,
    Forall (fun p => In p c) q ->
    List.length q + unseen_sum node_cost seen c < fuel ->
    snd (bfs_loop stop walk fuel q seen) <> OutOfFuel.
Proof.
  induction fuel as [| fuel IH]; intros q seen Hq Hlt; [lia |].
  simpl. destruct q as [| n q']; [discriminate |].
  inversion Hq as [| ? ? Hn Hq']; subst.
  unfold id_of. destruct (node_id n) as [i |] eqn:Hid; [| discriminate].
  destruct (set_mem i seen) eqn:Hmem.
  - apply IH; [exact Hq' |].
    change (List.length (n :: q')) with (S (List.length q')) in Hlt. lia.
  - rewrite snd_log. apply set_mem_not_In in Hmem.
    pose proof (@unseen_sum_add node_cost seen c n i Hn Hid Hmem) as Hpay.
    destruct (stop n) as [r |] eqn:Hstop.
    + simpl. intros ->. exact (stop_fuel Hstop).
    + destruct (walk n) as [preds | e |] eqn:Hwalk.
      * destruct (walk_bound Hwalk) as [Hlen Hin].
        apply IH.
        -- apply Forall_app. split; assumption.
        -- rewrite length_app. unfold node_cost in Hpay at 2.
           change (List.length (n :: q')) with (S (List.length q')) in Hlt.
           lia.
      * discriminate.
      * exact (fun _ => walk_fuel Hwalk).
Qed.
End BfsTotal.

Lemma get_node_by_id_In (w : workflow) (id : scalar) (n : node) :
  get_node_by_id w id = Some n -> In n (nodes w).
Proof. unfold get_node_by_id. intro H. now apply find_some in H. Qed.

Lemma positive_loop_bfs (w : workflow) (link_map : dict) (fuel : nat) :
  forall q seen,
    positive_loop w link_map fuel q seen
    = bfs_loop (fun n => positive_scan w link_map (inputs_of n))
               (fun n => walk_all_inputs w link_map (inputs_of n))
               fuel q seen.
Proof.
  induction fuel as [| fuel IH]; intros q seen; [reflexivity |].
  simpl. destruct q as [| n q']; [reflexivity |].
  destruct (id_of n) as [i | e |]; try reflexivity.
  destruct (set_mem i seen); [apply IH |].
  destruct (positive_scan w link_map (inputs_of n)); [reflexivity |].
  destruct (walk_all_inputs w link_map (inputs_of n)); try reflexivity.
  now rewrite IH.
Qed.

Lemma clip_loop_bfs (w : workflow) (link_map : dict) (fuel : nat) :
  forall q seen,
    clip_loop w link_map fuel q seen
    = bfs_loop (fun n => if is_clip_encode n then Some (Ret (Some n)) else None)
               (fun n => walk_allowed_inputs w link_map (inputs_of n))
               fuel q seen.
Proof.
  induction fuel as [| fuel IH]; intros q seen; [reflexivity |].
  simpl. destruct q as [| n q']; [reflexivity |].
  destruct (id_of n) as [i | e |]; try reflexivity.
  destruct (set_mem i seen); [apply IH |].
  destruct (is_clip_encode n); [reflexivity |].
  destruct (walk_allowed_inputs w link_map (inputs_of n)); try reflexivity.
  now rewrite IH.
Qed.

Lemma link_src_not_fuel (link_map : dict) (l : scalar) :
  link_src link_map l <> OutOfFuel.
Proof. unfold link_src. destruct (dict_get l link_map); discriminate. Qed.

Lemma positive_scan_fuel (w : workflow) (link_map : dict) (inps : list input) :
  positive_scan w link_map inps <> Some OutOfFuel.
Proof.
  induction inps as [| inp rest IH]; simpl; [discriminate |].
  destruct (inp_link inp) as [l |]; [| exact IH].
  destruct (name_is inp "positive"); [| exact IH].
  unfold link_src. destruct (dict_get l link_map); discriminate.
Qed.

Lemma walk_all_inputs_bound (w : workflow) (link_map : dict)
    (inps : list input) :
  walk_all_inputs w link_map inps <> OutOfFuel
  /\ forall preds, walk_all_inputs w link_map inps = Ret preds ->
       List.length preds <= List.length inps
       /\ Forall (fun p => In p (nodes w)) preds.
Proof.
  induction inps as [| inp rest [IHf IH]]; simpl.
  - split; [discriminate |]. intros preds [= <-].
    split; [simpl; lia | constructor].
  - assert (walk_all_inputs w link_map rest <> OutOfFuel
            /\ forall preds, walk_all_inputs w link_map rest = Ret preds ->
                 List.length preds <= S (List.length rest)
                 /\ Forall (fun p => In p (nodes w)) preds) as Hskip.
    { split; [exact IHf |].
      intros p Hp. destruct (IH p Hp). split; [lia | assumption]. }
    destruct (inp_link inp) as [l |]; [| exact Hskip].
    unfold link_src. destruct (dict_get l link_map) as [e |]; simpl;
      [| split; [discriminate | discriminate]].
    destruct (get_node_by_id w (edge_src e)) as [pred |] eqn:Hget;
      [| exact Hskip].
    destruct (node_truthy pred); [| exact Hskip].
    destruct (walk_all_inputs w link_map rest) as [more | e' |]; simpl.
    + split; [discriminate |]. intros preds [= <-].
      destruct (IH more eq_refl) as [Hlen Hin]. split; [simpl; lia |].
      constructor; [| exact Hin]. eapply get_node_by_id_In; eassumption.
    + split; discriminate.
    + now contradiction IHf.
Qed.

Lemma walk_allowed_inputs_bound (w : workflow) (link_map : dict)
    (inps : list input) :
  walk_allowed_inputs w link_map inps <> OutOfFuel
  /\ forall preds, walk_allowed_inputs w link_map inps = Ret preds ->
       List.length preds <= List.length inps
       /\ Forall (fun p => In p (nodes w)) preds.
Proof.
  induction inps as [| inp rest [IHf IH]]; simpl.
  - split; [discriminate |]. intros preds [= <-].
    split; [simpl; lia | constructor].
  - assert (walk_allowed_inputs w link_map rest <> OutOfFuel
            /\ forall preds, walk_allowed_inputs w link_map rest = Ret preds ->
                 List.length preds <= S (List.length rest)
                 /\ Forall (fun p => In p (nodes w)) preds) as Hskip.
    { split; [exact IHf |].
      intros p Hp. destruct (IH p Hp). split; [lia | assumption]. }
    destruct (inp_link inp) as [l |]; [| exact Hskip].
    destruct (type_allowed inp); [| exact Hskip].
    unfold link_src. destruct (dict_get l link_map) as [e |]; simpl;
      [| split; [discriminate | discriminate]].
    destruct (get_node_by_id w (edge_src e)) as [pred |] eqn:Hget;
      [| exact Hskip].
    destruct (node_truthy pred); [| exact Hskip].
    destruct (walk_allowed_inputs w link_map rest) as [more | e' |]; simpl.
    + split; [discriminate |]. intros preds [= <-].
      destruct (IH more eq_refl) as [Hlen Hin]. split; [simpl; lia |].
      constructor; [| exact Hin]. eapply get_node_by_id_In; eassumption.
    + split; discriminate.
    + now contradiction IHf.
Qed.

Lemma positive_search_total (w : workflow) (start_node : node) :
  snd (positive_search_log w start_node) <> OutOfFuel.
Proof.
  unfold positive_search_log. rewrite positive_loop_bfs.
  apply bfs_loop_total with (c := start_node :: nodes w).
  - intros n. apply positive_scan_fuel.
  - intros n. apply walk_all_inputs_bound.
  - intros n preds H.
    destruct (proj2 (walk_all_inputs_bound w _ (inputs_of n)) preds H)
      as [Hlen Hin].
    split; [exact Hlen |]. eapply Forall_impl; [| exact Hin].
    intros p Hp. now right.
  - constructor; [now left | constructor].
  - pose proof (unseen_sum_le node_cost [] (start_node :: nodes w)).
    unfold search_fuel. simpl List.length. lia.
Qed.

Lemma clip_search_total (w : workflow) (start_node : node) :
  snd (clip_search_log w start_node) <> OutOfFuel.
Proof.
  unfold clip_search_log. rewrite clip_loop_bfs.
  apply bfs_loop_total with (c := start_node :: nodes w).
  - intros n. destruct (is_clip_encode n); discriminate.
  - intros n. apply walk_allowed_inputs_bound.
  - intros n preds H.
    destruct (proj2 (walk_allowed_inputs_bound w _ (inputs_of n)) preds H)
      as [Hlen Hin].
    split; [exact Hlen |]. eapply Forall_impl; [| exact Hin].
    intros p Hp. now right.
  - constructor; [now left | constructor].
  - pose proof (unseen_sum_le node_cost [] (start_node :: nodes w)).
    unfold search_fuel. simpl List.length. lia.
Qed.

(** ** Termination of the resolver *)

Lemma follow_inputs_settles (w : workflow) (link_map : dict)
    (recur : node -> resolver (option string)) (sel : input -> bool)
    (inps : list input) :
  forall visited,
    (forall pred v, In pred (nodes w) -> incl visited v ->
                    settles (recur pred) v) ->
    settles (follow_inputs w link_map recur sel inps) visited.
Proof.
  induction inps as [| inp rest IH]; intros visited Hrec.
  - split; [discriminate |]. intros a v [= _ <-]. apply incl_refl.
  - specialize (IH visited Hrec) as Hskip. unfold settles in Hskip |- *.
    simpl.
    destruct (inp_link inp) as [l |]; [| exact Hskip].
    destruct (sel inp); [| exact Hskip].
    unfold link_src. destruct (dict_get l link_map) as [e |]; simpl;
      [| split; discriminate].
    destruct (get_node_by_id w (edge_src e)) as [pred |] eqn:Hget;
      [| exact Hskip].
    destruct (node_truthy pred); [| exact Hskip].
    destruct (Hrec pred visited (get_node_by_id_In _ _ Hget)
                (incl_refl visited)) as [Hfuel Hgrow].
    destruct (recur pred visited) as [[a v] | e' |]; simpl;
      [| split; discriminate | now contradiction Hfuel].
    specialize (Hgrow a v eq_refl).
    assert (settles (follow_inputs w link_map recur sel rest) v) as [Hf Hg].
    { apply IH. intros p v' Hp Hv'. apply Hrec; [exact Hp |].
      eapply incl_tran; eassumption. }
    assert (settles (follow_inputs w link_map recur sel rest) visited
            -> forall a' v', follow_inputs w link_map recur sel rest v
                             = Ret (a', v') -> incl visited v') as Hrest.
    { intros _ a' v' H'. eapply incl_tran; [exact Hgrow |]. eapply Hg, H'. }
    destruct a as [s |].
    + destruct (str_truthy s).
      * split; [discriminate |]. intros a' v' [= _ <-]. exact Hgrow.
      * split; [exact Hf | exact (Hrest Hskip)].
    + split; [exact Hf | exact (Hrest Hskip)].
Qed.

Lemma inline_text_not_fuel (n : node) : inline_text n <> OutOfFuel.
Proof.
  unfold inline_text. destruct (is_clip_encode n); [| discriminate].
  destruct (negb _ && _); [| discriminate].
  destruct (get_or (node_widgets_values n) (WList [])) as [| b | z | s | l];
    simpl; try discriminate.
  - destruct s; discriminate.
  - destruct l as [| x l]; simpl; [discriminate |]. destruct x; discriminate.
Qed.

(** The depth of the recursion is bounded by the number of nodes whose id
    is not yet in [visited]. *)
Lemma helper_settles (w : workflow) (link_map : dict) (c : list node)
    (fuel : nat) :
  incl (nodes w) c ->
  forall n visited,
    In n c -> unseen_sum (fun _ => 1) visited c < fuel ->
    settles (helper w link_map fuel n) visited.
Proof.
  intro Hc. induction fuel as [| fuel IH]; intros n visited Hn Hlt; [lia |].
  unfold settles. rewrite helper_eq. unfold id_of.
  destruct (node_id n) as [i |] eqn:Hid; simpl; [| split; discriminate].
  destruct (set_mem i visited) eqn:Hmem.
  { split; [discriminate |]. intros a v [= _ <-]. apply incl_refl. }
  apply set_mem_not_In in Hmem.
  assert (incl visited (set_add i visited)) as Hadd
      by (intros x Hx; now right).
  pose proof (@unseen_sum_add (fun _ => 1) visited c n i Hn Hid Hmem) as Hpay.
  cbv beta in Hpay.
  pose proof (inline_text_not_fuel n) as Hown.
  destruct (inline_text n) as [[s |] | e |]; simpl;
    [| | split; discriminate | now contradiction Hown].
  { split; [discriminate |]. intros a v [= _ <-]. exact Hadd. }
  destruct (longest_widget_string n) as [s |].
  { split; [discriminate |]. intros a v [= _ <-]. exact Hadd. }
  assert (forall v, incl (set_add i visited) v ->
          forall pred v', In pred (nodes w) -> incl v v' ->
                          settles (helper w link_map fuel pred) v') as Hrec.
  { intros v Hv pred v' Hp Hv'. apply IH; [now apply Hc |].
    pose proof (@unseen_sum_mono (fun _ => 1) (set_add i visited) v' c
                  (incl_tran Hv Hv')). lia. }
  destruct (@follow_inputs_settles w link_map (helper w link_map fuel) is_text
              (inputs_of n) (set_add i visited)
              (Hrec _ (incl_refl _))) as [Hf1 Hg1].
  destruct (follow_inputs w link_map (helper w link_map fuel) is_text
              (inputs_of n) (set_add i visited)) as [[a v] | e |]; simpl;
    [| split; discriminate | now contradiction Hf1].
  specialize (Hg1 a v eq_refl).
  destruct a as [s |].
  { split; [discriminate |]. intros a' v' [= _ <-].
    eapply incl_tran; eassumption. }
  destruct (@follow_inputs_settles w link_map (helper w link_map fuel)
              is_string (inputs_of n) v (Hrec v Hg1)) as [Hf2 Hg2].
  split; [exact Hf2 |]. intros a' v' H'.
  eapply incl_tran; [exact Hadd |]. eapply incl_tran; [exact Hg1 |].
  eapply Hg2, H'.
Qed.

Lemma extract_string_value_total (w : workflow) (n : node) :
  extract_string_value_recursive w n <> OutOfFuel.
Proof.
  unfold extract_string_value_recursive.
  destruct (@helper_settles w (build_link_map w) (n :: nodes w)
              (resolve_fuel w)) with (n := n) (visited := @nil scalar)
    as [Hf _].
  - intros x Hx. now right.
  - now left.
  - pose proof (unseen_sum_le (fun _ => 1) [] (n :: nodes w)) as Hle.
    assert (forall l : list node,
               list_sum (map (fun _ => 1) l) = List.length l) as Hlen
        by (induction l; simpl; congruence).
    rewrite Hlen in Hle. unfold resolve_fuel. simpl List.length in Hle. lia.
  - destruct (helper w (build_link_map w) (resolve_fuel w) n []);
      simpl; [discriminate | discriminate | now contradiction Hf].
Qed.

Lemma follow_inputs_more_fuel (w : workflow) (link_map : dict)
    (recur recur' : node -> resolver (option string)) (sel : input -> bool)
    (inps : list input) :
  (forall pred v, recur pred v <> OutOfFuel -> recur' pred v = recur pred v) ->
  forall visited,
    follow_inputs w link_map recur sel inps visited <> OutOfFuel ->
    follow_inputs w link_map recur' sel inps visited
    = follow_inputs w link_map recur sel inps visited.
Proof.
  intro Hext. induction inps as [| inp rest IH]; intros visited; simpl;
    [reflexivity |].
  destruct (inp_link inp) as [l |]; [| apply IH].
  destruct (sel inp); [| apply IH].
  destruct (link_src link_map l) as [src_id | e |]; simpl; try reflexivity.
  destruct (get_node_by_id w src_id) as [pred |]; [| apply IH].
  destruct (node_truthy pred); [| apply IH].
  destruct (recur pred visited) as [[a v] | e |] eqn:Hr; simpl.
  - rewrite Hext by (rewrite Hr; discriminate). rewrite Hr. simpl.
    destruct a as [s |]; [destruct (str_truthy s) |];
      try reflexivity; apply IH.
  - rewrite Hext by (rewrite Hr; discriminate). rewrite Hr. reflexivity.
  - intro H. now contradiction H.
Qed.

(** A call that did not run out of fuel gives the same with more. *)
Lemma helper_more_fuel (w : workflow) (link_map : dict) (fuel extra : nat) :
  forall n visited,
    helper w link_map fuel n visited <> OutOfFuel ->
    helper w link_map (fuel + extra) n visited
    = helper w link_map fuel n visited.
Proof.
  induction fuel as [| fuel IH]; intros n visited H;
    [now contradiction H |].
  change (S fuel + extra) with (S (fuel + extra)).
  rewrite helper_eq in H. rewrite !helper_eq.
  destruct (id_of n) as [i | e |]; simpl in *; try reflexivity.
  destruct (set_mem i visited); [reflexivity |].
  destruct (inline_text n) as [[s |] | e |]; simpl in *; try reflexivity.
  destruct (longest_widget_string n); [reflexivity |].
  destruct (follow_inputs w link_map (helper w link_map fuel) is_text
              (inputs_of n) (set_add i visited)) as [[a v] | e |] eqn:H1.
  - rewrite (@follow_inputs_more_fuel w link_map (helper w link_map fuel)
               (helper w link_map (fuel + extra)) is_text (inputs_of n) IH)
      by (rewrite H1; discriminate).
    rewrite H1. simpl in *. destruct a; [reflexivity |].
    now apply follow_inputs_more_fuel.
  - rewrite (@follow_inputs_more_fuel w link_map (helper w link_map fuel)
               (helper w link_map (fuel + extra)) is_text (inputs_of n) IH)
      by (rewrite H1; discriminate).
    rewrite H1. reflexivity.
  - now contradiction H.
Qed.

(** C8: on every workflow, cyclic or not, and for every start node, each
    upstream search stops within the fuel computed from the workflow, gives
    the same result with any larger amount, and expands no node id twice;
    the recursion of the string resolver stops as well, gives the same
    result with any larger amount, and a call on a node whose id is already
    in the visited set returns "no value" at once, leaving the set as it
    is. *)
Theorem searches_and_resolver_terminate (w : workflow) (start_node : node) :
  (snd (positive_search_log w start_node) <> OutOfFuel
   /\ NoDup (fst (positive_search_log w start_node))
   /\ forall extra,
        positive_loop w (build_link_map w) (search_fuel w start_node + extra)
                      [start_node] []
        = positive_search_log w start_node)
  /\ (snd (clip_search_log w start_node) <> OutOfFuel
      /\ NoDup (fst (clip_search_log w start_node))
      /\ forall extra,
           clip_loop w (build_link_map w) (search_fuel w start_node + extra)
                     [start_node] []
           = clip_search_log w start_node)
  /\ (extract_string_value_recursive w start_node <> OutOfFuel
      /\ forall extra,
           helper w (build_link_map w) (resolve_fuel w + extra) start_node []
           = helper w (build_link_map w) (resolve_fuel w) start_node [])
  /\ (forall fuel i visited,
        node_id start_node = Some i -> In i visited ->
        helper w (build_link_map w) (S fuel) start_node visited
        = Ret (None, visited)).
Proof.
  split; [| split; [| split]].
  - pose proof (positive_search_total w start_node) as Ht.
    split; [exact Ht |]. unfold positive_search_log in *.
    rewrite positive_loop_bfs in *. split.
    + apply bfs_loop_log_fresh.
    + intro extra. rewrite positive_loop_bfs.
      now apply bfs_loop_more_fuel.
  - pose proof (clip_search_total w start_node) as Ht.
    split; [exact Ht |]. unfold clip_search_log in *.
    rewrite clip_loop_bfs in *. split.
    + apply bfs_loop_log_fresh.
    + intro extra. rewrite clip_loop_bfs.
      now apply bfs_loop_more_fuel.
  - pose proof (extract_string_value_total w start_node) as Ht.
    split; [exact Ht |]. intro extra. apply helper_more_fuel.
    unfold extract_string_value_recursive in Ht.
    destruct (helper w (build_link_map w) (resolve_fuel w) start_node []);
      [discriminate | discriminate | now contradiction Ht].
  - intros fuel i visited Hid Hin.
    rewrite helper_eq, (id_of_some _ Hid). simpl.
    apply set_mem_In in Hin. rewrite Hin. reflexivity.
Qed.

(** The searches as the specification words them.
    The definitions named [spec_...] follow the text of the specification,
    not the code: a slot counts when its link resolves in the link table, and
    the search is a relation between a queue, a visited set and a result. *)

(** ** The loops and the links they read *)

Lemma node_truthy_of_id (n : node) : node_id n <> None -> node_truthy n = true.
Proof. unfold node_truthy. destruct (node_id n); [reflexivity | congruence]. Qed.

Lemma spec_allowed_eq (inp : input) : spec_allowed inp = type_allowed inp.
Proof.
  unfold spec_allowed, type_allowed. destruct (inp_type inp); [| reflexivity].
  simpl. now rewrite orb_false_r, !orb_assoc.
Qed.

(** The first [for] of the conditioning search: when it returns, it
    returns what the specification describes; when it raises, the first
    "positive" slot with a "link" key carries an id the table lacks; when
    it runs to its end, no "positive" slot has a "link" key. *)
Lemma positive_scan_reads (w : workflow) (inps : list input) :
  match positive_scan w (build_link_map w) inps with
  | Some (Ret r) =>
      exists e, spec_positive_edge w inps = Some e
                /\ r = get_node_by_id w (edge_src e)
  | Some (Raise x) =>
      exists p l,
        find (fun i => name_is i "positive" && has_link i) inps = Some p
        /\ inp_link p = Some l
        /\ dict_get l (build_link_map w) = None /\ x = KeyError l
  | Some OutOfFuel => False
  | None =>
      spec_positive_edge w inps = None
      /\ find (fun i => name_is i "positive" && has_link i) inps = None
  end.
Proof.
  induction inps as [| inp rest IH]; [simpl; auto |].
  cbn [positive_scan spec_positive_edge find].
  unfold spec_resolved_link, has_link.
  destruct (inp_link inp) as [l |] eqn:Hl.
  - destruct (name_is inp "positive"); [| exact IH].
    unfold link_src.
    destruct (dict_get l (build_link_map w)) as [e |] eqn:Hg; simpl.
    + exists e. auto.
    + exists inp, l. auto.
  - destruct (name_is inp "positive"); exact IH.
Qed.

Section WalkReads.
Variable w : workflow.
Hypothesis Hids : ids_present (nodes w).

(** The second [for]: when it returns, the nodes it appends are the
    sources the specification describes; when it raises, a slot carries a
    link id the table lacks. *)
Lemma walk_all_inputs_reads (inps : list input) :
  match walk_all_inputs w (build_link_map w) inps with
  | Ret preds => preds = spec_sources w (fun _ => true) inps
  | Raise x =>
      exists inp l,
        In inp inps /\ inp_link inp = Some l
        /\ dict_get l (build_link_map w) = None /\ x = KeyError l
  | OutOfFuel => False
  end.
Proof.
  induction inps as [| inp rest IH]; [reflexivity |].
  assert (match walk_all_inputs w (build_link_map w) rest with
          | Ret preds => preds = spec_sources w (fun _ => true) rest
          | Raise x =>
              exists inp' l,
                In inp' (inp :: rest) /\ inp_link inp' = Some l
                /\ dict_get l (build_link_map w) = None /\ x = KeyError l
          | OutOfFuel => False
          end) as Hrest.
  { destruct (walk_all_inputs w (build_link_map w) rest); auto.
    destruct IH as (inp' & l & Hin & H). exists inp', l.
    split; [now right | exact H]. }
  cbn [walk_all_inputs spec_sources flat_map]. unfold spec_resolved_link.
  destruct (inp_link inp) as [l |] eqn:Hl; [| exact Hrest].
  unfold link_src.
  destruct (dict_get l (build_link_map w)) as [e |] eqn:Hg; simpl.
  - destruct (get_node_by_id w (edge_src e)) as [p |] eqn:Hp;
      [| exact Hrest].
    rewrite (@node_truthy_of_id p (Hids p (get_node_by_id_In _ _ Hp))).
    destruct (walk_all_inputs w (build_link_map w) rest); simpl;
      [now subst | exact Hrest | exact Hrest].
  - exists inp, l. repeat split; auto; now left.
Qed.

Lemma walk_allowed_inputs_reads (inps : list input) :
  match walk_allowed_inputs w (build_link_map w) inps with
  | Ret preds => preds = spec_sources w spec_allowed inps
  | Raise x =>
      exists inp l,
        (In inp inps /\ type_allowed inp = true) /\ inp_link inp = Some l
        /\ dict_get l (build_link_map w) = None /\ x = KeyError l
  | OutOfFuel => False
  end.
Proof.
  induction inps as [| inp rest IH]; [reflexivity |].
  assert (match walk_allowed_inputs w (build_link_map w) rest with
          | Ret preds => preds = spec_sources w spec_allowed rest
          | Raise x =>
              exists inp' l,
                (In inp' (inp :: rest) /\ type_allowed inp' = true)
                /\ inp_link inp' = Some l
                /\ dict_get l (build_link_map w) = None /\ x = KeyError l
          | OutOfFuel => False
          end) as Hrest.
  { destruct (walk_allowed_inputs w (build_link_map w) rest); auto.
    destruct IH as (inp' & l & [Hin Hty] & H). exists inp', l.
    split; [split; [now right | exact Hty] | exact H]. }
  cbn [walk_allowed_inputs spec_sources flat_map]. unfold spec_resolved_link.
  rewrite spec_allowed_eq.
  destruct (inp_link inp) as [l |] eqn:Hl.
  - destruct (type_allowed inp) eqn:Hty; [| exact Hrest].
    unfold link_src.
    destruct (dict_get l (build_link_map w)) as [e |] eqn:Hg; simpl.
    + destruct (get_node_by_id w (edge_src e)) as [p |] eqn:Hp;
        [| exact Hrest].
      rewrite (@node_truthy_of_id p (Hids p (get_node_by_id_In _ _ Hp))).
      destruct (walk_allowed_inputs w (build_link_map w) rest); simpl;
        [now subst | exact Hrest | exact Hrest].
    + exists inp, l. repeat split; auto; now left.
  - destruct (type_allowed inp); exact Hrest.
Qed.
End WalkReads.

Lemma spec_sources_In (w : workflow) (allowed : input -> bool)
    (inps : list input) :
  Forall (fun p => In p (nodes w)) (spec_sources w allowed inps).
Proof.
  apply Forall_forall. intros p Hp. unfold spec_sources in Hp.
  apply in_flat_map in Hp. destruct Hp as (inp & _ & Hp).
  destruct (allowed inp); [| contradiction].
  destruct (spec_resolved_link w inp) as [e |]; [| contradiction].
  destruct (get_node_by_id w (edge_src e)) as [p' |] eqn:Hg; [| contradiction].
  destruct Hp as [<- | []]. eapply get_node_by_id_In; eassumption.
Qed.

(** A loop that raises does so at a node it expanded: a node without id at
    the head of the queue, or the fault [F] of the stopping test or of the
    walk over the inputs. *)
Section BfsRaise.
Variable stop : node -> option (res (option node)).
Variable walk : node -> res (list node).
Variable c : list node.
Variable F : node -> exn -> Prop.
Hypothesis stop_fault :
  forall n e, stop n = Some (Raise e) -> F n e.
Hypothesis walk_fault :
  forall n e, stop n = None -> walk n = Raise e -> F n e.
Hypothesis walk_inside :
  forall n preds, walk n = Ret preds -> Forall (fun p => In p c) preds.

Lemma bfs_loop_raise (fuel : nat) :
  forall q seen e,
    Forall (fun p => In p c) q ->
    snd (bfs_loop stop walk fuel q seen) = Raise e ->
    (e = KeyError (SStr "id") /\ exists n, In n c /\ node_id n = None)
    \/ exists n,
         In n c /\ expanded (fst (bfs_loop stop walk fuel q seen)) n
         /\ F n e.
Proof.
  induction fuel as [| fuel IH]; intros q seen e Hq; [discriminate |].
  simpl. destruct q as [| n q']; [discriminate |].
  inversion Hq as [| ? ? Hn Hq']; subst.
  unfold id_of. destruct (node_id n) as [i |] eqn:Hid.
  - destruct (set_mem i seen); [now apply IH |].
    rewrite snd_log. unfold log. cbn [fst].
    destruct (stop n) as [r |] eqn:Hstop.
    + simpl. intros ->. right. exists n. split; [exact Hn |].
      split; [exists i; split; [exact Hid | now left] |].
      now apply stop_fault.
    + destruct (walk n) as [preds | e' |] eqn:Hwalk; simpl.
      * intro Hrun. apply IH in Hrun.
        -- destruct Hrun as [Hl | (m & Hm & (j & Hj & Hin) & HF)];
             [now left |].
           right. exists m. split; [exact Hm |].
           split; [exists j; split; [exact Hj | now right] | exact HF].
        -- apply Forall_app. split; [exact Hq' |]. eapply walk_inside, Hwalk.
      * intros [= ->]. right. exists n. split; [exact Hn |].
        split; [exists i; split; [exact Hid | now left] |].
        now apply walk_fault.
      * discriminate.
  - simpl. intros [= <-]. left. split; [reflexivity |]. now exists n.
Qed.
End BfsRaise.

(** ** The conditioning search refines section 4.4 *)

Lemma spec_positive_search_functional (w : workflow) (q : list node)
    (seen : idset) (r r' : option node) :
  spec_positive_search w q seen r -> spec_positive_search w q seen r' ->
  r = r'.
Proof.
  intro H. revert r'.
  induction H as [seen | n q seen i r Hid Hin H IH | n q seen i e Hid Hin He
                 | n q seen i r Hid Hin He H IH];
    intros r' H'; inversion H'; subst; same_id;
    try contradiction; try congruence; auto.
Qed.

(** Whatever the loop returns is the result of the search of the
    specification, also when links it did not read are not in the table. *)
Lemma positive_loop_sound (w : workflow) (c : list node) (fuel : nat) :
  incl (nodes w) c -> ids_present c ->
  forall q seen r,
    Forall (fun p => In p c) q ->
    snd (positive_loop w (build_link_map w) fuel q seen) = Ret r ->
    spec_positive_search w q seen r.
Proof.
  intros Hc Hids.
  induction fuel as [| fuel IH]; intros q seen r Hq; [discriminate |].
  simpl. destruct q as [| n q']; [intros [= <-]; constructor |].
  inversion Hq as [| ? ? Hn Hq']; subst.
  unfold id_of. destruct (node_id n) as [i |] eqn:Hid;
    [| now contradiction (Hids n Hn)].
  destruct (set_mem i seen) eqn:Hmem.
  - apply set_mem_In in Hmem. intro Hrun.
    eapply sps_visited; [exact Hid | exact Hmem | now apply IH].
  - apply set_mem_not_In in Hmem. rewrite snd_log.
    pose proof (positive_scan_reads w (inputs_of n)) as Hscan.
    destruct (positive_scan w (build_link_map w) (inputs_of n))
      as [[r0 | e |] |]; simpl.
    + destruct Hscan as (e & He & ->). intros [= <-].
      eapply sps_found; eassumption.
    + discriminate.
    + discriminate.
    + destruct Hscan as [He _].
      assert (ids_present (nodes w)) as Hw
          by (intros p Hp; apply Hids, Hc, Hp).
      pose proof (@walk_all_inputs_reads w Hw (inputs_of n)) as Hwalk.
      destruct (walk_all_inputs w (build_link_map w) (inputs_of n))
        as [preds | e |]; simpl; try discriminate.
      subst preds. intro Hrun.
      eapply sps_expand; try eassumption. apply IH; [| exact Hrun].
      apply Forall_app. split; [exact Hq' |].
      eapply Forall_impl; [| apply spec_sources_In]. intros p. apply Hc.
Qed.

(** The conditioning search raises only at a node it expanded, and only
    the [KeyError] of a link it looked up there. *)
Lemma positive_search_raise (w : workflow) (start_node : node) (e : exn) :
  bfs_upstream_to_positive_source w start_node = Raise e ->
  (e = KeyError (SStr "id")
   /\ exists n, In n (start_node :: nodes w) /\ node_id n = None)
  \/ exists n,
       In n (start_node :: nodes w)
       /\ expanded (fst (positive_search_log w start_node)) n
       /\ dangling_at w positive_reads n e.
Proof.
  unfold bfs_upstream_to_positive_source, positive_search_log.
  rewrite positive_loop_bfs.
  apply bfs_loop_raise.
  - intros n x Hstop. pose proof (positive_scan_reads w (inputs_of n)) as H.
    rewrite Hstop in H. destruct H as (p & l & Hfind & Hl & Hg & ->).
    exists p, l. unfold positive_reads. rewrite Hfind. auto.
  - intros n x Hstop Hwalk.
    pose proof (positive_scan_reads w (inputs_of n)) as H.
    rewrite Hstop in H. destruct H as [_ Hfind].
    assert (exists inp l,
               In inp (inputs_of n) /\ inp_link inp = Some l
               /\ dict_get l (build_link_map w) = None /\ x = KeyError l)
      as (inp & l & Hin & H').
    { clear Hstop Hfind. revert x Hwalk.
      induction (inputs_of n) as [| inp rest IH]; intros x; simpl;
        [discriminate |].
      assert (walk_all_inputs w (build_link_map w) rest = Raise x ->
              exists inp' l,
                In inp' (inp :: rest) /\ inp_link inp' = Some l
                /\ dict_get l (build_link_map w) = None /\ x = KeyError l)
        as Hrest.
      { intro H. destruct (IH x H) as (inp' & l & Hin & H').
        exists inp', l. split; [now right | exact H']. }
      destruct (inp_link inp) as [l |] eqn:Hl; [| exact Hrest].
      unfold link_src.
      destruct (dict_get l (build_link_map w)) as [ed |] eqn:Hg; simpl.
      - destruct (get_node_by_id w (edge_src ed)); [| exact Hrest].
        destruct (node_truthy n0); [| exact Hrest].
        destruct (walk_all_inputs w (build_link_map w) rest) eqn:Hr; simpl;
          try discriminate.
        intros [= <-]. now apply Hrest.
      - intros [= <-]. exists inp, l. repeat split; auto; now left. }
    exists inp, l. unfold positive_reads. rewrite Hfind. auto.
  - intros n preds H.
    destruct (proj2 (walk_all_inputs_bound w _ (inputs_of n)) preds H)
      as [_ Hin].
    eapply Forall_impl; [| exact Hin]. intros p Hp. now right.
  - constructor; [now left | constructor].
Qed.

(** C5: on a workflow whose nodes carry their id, and for every start
    node, the upstream conditioning search is the first-in-first-out
    breadth-first search of section 4.4 wherever it returns: the value is the
    source node of the link of the "positive" slot of the first dequeued,
    unvisited node that has one (not that node itself), and absent when the
    queue empties first, and the search of the specification has no other
    result.  It fails to return only by raising the [KeyError] of a link id
    that it looked up at a node it expanded and that the link table lacks;
    so it returns whenever the links it reads at the nodes it expands are in
    the table, whatever the other links are. *)
Theorem bfs_upstream_refines_spec (w : workflow) (start_node : node) :
  ids_present (start_node :: nodes w) ->
  (forall r,
      bfs_upstream_to_positive_source w start_node = Ret r ->
      spec_positive_search w [start_node] [] r
      /\ forall r', spec_positive_search w [start_node] [] r' -> r' = r)
  /\ (forall e,
         bfs_upstream_to_positive_source w start_node = Raise e ->
         exists n,
           In n (start_node :: nodes w)
           /\ expanded (fst (positive_search_log w start_node)) n
           /\ dangling_at w positive_reads n e)
  /\ ((forall n inp l,
          In n (start_node :: nodes w) ->
          expanded (fst (positive_search_log w start_node)) n ->
          positive_reads n inp -> inp_link inp = Some l ->
          dict_get l (build_link_map w) <> None) ->
      exists r, bfs_upstream_to_positive_source w start_node = Ret r).
Proof.
  intro Hids.
  assert (forall e,
             bfs_upstream_to_positive_source w start_node = Raise e ->
             exists n,
               In n (start_node :: nodes w)
               /\ expanded (fst (positive_search_log w start_node)) n
               /\ dangling_at w positive_reads n e) as Hraise.
  { intros e He.
    destruct (positive_search_raise _ _ He) as [[_ (n & Hn & Hid)] | H];
      [now contradiction (Hids n Hn) | exact H]. }
  split; [| split; [exact Hraise |]].
  - intros r Hr.
    assert (spec_positive_search w [start_node] [] r) as Hspec.
    { eapply (@positive_loop_sound w (start_node :: nodes w));
        [intros x Hx; now right | exact Hids | | exact Hr].
      constructor; [now left | constructor]. }
    split; [exact Hspec |].
    intros r' Hr'. eapply spec_positive_search_functional; eassumption.
  - intro Hread.
    pose proof (positive_search_total w start_node) as Htot.
    fold (bfs_upstream_to_positive_source w start_node) in Htot.
    destruct (bfs_upstream_to_positive_source w start_node) as [r | e |]
      eqn:Hrun; [now exists r | | now contradiction Htot].
    exfalso. destruct (Hraise e eq_refl)
      as (n & Hn & Hexp & inp & l & Hr & Hl & Hg & _).
    exact (Hread n inp l Hn Hexp Hr Hl Hg).
Qed.

Lemma sample_ids_present (n : node) :
  node_id n <> None -> ids_present (n :: nodes sample_workflow).
Proof. intros Hn m [<- | Hm]; [exact Hn |]. in_cases Hm discriminate. Qed.

Lemma bfs_upstream_refines_spec_witness :
  exists r,
    bfs_upstream_to_positive_source sample_workflow sample_spare_slot_sampler
    = Ret r
    /\ spec_positive_search sample_workflow [sample_spare_slot_sampler] [] r.
Proof.
  assert (ids_present (sample_spare_slot_sampler :: nodes sample_workflow))
    as Hids by (apply sample_ids_present; discriminate).
  destruct (@bfs_upstream_refines_spec sample_workflow
              sample_spare_slot_sampler Hids) as (Hsound & _ & Hret).
  destruct Hret as (r & Hr).
  - intros n inp l Hn (i & Hid & Hi) Hreads Hl.
    vm_compute in Hi. destruct Hi as [<- | []].
    in_cases Hn ltac:(try discriminate Hid).
    unfold positive_reads in Hreads. simpl in Hreads. subst inp.
    injection Hl as <-. discriminate.
  - exists r. split; [exact Hr | exact (proj1 (Hsound _ Hr))].
Defined.

Example bfs_upstream_sample :
  bfs_upstream_to_positive_source sample_workflow sample_decode
  = Ret (Some sample_encoder_a).
Proof. reflexivity. Qed.

(** The [null] link of the optional slot is not read: the search returns. *)
Example spare_slot_is_not_read :
  bfs_upstream_to_positive_source sample_workflow sample_spare_slot_sampler
  = Ret (Some sample_encoder_a)
  /\ fst (positive_search_log sample_workflow sample_spare_slot_sampler)
     = [SInt 67].
Proof. split; reflexivity. Qed.

(** ** The text-encoder search refines section 4.5 *)

Lemma spec_encoder_search_functional (w : workflow) (q : list node)
    (seen : idset) (r r' : option node) :
  spec_encoder_search w q seen r -> spec_encoder_search w q seen r' ->
  r = r'.
Proof.
  intro H. revert r'.
  induction H as [seen | n q seen i r Hid Hin H IH | n q seen i Hid Hin He
                 | n q seen i r Hid Hin He H IH];
    intros r' H'; inversion H'; subst; same_id;
    try contradiction; try congruence; auto.
Qed.

Lemma clip_loop_sound (w : workflow) (c : list node) (fuel : nat) :
  incl (nodes w) c -> ids_present c ->
  forall q seen r,
    Forall (fun p => In p c) q ->
    snd (clip_loop w (build_link_map w) fuel q seen) = Ret r ->
    spec_encoder_search w q seen r.
Proof.
  intros Hc Hids.
  induction fuel as [| fuel IH]; intros q seen r Hq; [discriminate |].
  simpl. destruct q as [| n q']; [intros [= <-]; constructor |].
  inversion Hq as [| ? ? Hn Hq']; subst.
  unfold id_of. destruct (node_id n) as [i |] eqn:Hid;
    [| now contradiction (Hids n Hn)].
  destruct (set_mem i seen) eqn:Hmem.
  - apply set_mem_In in Hmem. intro Hrun.
    eapply ses_visited; [exact Hid | exact Hmem | now apply IH].
  - apply set_mem_not_In in Hmem. rewrite snd_log.
    unfold is_clip_encode.
    destruct (contains "CLIPTextEncode" (type_of n)) eqn:Hclip.
    + simpl. intros [= <-]. eapply ses_found; eassumption.
    + assert (ids_present (nodes w)) as Hw
          by (intros p Hp; apply Hids, Hc, Hp).
      pose proof (@walk_allowed_inputs_reads w Hw (inputs_of n)) as Hwalk.
      destruct (walk_allowed_inputs w (build_link_map w) (inputs_of n))
        as [preds | e |]; simpl; try discriminate.
      subst preds. intro Hrun.
      eapply ses_expand; try eassumption. apply IH; [| exact Hrun].
      apply Forall_app. split; [exact Hq' |].
      eapply Forall_impl; [| apply spec_sources_In]. intros p. apply Hc.
Qed.

(** The text-encoder search raises only at a node it expanded that is not
    an encoder, and only the [KeyError] of the link of a slot of an allowed
    type. *)
Lemma clip_search_raise (w : workflow) (start_node : node) (e : exn) :
  find_upstream_clip_encode w start_node = Raise e ->
  (e = KeyError (SStr "id")
   /\ exists n, In n (start_node :: nodes w) /\ node_id n = None)
  \/ exists n,
       In n (start_node :: nodes w)
       /\ expanded (fst (clip_search_log w start_node)) n
       /\ dangling_at w clip_reads n e.
Proof.
  unfold find_upstream_clip_encode, clip_search_log.
  rewrite clip_loop_bfs.
  apply bfs_loop_raise.
  - intros n x Hstop. destruct (is_clip_encode n); discriminate.
  - intros n x Hstop Hwalk.
    assert (is_clip_encode n = false) as Hclip
        by (destruct (is_clip_encode n); [discriminate | reflexivity]).
    assert (exists inp l,
               (In inp (inputs_of n) /\ type_allowed inp = true)
               /\ inp_link inp = Some l
               /\ dict_get l (build_link_map w) = None /\ x = KeyError l)
      as (inp & l & [Hin Hty] & H').
    { clear Hstop. revert x Hwalk.
      induction (inputs_of n) as [| inp rest IH]; intros x; simpl;
        [discriminate |].
      assert (walk_allowed_inputs w (build_link_map w) rest = Raise x ->
              exists inp' l,
                (In inp' (inp :: rest) /\ type_allowed inp' = true)
                /\ inp_link inp' = Some l
                /\ dict_get l (build_link_map w) = None /\ x = KeyError l)
        as Hrest.
      { intro H. destruct (IH x H) as (inp' & l & [Hin Hty] & H').
        exists inp', l. split; [split; [now right | exact Hty] | exact H']. }
      destruct (inp_link inp) as [l |] eqn:Hl; [| exact Hrest].
      destruct (type_allowed inp) eqn:Hty; [| exact Hrest].
      unfold link_src.
      destruct (dict_get l (build_link_map w)) as [ed |] eqn:Hg; simpl.
      - destruct (get_node_by_id w (edge_src ed)); [| exact Hrest].
        destruct (node_truthy n0); [| exact Hrest].
        destruct (walk_allowed_inputs w (build_link_map w) rest) eqn:Hr;
          simpl; try discriminate.
        intros [= <-]. now apply Hrest.
      - intros [= <-]. exists inp, l. repeat split; auto; now left. }
    exists inp, l. unfold clip_reads. auto.
  - intros n preds H.
    destruct (proj2 (walk_allowed_inputs_bound w _ (inputs_of n)) preds H)
      as [_ Hin].
    eapply Forall_impl; [| exact Hin]. intros p Hp. now right.
  - constructor; [now left | constructor].
Qed.

(** C6: on a workflow whose nodes carry their id, and for every start
    node, the upstream text-encoder search is the breadth-first search of
    section 4.5 wherever it returns: the value is the first dequeued,
    unvisited node whose type contains the text-encoder marker, tested
    before the node is expanded, with predecessors taken only through slots
    of an allowed type (CONDITIONING, CLIP, STRING, any), and the search of
    the specification has no other result.  It fails to return only by
    raising the [KeyError] of a link id that the link table lacks and that
    sits on a slot of an allowed type of an expanded node that is not an
    encoder; so it returns whenever those links are in the table: the links
    of slots of other types, and the links of an encoder, are never looked
    up. *)
Theorem find_upstream_clip_encode_refines_spec (w : workflow)
    (start_node : node) :
  ids_present (start_node :: nodes w) ->
  (forall r,
      find_upstream_clip_encode w start_node = Ret r ->
      spec_encoder_search w [start_node] [] r
      /\ forall r', spec_encoder_search w [start_node] [] r' -> r' = r)
  /\ (forall e,
         find_upstream_clip_encode w start_node = Raise e ->
         exists n,
           In n (start_node :: nodes w)
           /\ expanded (fst (clip_search_log w start_node)) n
           /\ dangling_at w clip_reads n e)
  /\ ((forall n inp l,
          In n (start_node :: nodes w) ->
          expanded (fst (clip_search_log w start_node)) n ->
          clip_reads n inp -> inp_link inp = Some l ->
          dict_get l (build_link_map w) <> None) ->
      exists r, find_upstream_clip_encode w start_node = Ret r).
Proof.
  intro Hids.
  assert (forall e,
             find_upstream_clip_encode w start_node = Raise e ->
             exists n,
               In n (start_node :: nodes w)
               /\ expanded (fst (clip_search_log w start_node)) n
               /\ dangling_at w clip_reads n e) as Hraise.
  { intros e He.
    destruct (clip_search_raise _ _ He) as [[_ (n & Hn & Hid)] | H];
      [now contradiction (Hids n Hn) | exact H]. }
  split; [| split; [exact Hraise |]].
  - intros r Hr.
    assert (spec_encoder_search w [start_node] [] r) as Hspec.
    { eapply (@clip_loop_sound w (start_node :: nodes w));
        [intros x Hx; now right | exact Hids | | exact Hr].
      constructor; [now left | constructor]. }
    split; [exact Hspec |].
    intros r' Hr'. eapply spec_encoder_search_functional; eassumption.
  - intro Hread.
    pose proof (clip_search_total w start_node) as Htot.
    fold (find_upstream_clip_encode w start_node) in Htot.
    destruct (find_upstream_clip_encode w start_node) as [r | e |]
      eqn:Hrun; [now exists r | | now contradiction Htot].
    exfalso. destruct (Hraise e eq_refl)
      as (n & Hn & Hexp & inp & l & Hr & Hl & Hg & _).
    exact (Hread n inp l Hn Hexp Hr Hl Hg).
Qed.

(** ** What the resolver returns is stripped *)

Lemma inline_text_stripped (n : node) (s : string) :
  inline_text n = Ret (Some s) -> strip s = s.
Proof.
  unfold inline_text. destruct (is_clip_encode n); [| discriminate].
  destruct (negb _ && _); [| discriminate].
  destruct (subscript0 _) as [first | e |]; simpl; try discriminate.
  destruct first; try discriminate. intros [= <-]. apply strip_idem.
Qed.

Lemma longest_widget_string_stripped (n : node) (s : string) :
  longest_widget_string n = Some s -> strip s = s.
Proof.
  unfold longest_widget_string.
  destruct (node_widgets_values n) as [wv |]; [| discriminate].
  destruct (wval_truthy wv); [| discriminate].
  destruct (filter nonblank (flatten_strings wv)); [discriminate |].
  intros [= <-]. apply strip_idem.
Qed.

Lemma follow_inputs_stripped (w : workflow) (link_map : dict)
    (recur : node -> resolver (option string)) (sel : input -> bool)
    (inps : list input) :
  (forall pred v s v', recur pred v = Ret (Some s, v') -> strip s = s) ->
  forall visited s v',
    follow_inputs w link_map recur sel inps visited = Ret (Some s, v') ->
    strip s = s.
Proof.
  intro Hrec. induction inps as [| inp rest IH]; intros visited s v'; simpl;
    [discriminate |].
  destruct (inp_link inp) as [l |]; [| apply IH].
  destruct (sel inp); [| apply IH].
  destruct (link_src link_map l) as [src_id | e |]; simpl; try discriminate.
  destruct (get_node_by_id w src_id) as [pred |]; [| apply IH].
  destruct (node_truthy pred); [| apply IH].
  destruct (recur pred visited) as [[a v] | e |] eqn:Hr; simpl;
    try discriminate.
  destruct a as [s0 |]; [| apply IH].
  destruct (str_truthy s0); [| apply IH].
  intros [= <- <-]. eapply Hrec, Hr.
Qed.

Lemma helper_stripped (w : workflow) (link_map : dict) (fuel : nat) :
  forall n visited s v',
    helper w link_map fuel n visited = Ret (Some s, v') -> strip s = s.
Proof.
  induction fuel as [| fuel IH]; intros n visited s v'; [discriminate |].
  rewrite helper_eq.
  destruct (id_of n) as [i | e |]; simpl; try discriminate.
  destruct (set_mem i visited); [discriminate |].
  destruct (inline_text n) as [[s0 |] | e |] eqn:Hown; simpl;
    try discriminate.
  { intros [= <- _]. eapply inline_text_stripped, Hown. }
  destruct (longest_widget_string n) as [s0 |] eqn:Hlong.
  { intros [= <- _]. eapply longest_widget_string_stripped, Hlong. }
  destruct (follow_inputs w link_map (helper w link_map fuel) is_text
              (inputs_of n) (set_add i visited)) as [[a v] | e |] eqn:H1;
    simpl; try discriminate.
  destruct a as [s0 |].
  - intros [= <- _]. eapply follow_inputs_stripped; [exact IH | exact H1].
  - apply follow_inputs_stripped. exact IH.
Qed.

(** ** Per-document entry point *)

Lemma extract_from_workflow_result (w : workflow) :
  match extract_from_workflow w with
  | Ret (Some s, None) => s <> "" /\ strip s = s
  | Ret (None, Some _) => True
  | Ret _ => False
  | Raise _ => True
  | OutOfFuel => False
  end.
Proof.
  unfold extract_from_workflow.
  destruct (truthy_node (find_highest_order_saveimage w)) as [save |];
    [| exact I].
  destruct (negb _); [exact I |].
  destruct (link_src _ _) as [src_id | e |] eqn:Hsrc; simpl;
    [| exact I | now apply link_src_not_fuel in Hsrc].
  destruct (truthy_node (get_node_by_id w src_id)) as [start_node |];
    [| exact I].
  pose proof (positive_search_total w start_node) as Hpos.
  fold (bfs_upstream_to_positive_source w start_node) in Hpos.
  destruct (bfs_upstream_to_positive_source w start_node) as [pos | e |];
    simpl; [| exact I | now apply Hpos].
  destruct (truthy_node pos) as [pos_src |]; [| exact I].
  pose proof (clip_search_total w pos_src) as Hclip.
  fold (find_upstream_clip_encode w pos_src) in Hclip.
  destruct (find_upstream_clip_encode w pos_src) as [clip | e |];
    simpl; [| exact I | now apply Hclip].
  destruct (truthy_node clip) as [clip_node |]; [| exact I].
  pose proof (extract_string_value_total w clip_node) as Hres.
  unfold extract_string_value_recursive in *.
  destruct (helper w (build_link_map w) (resolve_fuel w) clip_node [])
    as [[a v] | e |] eqn:Hh; simpl; [| exact I | now apply Hres].
  destruct a as [s |]; [| exact I].
  destruct s as [| ch s']; [exact I |]. simpl.
  split; [discriminate |]. eapply helper_stripped, Hh.
Qed.

(** Once the stages before the resolver are through, the entry point
    reports what the resolver returns. *)
Lemma extract_from_workflow_reports (w : workflow) (clip_node : node)
    (resolved : option string) :
  stages_reach w clip_node ->
  extract_string_value_recursive w clip_node = Ret resolved ->
  extract_from_workflow w = Ret (report resolved).
Proof.
  intros (save & src_id & start_node & pos & pos_src & clip
          & Hsave & Himg & Hsrc & Hst & Hpos & Hp & Hclip & Hc) Hres.
  unfold extract_from_workflow.
  rewrite Hsave, Himg. cbn [negb]. rewrite Hsrc. cbn [bind].
  rewrite Hst, Hpos. cbn [bind]. rewrite Hp, Hclip. cbn [bind].
  rewrite Hc, Hres. cbn [bind].
  unfold report. destruct resolved as [s |]; [| reflexivity].
  destruct (str_truthy s); reflexivity.
Qed.

(** A prompt, and the reason [no_prompt_resolved], come from the resolver
    and from nowhere else. *)
Lemma extract_from_workflow_resolved (w : workflow)
    (p : option string * option reason) :
  extract_from_workflow w = Ret p ->
  fst p <> None \/ snd p = Some no_prompt_resolved ->
  exists clip_node resolved,
    stages_reach w clip_node
    /\ extract_string_value_recursive w clip_node = Ret resolved
    /\ p = report resolved.
Proof.
  unfold extract_from_workflow.
  destruct (truthy_node (find_highest_order_saveimage w)) as [save |] eqn:Hsave;
    [| intros [= <-] [H | H]; [now contradiction H | discriminate]].
  destruct (scalar_truthy (find_input_link_id save "images")) eqn:Himg;
    cbn [negb];
    [| intros [= <-] [H | H]; [now contradiction H | discriminate]].
  destruct (link_src _ _) as [src_id | e |] eqn:Hsrc; cbn [bind];
    try discriminate.
  destruct (truthy_node (get_node_by_id w src_id)) as [start_node |] eqn:Hst;
    [| intros [= <-] [H | H]; [now contradiction H | discriminate]].
  destruct (bfs_upstream_to_positive_source w start_node) as [pos | e |]
    eqn:Hpos; cbn [bind]; try discriminate.
  destruct (truthy_node pos) as [pos_src |] eqn:Hp;
    [| intros [= <-] [H | H]; [now contradiction H | discriminate]].
  destruct (find_upstream_clip_encode w pos_src) as [clip | e |] eqn:Hclip;
    cbn [bind]; try discriminate.
  destruct (truthy_node clip) as [clip_node |] eqn:Hc;
    [| intros [= <-] [H | H]; [now contradiction H | discriminate]].
  destruct (extract_string_value_recursive w clip_node) as [resolved | e |]
    eqn:Hres; cbn [bind]; try discriminate.
  intros Hp' _. exists clip_node, resolved.
  split; [exists save, src_id, start_node, pos, pos_src, clip;
          repeat split; assumption |].
  split; [exact Hres |].
  unfold report. destruct resolved as [s |]; [| congruence].
  destruct (str_truthy s); congruence.
Qed.

Lemma str_truthy_false (s : string) : str_truthy s = false -> s = "".
Proof. destruct s; [reflexivity | discriminate]. Qed.

(** C9: for every document the entry point returns a pair of which exactly
    one component is present: a prompt and no reason, or no prompt and a
    reason; a prompt that is returned is a non-empty string equal to its
    own [strip].  A document without workflow gives the reason
    [no_workflow].  When the stages before the resolver are through and the
    resolver returns, a non-empty string is the prompt, and an empty string
    or no value is the reason [no_prompt_resolved]; a prompt, and that
    reason, arise in no other way.  In particular an encoder that is reached
    with its text slot unlinked and a blank first literal gives
    [no_prompt_resolved], not a success. *)
Theorem entry_point_exactly_one (doc : option workflow) :
  ((exists s,
       extract_final_positive_prompt_from_png doc = Some (Some s, None)
       /\ s <> "" /\ strip s = s)
   \/ (exists r,
          extract_final_positive_prompt_from_png doc = Some (None, Some r)))
  /\ (doc = None ->
      extract_final_positive_prompt_from_png doc
      = Some (None, Some no_workflow))
  /\ (forall w clip_node resolved,
         doc = Some w -> stages_reach w clip_node ->
         extract_string_value_recursive w clip_node = Ret resolved ->
         extract_final_positive_prompt_from_png doc
         = Some match resolved with
                | Some s => if str_truthy s then (Some s, None)
                            else (None, Some no_prompt_resolved)
                | None => (None, Some no_prompt_resolved)
                end)
  /\ (forall w s r,
         doc = Some w ->
         extract_final_positive_prompt_from_png doc = Some (Some s, r) ->
         exists clip_node,
           stages_reach w clip_node
           /\ extract_string_value_recursive w clip_node = Ret (Some s))
  /\ (forall w,
         doc = Some w ->
         extract_final_positive_prompt_from_png doc
         = Some (None, Some no_prompt_resolved) ->
         exists clip_node,
           stages_reach w clip_node
           /\ (extract_string_value_recursive w clip_node = Ret None
               \/ extract_string_value_recursive w clip_node
                  = Ret (Some "")))
  /\ (forall w clip_node i t rest,
         doc = Some w -> stages_reach w clip_node ->
         node_id clip_node = Some i -> is_clip_encode clip_node = true ->
         (forall x, find is_text (inputs_of clip_node) = Some x ->
                    inp_link x = None) ->
         node_widgets_values clip_node = Some (WList (WStr t :: rest)) ->
         nonblank t = false ->
         extract_final_positive_prompt_from_png doc
         = Some (None, Some no_prompt_resolved)).
Proof.
  split; [| split; [| split; [| split; [| split]]]].
  - destruct doc as [w |]; [| right; exists no_workflow; reflexivity].
    unfold extract_final_positive_prompt_from_png.
    pose proof (extract_from_workflow_result w) as H.
    destruct (extract_from_workflow w) as [[[s |] [r |]] | e |];
      try contradiction.
    + left. exists s. split; [reflexivity | exact H].
    + right. exists r. reflexivity.
    + right. exists (error e). reflexivity.
  - intros ->. reflexivity.
  - intros w clip_node resolved -> Hreach Hres.
    unfold extract_final_positive_prompt_from_png.
    rewrite (@extract_from_workflow_reports w clip_node _ Hreach Hres). reflexivity.
  - intros w s r ->. unfold extract_final_positive_prompt_from_png.
    destruct (extract_from_workflow w) as [p | e |] eqn:Hrun;
      try discriminate.
    intros [= ->].
    destruct (@extract_from_workflow_resolved w _ Hrun)
      as (clip_node & resolved & Hreach & Hres & Hp);
      [left; discriminate |].
    exists clip_node. split; [exact Hreach |]. rewrite Hres.
    unfold report in Hp. destruct resolved as [s0 |]; [| discriminate].
    destruct (str_truthy s0); [| discriminate]. congruence.
  - intros w ->. unfold extract_final_positive_prompt_from_png.
    destruct (extract_from_workflow w) as [p | e |] eqn:Hrun;
      try discriminate.
    intros [= ->].
    destruct (@extract_from_workflow_resolved w _ Hrun)
      as (clip_node & resolved & Hreach & Hres & Hp);
      [right; reflexivity |].
    exists clip_node. split; [exact Hreach |]. rewrite Hres.
    unfold report in Hp. destruct resolved as [s0 |]; [| now left].
    destruct (str_truthy s0) eqn:Hs0; [discriminate |].
    right. now rewrite (str_truthy_false _ Hs0).
  - intros w clip_node i t rest -> Hreach Hid Hclip Htext Hwv Hblank.
    unfold extract_final_positive_prompt_from_png.
    assert (extract_string_value_recursive w clip_node
            = Ret (Some (strip t))) as Hres.
    { unfold extract_string_value_recursive, resolve_fuel.
      rewrite (helper_returns_own w _ _ clip_node [] Hid eq_refl
                 (inline_text_first clip_node Hclip Htext Hwv)).
      reflexivity. }
    rewrite (@extract_from_workflow_reports w clip_node _ Hreach Hres).
    unfold report. unfold nonblank in Hblank. rewrite Hblank. reflexivity.
Qed.

(** The sample workflow resolves to the literal of encoder 4, not to that
    of encoder 5, which feeds the negative input. *)
Example sample_workflow_resolves :
  extract_final_positive_prompt_from_png (Some sample_workflow)
  = Some (Some "a cat, masterpiece", None).
Proof. reflexivity. Qed.

(** A resolution that yields a blank literal is a failure, not a success. *)
Example blank_prompt_is_no_prompt_resolved :
  extract_final_positive_prompt_from_png
    (Some (mkWorkflow
             [sample_save; sample_decode; sample_sampler; sample_latent;
              plain_node 4 "CLIPTextEncode" None [] (Some (WList [WStr "  "]))]
             (links sample_workflow)))
  = Some (None, Some no_prompt_resolved).
Proof. reflexivity. Qed.

(** ** A link id that is not in the link table *)

Lemma link_src_dangling (link_map : dict) (l : scalar) :
  dict_get l link_map = None -> link_src link_map l = Raise (KeyError l).
Proof. unfold link_src. now intros ->. Qed.

Lemma follow_inputs_unselected (w : workflow) (link_map : dict)
    (recur : node -> resolver (option string)) (sel : input -> bool)
    (inps rest : list input) (visited : idset) :
  Forall (fun x => sel x && has_link x = false) inps ->
  follow_inputs w link_map recur sel (inps ++ rest) visited
  = follow_inputs w link_map recur sel rest visited.
Proof.
  induction 1 as [| inp inps Hsel _ IH]; [reflexivity |].
  simpl. unfold has_link in Hsel.
  destruct (inp_link inp); [| exact IH].
  destruct (sel inp); [discriminate | exact IH].
Qed.

Lemma positive_scan_dangling (w : workflow) (link_map : dict)
    (pre post : list input) (inp : input) (l : scalar) :
  Forall (fun x => name_is x "positive" && has_link x = false) pre ->
  name_is inp "positive" = true -> inp_link inp = Some l ->
  dict_get l link_map = None ->
  positive_scan w link_map (pre ++ inp :: post) = Some (Raise (KeyError l)).
Proof.
  intros Hpre Hname Hl Hget.
  induction Hpre as [| x pre Hx _ IH]; simpl.
  - rewrite Hl, Hname, (@link_src_dangling _ _ Hget). reflexivity.
  - unfold has_link in Hx. destruct (inp_link x); [| exact IH].
    destruct (name_is x "positive"); [discriminate | exact IH].
Qed.

Lemma positive_scan_none (w : workflow) (link_map : dict) (inps : list input) :
  Forall (fun x => name_is x "positive" && has_link x = false) inps ->
  positive_scan w link_map inps = None.
Proof.
  induction 1 as [| x inps Hx _ IH]; [reflexivity |].
  simpl. unfold has_link in Hx. destruct (inp_link x); [| exact IH].
  destruct (name_is x "positive"); [discriminate | exact IH].
Qed.

Lemma walk_all_inputs_dangling (w : workflow) (link_map : dict)
    (pre post : list input) (inp : input) (l : scalar) :
  Forall (fun x => forall l', inp_link x = Some l' ->
                              dict_get l' link_map <> None) pre ->
  inp_link inp = Some l -> dict_get l link_map = None ->
  walk_all_inputs w link_map (pre ++ inp :: post) = Raise (KeyError l).
Proof.
  intros Hpre Hl Hget.
  induction Hpre as [| x pre Hx _ IH]; simpl.
  - rewrite Hl, (@link_src_dangling _ _ Hget). reflexivity.
  - destruct (inp_link x) as [l' |]; [| exact IH].
    unfold link_src. specialize (Hx l' eq_refl).
    destruct (dict_get l' link_map) as [e |]; [| congruence]. simpl.
    destruct (get_node_by_id w (edge_src e)) as [p |]; [| exact IH].
    destruct (node_truthy p); [| exact IH]. rewrite IH. reflexivity.
Qed.

Lemma search_at_start (w : workflow) (n : node) (i : scalar) :
  node_id n = Some i ->
  bfs_upstream_to_positive_source w n
  = match positive_scan w (build_link_map w) (inputs_of n) with
    | Some r => r
    | None =>
        match walk_all_inputs w (build_link_map w) (inputs_of n) with
        | Ret preds =>
            snd (positive_loop w (build_link_map w)
                   (S (list_sum (map node_cost (n :: nodes w))))
                   ([] ++ preds) (set_add i []))
        | Raise e => Raise e
        | OutOfFuel => OutOfFuel
        end
    end.
Proof.
  intro Hid.
  unfold bfs_upstream_to_positive_source, positive_search_log, search_fuel.
  cbn [positive_loop]. rewrite (id_of_some _ Hid). cbn [set_mem existsb].
  rewrite snd_log.
  destruct (positive_scan w (build_link_map w) (inputs_of n)); [reflexivity |].
  destruct (walk_all_inputs w (build_link_map w) (inputs_of n)); reflexivity.
Qed.

(** C1 as the code has it: a link id carried by an input slot and absent
    from the link table is not read as "no link".  In the string resolver,
    when neither literal block returns, the first linked "text" slot, or
    with no linked "text" slot the first linked STRING slot, raises
    [KeyError] with that id instead of falling through to the next rule;
    in the conditioning search, the first linked "positive" slot of the
    start node, or with none the first linked slot whose link dangles,
    raises it as well.  The entry point reports the exception as [error]. *)
Theorem dangling_link_raises (w : workflow) (n : node) (i : scalar)
    (pre post : list input) (inp : input) (l : scalar) :
  node_id n = Some i ->
  inputs_of n = pre ++ inp :: post ->
  inp_link inp = Some l ->
  dict_get l (build_link_map w) = None ->
  (inline_text n = Ret None -> longest_widget_string n = None ->
   (is_text inp = true
    /\ Forall (fun x => is_text x && has_link x = false) pre
    \/ is_string inp = true
       /\ Forall (fun x => is_text x && has_link x = false) (inputs_of n)
       /\ Forall (fun x => is_string x && has_link x = false) pre) ->
   extract_string_value_recursive w n = Raise (KeyError l))
  /\ (name_is inp "positive" = true
      /\ Forall (fun x => name_is x "positive" && has_link x = false) pre
      \/ Forall (fun x => name_is x "positive" && has_link x = false)
                (inputs_of n)
         /\ Forall (fun x => forall l', inp_link x = Some l' ->
                      dict_get l' (build_link_map w) <> None) pre ->
      bfs_upstream_to_positive_source w n = Raise (KeyError l))
  /\ (forall e, extract_from_workflow w = Raise e ->
      extract_final_positive_prompt_from_png (Some w)
      = Some (None, Some (error e))).
Proof.
  intros Hid Hinps Hl Hget. split; [| split].
  - intros Hown Hlong Hrule.
    unfold extract_string_value_recursive, resolve_fuel.
    rewrite helper_eq, (id_of_some _ Hid). simpl. rewrite Hown. simpl.
    rewrite Hlong.
    destruct Hrule as [[Htext Hpre] | (Hstring & Hnotext & Hpre)].
    + rewrite Hinps, follow_inputs_unselected by exact Hpre.
      erewrite follow_inputs_dangling by eassumption. reflexivity.
    + rewrite <- (app_nil_r (inputs_of n)) at 1.
      rewrite follow_inputs_unselected by exact Hnotext. simpl.
      rewrite Hinps, follow_inputs_unselected by exact Hpre.
      erewrite follow_inputs_dangling by eassumption. reflexivity.
  - intros Hrule. rewrite (@search_at_start w n i Hid).
    destruct Hrule as [[Hname Hpre] | [Hnone Hpre]].
    + rewrite Hinps.
      erewrite positive_scan_dangling by eassumption. reflexivity.
    + rewrite positive_scan_none by exact Hnone. rewrite Hinps.
      erewrite walk_all_inputs_dangling by eassumption. reflexivity.
  - intros e He. unfold extract_final_positive_prompt_from_png.
    rewrite He. reflexivity.
Qed.

(** ** Runs on concrete workflows *)

(** Counterexample to C1 as stated: link 77 is in no link record; the
    resolver raises [KeyError] on it instead of going on to the STRING
    slot, which is where it gets its value once the "link" key is gone;
    the conditioning search raises on the same link. *)
Lemma dangling_link_escapes :
  dict_get (SInt 77) (build_link_map sample_workflow) = None
  /\ extract_string_value_recursive sample_workflow sample_dangling_concat
     = Raise (KeyError (SInt 77))
  /\ extract_string_value_recursive sample_workflow sample_repaired_concat
     = Ret (Some "fallback text")
  /\ bfs_upstream_to_positive_source sample_workflow sample_dangling_positive
     = Raise (KeyError (SInt 77)).
Proof. repeat split; reflexivity. Qed.

Lemma dangling_link_raises_witness :
  extract_string_value_recursive sample_workflow sample_dangling_concat
  = Raise (KeyError (SInt 77))
  /\ bfs_upstream_to_positive_source sample_workflow sample_dangling_concat
     = Raise (KeyError (SInt 77)).
Proof.
  destruct (@dangling_link_raises sample_workflow sample_dangling_concat
              (SInt 60) [] [slot "suffix" "STRING" (Some (SInt 17))]
              (slot "text" "STRING" (Some (SInt 77))) (SInt 77)
              eq_refl eq_refl eq_refl eq_refl) as (Hres & Hbfs & _).
  split.
  - apply Hres; [reflexivity | reflexivity |].
    left. split; [reflexivity | constructor].
  - apply Hbfs. right. split; [| constructor].
    repeat constructor.
Defined.

(** Counterexample to C2 as stated: each of the three functions raises on
    a document the parser accepts: a [null] link, a link id with no
    record, a node object without id, an encoder whose [widgets_values] is
    a number. *)
Lemma core_functions_raise :
  bfs_upstream_to_positive_source sample_workflow sample_unlinked_sampler
  = Raise (KeyError SNull)
  /\ find_upstream_clip_encode sample_workflow sample_dangling_combine
     = Raise (KeyError (SInt 78))
  /\ extract_string_value_recursive sample_workflow sample_no_id
     = Raise (KeyError (SStr "id"))
  /\ extract_string_value_recursive sample_workflow sample_numeric_encoder
     = Raise TypeError.
Proof. repeat split; reflexivity. Qed.

Lemma find_upstream_clip_encode_refines_spec_witness :
  exists r,
    find_upstream_clip_encode pruned_workflow pruned_combine = Ret r
    /\ spec_encoder_search pruned_workflow [pruned_combine] [] r.
Proof.
  assert (ids_present (pruned_combine :: nodes pruned_workflow)) as Hids
      by (intros n Hn; in_cases Hn discriminate).
  destruct (@find_upstream_clip_encode_refines_spec pruned_workflow
              pruned_combine Hids) as (Hsound & _ & Hret).
  destruct Hret as (r & Hr).
  - intros n inp l Hn _ (Hclip & Hin & Hty) Hl.
    in_cases Hn ltac:(try discriminate Hclip;
                      in_cases Hin ltac:(try discriminate Hty;
                                         injection Hl as <-; discriminate)).
  - exists r. split; [exact Hr | exact (proj1 (Hsound _ Hr))].
Defined.

(** An encoder is returned before any of its slots is read: the [null]
    link of its "text" slot does not matter. *)
Example encoder_links_are_not_read :
  find_upstream_clip_encode sample_workflow sample_null_text_encoder
  = Ret (Some sample_null_text_encoder).
Proof. reflexivity. Qed.

Example pruned_search_skips_other_types :
  find_upstream_clip_encode pruned_workflow pruned_combine
  = Ret (Some pruned_encoder).
Proof. reflexivity. Qed.

Lemma searches_and_resolver_terminate_witness :
  NoDup (fst (positive_search_log cyclic_workflow cyclic_a))
  /\ helper cyclic_workflow (build_link_map cyclic_workflow) 1 cyclic_a
            [SInt 41; SInt 40]
     = Ret (None, [SInt 41; SInt 40]).
Proof.
  destruct (searches_and_resolver_terminate cyclic_workflow cyclic_a)
    as ((_ & Hnodup & _) & _ & _ & Hvisited).
  split; [exact Hnodup |].
  apply (Hvisited 0 (SInt 40)); [reflexivity | right; left; reflexivity].
Defined.

Example cyclic_searches_end :
  positive_search_log cyclic_workflow cyclic_a = ([SInt 40; SInt 41], Ret None)
  /\ clip_search_log cyclic_workflow cyclic_a = ([SInt 40; SInt 41], Ret None)
  /\ extract_string_value_recursive cyclic_workflow cyclic_a = Ret None.
Proof. repeat split; reflexivity. Qed.

Lemma blank_workflow_reaches_encoder : stages_reach blank_workflow blank_encoder.
Proof.
  exists sample_save, (SInt 2), sample_decode, (Some blank_encoder),
    blank_encoder, (Some blank_encoder).
  repeat split; reflexivity.
Qed.

Lemma entry_point_exactly_one_witness :
  extract_final_positive_prompt_from_png (Some blank_workflow)
  = Some (None, Some no_prompt_resolved).
Proof.
  destruct (entry_point_exactly_one (Some blank_workflow))
    as (_ & _ & _ & _ & _ & Hblank).
  apply (Hblank blank_workflow blank_encoder (SInt 4) "  " []).
  - reflexivity.
  - exact blank_workflow_reaches_encoder.
  - reflexivity.
  - reflexivity.
  - simpl. discriminate.
  - reflexivity.
  - reflexivity.
Defined.


(** Counterexample to C5 as stated: on a decoder whose "vae" slot holds a
    [null] link, the search of section 4.4 passes over that slot, reaches
    the sampler through "samples" and returns encoder 4; the code raises
    [KeyError] when it walks the inputs of the decoder. *)
Lemma positive_search_raises_on_null_link :
  spec_positive_search sample_workflow [sample_half_wired_decode] []
                       (Some sample_encoder_a)
  /\ bfs_upstream_to_positive_source sample_workflow sample_half_wired_decode
     = Raise (KeyError SNull).
Proof.
  split; [| reflexivity].
  eapply sps_expand with (i := SInt 65);
    [reflexivity | intros [] | reflexivity |].
  change (spec_positive_search sample_workflow [sample_sampler] [SInt 65]
            (get_node_by_id sample_workflow
               (edge_src (SInt 4, SInt 0, SInt 0, SInt 0,
                          SStr "CONDITIONING")))).
  eapply sps_found with (i := SInt 3); [reflexivity | | reflexivity].
  intros [H | []]. discriminate H.
Qed.

(** Counterexample to C6 as stated: on a combiner whose first conditioning
    slot holds a [null] link and whose second leads to encoder 4, the
    search of section 4.5 returns encoder 4; the code raises [KeyError]. *)
Lemma clip_search_raises_on_null_link :
  spec_encoder_search sample_workflow [sample_half_wired_combine] []
                      (Some sample_encoder_a)
  /\ find_upstream_clip_encode sample_workflow sample_half_wired_combine
     = Raise (KeyError SNull).
Proof.
  split; [| reflexivity].
  eapply ses_expand with (i := SInt 66);
    [reflexivity | intros [] | reflexivity |].
  change (spec_encoder_search sample_workflow [sample_encoder_a] [SInt 66]
            (Some sample_encoder_a)).
  eapply ses_found with (i := SInt 4); [reflexivity | | reflexivity].
  intros [H | []]. discriminate H.
Qed.


(** * Further properties of the code *)

(** ** Link index *)

(** The last record of a list that contributes an entry for [k]. *)
Lemma build_link_map_fold (k : scalar) (recs : list (list scalar)) :
  forall acc : dict,
    dict_get k
      (fold_left
         (fun link_map rec =>
            match rec with
            | link_id :: src_id :: src_slot :: dst_id :: dst_slot :: ltype :: _ =>
                dict_set link_id (src_id, src_slot, dst_id, dst_slot, ltype)
                         link_map
            | _ => link_map
            end) recs acc)
    = match find (fun rec => match record_entry rec with
                             | Some (k', _) => scalar_eqb k' k
                             | None => false
                             end) (rev recs) with
      | Some rec => option_map snd (record_entry rec)
      | None => dict_get k acc
      end.
Proof.
  induction recs as [| rec recs IH] using rev_ind; intro acc.
  - reflexivity.
  - rewrite fold_left_app, rev_app_distr. simpl.
    destruct rec as [| f1 [| f2 [| f3 [| f4 [| f5 [| f6 more]]]]]];
      simpl; try apply IH.
    destruct (scalar_eqb f1 k); [reflexivity | apply IH].
Qed.

(** X1: a lookup in the link index misses exactly when no record of at
    least six fields starts with the id: records of fewer fields are never
    indexed. *)
Theorem build_link_map_miss (w : workflow) (k : scalar) :
  dict_get k (build_link_map w) = None
  <-> forall rec e, In rec (links w) -> record_entry rec <> Some (k, e).
Proof.
  unfold build_link_map. rewrite build_link_map_fold. split.
  - intros H rec e Hin Hrec.
    destruct (find _ (rev (links w))) as [rec' |] eqn:Hf.
    + apply find_some in Hf. destruct Hf as [_ Hk].
      destruct (record_entry rec') as [[k' e'] |]; discriminate.
    + apply in_rev in Hin. pose proof (find_none _ _ Hf rec Hin) as Hn.
      cbv beta in Hn. rewrite Hrec, scalar_eqb_refl in Hn. discriminate.
  - intro H. destruct (find _ (rev (links w))) as [rec |] eqn:Hf;
      [| reflexivity].
    apply find_some in Hf. destruct Hf as [Hin Hk].
    apply in_rev in Hin.
    destruct (record_entry rec) as [[k' e] |] eqn:Hrec; [| discriminate].
    apply scalar_eqb_eq in Hk. subst k'. now contradiction (H rec e).
Qed.

(** X2: when several records carry the same link id, the last one in the
    link list is the one the index answers with; the fields after the
    sixth are ignored. *)
Theorem build_link_map_last_wins (w : workflow)
    (pre post : list (list scalar))
    (k src_id src_slot dst_id dst_slot ltype : scalar) (more : list scalar) :
  links w
  = pre ++ (k :: src_id :: src_slot :: dst_id :: dst_slot :: ltype :: more)
        :: post ->
  (forall rec e, In rec post -> record_entry rec <> Some (k, e)) ->
  dict_get k (build_link_map w)
  = Some (src_id, src_slot, dst_id, dst_slot, ltype).
Proof.
  intros Hlinks Hpost. unfold build_link_map.
  rewrite build_link_map_fold, Hlinks, rev_app_distr. simpl rev.
  rewrite <- app_assoc. simpl app.
  assert (forall rest,
             find (fun rec => match record_entry rec with
                              | Some (k', _) => scalar_eqb k' k
                              | None => false
                              end) (rev post ++ rest)
             = find (fun rec => match record_entry rec with
                                | Some (k', _) => scalar_eqb k' k
                                | None => false
                                end) rest) as Hskip.
  { intro rest.
    assert (forall rec e, In rec (rev post) -> record_entry rec <> Some (k, e))
      as H by (intros rec e Hin; apply Hpost; now apply in_rev).
    induction (rev post) as [| rec l IH]; [reflexivity |]. simpl.
    destruct (record_entry rec) as [[k' e] |] eqn:Hrec.
    - destruct (scalar_eqb k' k) eqn:Hk.
      + apply scalar_eqb_eq in Hk. subst k'.
        now contradiction (H rec e (or_introl eq_refl)).
      + apply IH. intros r e' Hin. apply H. now right.
    - apply IH. intros r e' Hin. apply H. now right. }
  rewrite Hskip. simpl. rewrite scalar_eqb_refl. reflexivity.
Qed.

(** ** Node registry *)

(** X3: the registry lookup returns the first node whose id, read with
    [get] (so a missing id reads as [null]), equals the query, and reports
    "not found" exactly when no node has that id. *)
Theorem get_node_by_id_first (w : workflow) (id : scalar) :
  (get_node_by_id w id = None
   <-> forall n, In n (nodes w) -> get_or (node_id n) SNull <> id)
  /\ (forall n,
        get_node_by_id w id = Some n
        <-> exists pre post,
              nodes w = pre ++ n :: post
              /\ get_or (node_id n) SNull = id
              /\ forall m, In m pre -> get_or (node_id m) SNull <> id).
Proof.
  unfold get_node_by_id. split.
  - split.
    + intros H n Hin Heq. apply (find_none _ _ H) in Hin.
      apply scalar_eqb_eq in Heq. congruence.
    + intro H. destruct (find _ (nodes w)) as [n |] eqn:Hf; [| reflexivity].
      apply find_some in Hf. destruct Hf as [Hin Heq].
      apply scalar_eqb_eq in Heq. now contradiction (H n Hin).
  - intro n. split.
    + intro H. apply find_split in H.
      destruct H as (pre & post & Hsplit & Hpre & Hn).
      exists pre, post. split; [exact Hsplit |]. split.
      * now apply scalar_eqb_eq.
      * intros m Hm Heq. rewrite Forall_forall in Hpre.
        apply Hpre in Hm. apply scalar_eqb_eq in Heq. congruence.
    + intros (pre & post & Hsplit & Hn & Hpre). rewrite Hsplit.
      clear Hsplit. induction pre as [| m pre IH]; simpl.
      * apply scalar_eqb_eq in Hn. now rewrite Hn.
      * destruct (scalar_eqb (get_or (node_id m) SNull) id) eqn:Hm.
        -- apply scalar_eqb_eq in Hm.
           now contradiction (Hpre m (or_introl eq_refl)).
        -- apply IH. intros m' Hm'. apply Hpre. now right.
Qed.

(** ** Flattening the widget payload *)

Lemma wval_nested_ind (P : wval -> Prop) :
  P WNull -> (forall b, P (WBool b)) -> (forall z, P (WNum z)) ->
  (forall s, P (WStr s)) -> (forall l, Forall P l -> P (WList l)) ->
  forall x, P x.
Proof.
  intros Hnull Hbool Hnum Hstr Hlist.
  fix IH 1. intros [| b | z | s | l];
    [exact Hnull | apply Hbool | apply Hnum | apply Hstr |].
  apply Hlist.
  exact ((fix all (l : list wval) : Forall P l :=
            match l with
            | [] => Forall_nil P
            | x :: l' => Forall_cons x (IH x) (all l')
            end) l).
Qed.

(** X4: [flatten_strings] collects exactly the strings that occur as strings
    at any depth of the payload; numbers, booleans and [null] contribute
    nothing. *)
Theorem flatten_strings_leaves (x : wval) (s : string) :
  In s (flatten_strings x) <-> string_leaf s x.
Proof.
  revert s. induction x as [| b | z | t | l IH] using wval_nested_ind;
    intro s; simpl.
  - split; [intros [] | inversion 1].
  - split; [intros [] | inversion 1].
  - split; [intros [] | inversion 1].
  - split.
    + intros [<- | []]. constructor.
    + inversion 1. now left.
  - rewrite in_flat_map. rewrite Forall_forall in IH. split.
    + intros (x & Hx & Hs). apply leaf_inside with x; [exact Hx |].
      now apply IH.
    + inversion 1 as [| ? x Hx Hs]; subst. exists x. split; [exact Hx |].
      now apply IH.
Qed.

(** ** What the searches return *)

Section BfsResult.
Variable stop : node -> option (res (option node)).
Variable walk : node -> res (list node).
Variable c : list node.
Variable P : node -> Prop.
Hypothesis stop_result :
  forall n r, In n c -> stop n = Some (Ret (Some r)) -> P r.
Hypothesis walk_inside :
  forall n preds, walk n = Ret preds -> Forall (fun p => In p c) preds.

Lemma bfs_loop_result (fuel : nat) :
  forall q seen r,
    Forall (fun p => In p c) q ->
    snd (bfs_loop stop walk fuel q seen) = Ret (Some r) -> P r.
Proof.
  induction fuel as [| fuel IH]; intros q seen r Hq; simpl; [discriminate |].
  destruct q as [| n q']; [discriminate |].
  inversion Hq as [| ? ? Hn Hq']; subst.
  destruct (id_of n) as [i | e |]; try discriminate.
  destruct (set_mem i seen); [now apply IH |].
  rewrite snd_log. destruct (stop n) as [r0 |] eqn:Hstop.
  - simpl. intros ->. eapply stop_result; eassumption.
  - destruct (walk n) as [preds | e |] eqn:Hwalk; try discriminate.
    apply IH. apply Forall_app. split; [exact Hq' |].
    eapply walk_inside, Hwalk.
Qed.
End BfsResult.

Lemma positive_scan_found (w : workflow) (link_map : dict)
    (inps : list input) (r : node) :
  positive_scan w link_map inps = Some (Ret (Some r)) ->
  exists inp l e,
    In inp inps /\ name_is inp "positive" = true /\ inp_link inp = Some l
    /\ dict_get l link_map = Some e
    /\ get_node_by_id w (edge_src e) = Some r.
Proof.
  induction inps as [| inp rest IH]; simpl; [discriminate |].
  assert (positive_scan w link_map rest = Some (Ret (Some r)) ->
          exists inp' l e,
            In inp' (inp :: rest) /\ name_is inp' "positive" = true
            /\ inp_link inp' = Some l /\ dict_get l link_map = Some e
            /\ get_node_by_id w (edge_src e) = Some r) as Hrest.
  { intro H. destruct (IH H) as (inp' & l & e & Hin & Hrest).
    exists inp', l, e. split; [now right | exact Hrest]. }
  destruct (inp_link inp) as [l |] eqn:Hl; [| exact Hrest].
  destruct (name_is inp "positive") eqn:Hname; [| exact Hrest].
  unfold link_src. destruct (dict_get l link_map) as [e |] eqn:He;
    simpl; [| discriminate].
  intros [= Hr]. exists inp, l, e. split; [now left |]. repeat split; auto.
Qed.

(** X5: a node returned by the upstream conditioning search is a node of the
    workflow, and it is the node that the link of a slot named "positive",
    on the start node or on a node of the workflow, names as its source. *)
Theorem bfs_upstream_returns_positive_source (w : workflow)
    (start_node r : node) :
  bfs_upstream_to_positive_source w start_node = Ret (Some r) ->
  In r (nodes w)
  /\ exists n inp l e,
       In n (start_node :: nodes w) /\ In inp (inputs_of n)
       /\ name_is inp "positive" = true /\ inp_link inp = Some l
       /\ dict_get l (build_link_map w) = Some e
       /\ get_or (node_id r) SNull = edge_src e.
Proof.
  unfold bfs_upstream_to_positive_source, positive_search_log.
  rewrite positive_loop_bfs. intro Hrun.
  eapply (@bfs_loop_result _ _ (start_node :: nodes w)
            (fun r => In r (nodes w)
                      /\ exists n inp l e,
                           In n (start_node :: nodes w)
                           /\ In inp (inputs_of n)
                           /\ name_is inp "positive" = true
                           /\ inp_link inp = Some l
                           /\ dict_get l (build_link_map w) = Some e
                           /\ get_or (node_id r) SNull = edge_src e));
    [| | | exact Hrun].
  - intros n r' Hn Hstop. apply positive_scan_found in Hstop.
    destruct Hstop as (inp & l & e & Hin & Hname & Hl & He & Hget).
    split; [eapply get_node_by_id_In, Hget |].
    exists n, inp, l, e. repeat split; auto.
    unfold get_node_by_id in Hget. apply find_some in Hget.
    now apply scalar_eqb_eq.
  - intros n preds H.
    destruct (proj2 (walk_all_inputs_bound w _ (inputs_of n)) preds H)
      as [_ Hin].
    eapply Forall_impl; [| exact Hin]. intros p Hp. now right.
  - constructor; [now left | constructor].
Qed.

(** X6: a node returned by the upstream text-encoder search has a type that
    contains "CLIPTextEncode", and is the start node or a node of the
    workflow; a start node that has an id and is itself an encoder is
    returned at once, whatever its links are. *)
Theorem find_upstream_clip_encode_returns_encoder (w : workflow)
    (start_node : node) :
  (forall r, find_upstream_clip_encode w start_node = Ret (Some r) ->
             contains "CLIPTextEncode" (type_of r) = true
             /\ (r = start_node \/ In r (nodes w)))
  /\ (node_id start_node <> None ->
      contains "CLIPTextEncode" (type_of start_node) = true ->
      find_upstream_clip_encode w start_node = Ret (Some start_node)).
Proof.
  split.
  - intro r. unfold find_upstream_clip_encode, clip_search_log.
    rewrite clip_loop_bfs. intro Hrun.
    eapply (@bfs_loop_result _ _ (start_node :: nodes w)
              (fun r => contains "CLIPTextEncode" (type_of r) = true
                        /\ (r = start_node \/ In r (nodes w))));
      [| | | exact Hrun].
    + intros n r' Hn Hstop. unfold is_clip_encode in Hstop.
      destruct (contains "CLIPTextEncode" (type_of n)) eqn:Hc;
        [| discriminate].
      injection Hstop as <-. split; [exact Hc |].
      destruct Hn as [<- | Hn]; auto.
    + intros n preds H.
      destruct (proj2 (walk_allowed_inputs_bound w _ (inputs_of n)) preds H)
        as [_ Hin].
      eapply Forall_impl; [| exact Hin]. intros p Hp. now right.
    + constructor; [now left | constructor].
  - intros Hid Hclip.
    unfold find_upstream_clip_encode, clip_search_log, search_fuel.
    cbn [clip_loop]. unfold id_of.
    destruct (node_id start_node) as [i |]; [| congruence].
    cbn [set_mem existsb]. unfold is_clip_encode. rewrite Hclip.
    reflexivity.
Qed.

(** ** Where a resolved string comes from *)

Lemma py_max_In (A K : Type) (ltb : K -> K -> bool) (key : A -> K)
    (first : A) (rest : list A) :
  In (py_max ltb key first rest) (first :: rest).
Proof.
  unfold py_max. revert first.
  induction rest as [| x rest IH]; intro first; simpl; [now left |].
  destruct (IH (if ltb (key first) (key x) then x else first)) as [H | H].
  - destruct (ltb (key first) (key x)); rewrite <- H; auto.
  - right. right. exact H.
Qed.

Lemma inline_text_from_widgets (n : node) (s : string) :
  inline_text n = Ret (Some s) -> from_widgets n s.
Proof.
  unfold inline_text, from_widgets.
  destruct (is_clip_encode n); [| discriminate].
  destruct (negb _ && _) eqn:Hcond; [| discriminate].
  apply andb_true_iff in Hcond. destruct Hcond as [_ Htruthy].
  destruct (node_widgets_values n) as [wv |]; [| discriminate Htruthy].
  simpl in *.
  destruct wv as [| b | z | t | l]; simpl; try discriminate.
  - destruct t as [| c r]; simpl; [discriminate |].
    intros [= <-]. exists (WStr (String c r)), (String c EmptyString).
    split; [reflexivity |]. split; [reflexivity |]. right. now exists c, r.
  - destruct l as [| x l]; simpl; [discriminate |].
    destruct x; try discriminate. intros [= <-].
    exists (WList (WStr s0 :: l)), s0.
    split; [reflexivity |]. split; [reflexivity |]. left. now left.
Qed.

Lemma longest_widget_string_from_widgets (n : node) (s : string) :
  longest_widget_string n = Some s -> from_widgets n s /\ s <> "".
Proof.
  unfold longest_widget_string, from_widgets.
  destruct (node_widgets_values n) as [wv |]; [| discriminate].
  destruct (wval_truthy wv); [| discriminate].
  destruct (filter nonblank (flatten_strings wv)) as [| t0 ts] eqn:Hf;
    [discriminate |].
  intros [= <-].
  pose proof (py_max_In Nat.ltb String.length t0 ts) as Hin.
  rewrite <- Hf in Hin. apply filter_In in Hin. destruct Hin as [Hin Hnb].
  split.
  - exists wv, (py_max Nat.ltb String.length t0 ts). auto.
  - unfold nonblank in Hnb. intro Hempty. rewrite Hempty in Hnb.
    discriminate.
Qed.

Lemma follow_inputs_from_widgets (w : workflow) (link_map : dict)
    (recur : node -> resolver (option string)) (sel : input -> bool)
    (inps : list input) (P : string -> Prop) :
  (forall pred v s v', In pred (nodes w) ->
                       recur pred v = Ret (Some s, v') -> P s) ->
  forall visited s v',
    follow_inputs w link_map recur sel inps visited = Ret (Some s, v') ->
    P s /\ s <> "".
Proof.
  intro Hrec. induction inps as [| inp rest IH]; intros visited s v'; simpl;
    [discriminate |].
  destruct (inp_link inp) as [l |]; [| apply IH].
  destruct (sel inp); [| apply IH].
  destruct (link_src link_map l) as [src_id | e |]; simpl; try discriminate.
  destruct (get_node_by_id w src_id) as [pred |] eqn:Hg; [| apply IH].
  destruct (node_truthy pred); [| apply IH].
  destruct (recur pred visited) as [[a v] | e |] eqn:Hr; simpl;
    try discriminate.
  destruct a as [s0 |]; [| apply IH].
  destruct (str_truthy s0) eqn:Ht; [| apply IH].
  intros [= <- <-]. split.
  - eapply Hrec; [eapply get_node_by_id_In, Hg | exact Hr].
  - intros ->. discriminate.
Qed.

Lemma helper_from_widgets (w : workflow) (link_map : dict) (fuel : nat) :
  forall n visited s v',
    helper w link_map fuel n visited = Ret (Some s, v') ->
    (exists m, (m = n \/ In m (nodes w)) /\ from_widgets m s)
    /\ (s = "" -> inline_text n = Ret (Some "")).
Proof.
  induction fuel as [| fuel IH]; intros n visited s v'; [discriminate |].
  rewrite helper_eq.
  destruct (id_of n) as [i | e |]; simpl; try discriminate.
  destruct (set_mem i visited); [discriminate |].
  destruct (inline_text n) as [[s0 |] | e |] eqn:Hown; simpl;
    try discriminate.
  { intros [= <- _]. split; [| now intros ->].
    exists n. split; [now left | now apply inline_text_from_widgets]. }
  destruct (longest_widget_string n) as [s0 |] eqn:Hlong.
  { intros [= <- _].
    destruct (longest_widget_string_from_widgets _ Hlong) as [Hfrom Hne].
    split; [| intro; contradiction]. exists n. split; [now left | exact Hfrom]. }
  assert (forall sel visited0 s1 v1,
             follow_inputs w link_map (helper w link_map fuel) sel
               (inputs_of n) visited0 = Ret (Some s1, v1) ->
             (exists m, (m = n \/ In m (nodes w)) /\ from_widgets m s1)
             /\ (s1 = "" -> Ret (@None string) = Ret (Some ""))) as Hfollow.
  { intros sel visited0 s1 v1 H.
    apply (@follow_inputs_from_widgets w link_map (helper w link_map fuel)
             sel (inputs_of n)
             (fun s => exists m, In m (nodes w) /\ from_widgets m s)) in H.
    - destruct H as [(m & Hm & Hfrom) Hne].
      split; [| intro; contradiction]. exists m. auto.
    - intros pred v s2 v2 Hpred Hcall.
      destruct (IH pred v s2 v2 Hcall) as [(m & Hm & Hfrom) _].
      exists m. split; [| exact Hfrom].
      destruct Hm as [-> | Hm]; assumption. }
  destruct (follow_inputs w link_map (helper w link_map fuel) is_text
              (inputs_of n) (set_add i visited)) as [[a v] | e |] eqn:H1;
    simpl; try discriminate.
  destruct a as [s0 |].
  - intros [= <- _]. eapply Hfollow, H1.
  - apply Hfollow.
Qed.

(** X7: a string returned by the string resolver is the strip of a widget
    string of the start node or of a node of the workflow (or, when the
    payload is a bare string, of its first character).  The empty string is
    returned only as the blank first widget value of the start node itself:
    an empty result of a node further up is never passed on. *)
Theorem extract_string_value_from_widgets (w : workflow) (n : node)
    (s : string) :
  extract_string_value_recursive w n = Ret (Some s) ->
  (exists m, (m = n \/ In m (nodes w)) /\ from_widgets m s)
  /\ (s = "" -> inline_text n = Ret (Some "")).
Proof.
  unfold extract_string_value_recursive.
  destruct (helper w (build_link_map w) (resolve_fuel w) n [])
    as [[a v] | e |] eqn:Hh; simpl; try discriminate.
  intros [= ->]. eapply helper_from_widgets, Hh.
Qed.

(** ** The entry point, stage by stage *)

Lemma truthy_node_some (o : option node) (n : node) :
  truthy_node o = Some n -> o = Some n.
Proof.
  unfold truthy_node. destruct o as [m |]; [| discriminate].
  destruct (node_truthy m); [| discriminate]. now intros [= ->].
Qed.

Lemma find_highest_order_saveimage_In (w : workflow) (save : node) :
  find_highest_order_saveimage w = Some save ->
  In save (nodes w) /\ is_saveimage save = true.
Proof.
  unfold find_highest_order_saveimage.
  destruct (filter is_saveimage (nodes w)) as [| c cands] eqn:Hf;
    [discriminate |].
  intros [= <-]. apply filter_In. rewrite Hf. apply py_max_In.
Qed.

Lemma is_saveimage_truthy (n : node) :
  is_saveimage n = true -> node_truthy n = true.
Proof.
  unfold is_saveimage, type_of, node_truthy.
  destruct (node_type n); [intros _; now destruct (node_id n) |].
  discriminate.
Qed.

Lemma positive_result_In (w : workflow) (start_node r : node) :
  bfs_upstream_to_positive_source w start_node = Ret (Some r) ->
  In r (nodes w).
Proof.
  unfold bfs_upstream_to_positive_source, positive_search_log.
  rewrite positive_loop_bfs. intro Hrun.
  eapply (@bfs_loop_result _ _ (start_node :: nodes w)
            (fun r => In r (nodes w))); [| | | exact Hrun].
  - intros n r' Hn Hstop. apply positive_scan_found in Hstop.
    destruct Hstop as (inp & l & e & _ & _ & _ & _ & Hget).
    eapply get_node_by_id_In, Hget.
  - intros n preds H.
    destruct (proj2 (walk_all_inputs_bound w _ (inputs_of n)) preds H)
      as [_ Hin].
    eapply Forall_impl; [| exact Hin]. intros p Hp. now right.
  - constructor; [now left | constructor].
Qed.

Lemma clip_result_encoder (w : workflow) (start_node r : node) :
  In start_node (nodes w) ->
  find_upstream_clip_encode w start_node = Ret (Some r) ->
  In r (nodes w) /\ contains "CLIPTextEncode" (type_of r) = true.
Proof.
  intro Hstart. unfold find_upstream_clip_encode, clip_search_log.
  rewrite clip_loop_bfs. intro Hrun.
  eapply (@bfs_loop_result _ _ (nodes w)
            (fun r => In r (nodes w)
                      /\ contains "CLIPTextEncode" (type_of r) = true));
    [| | | exact Hrun].
  - intros n r' Hn Hstop. unfold is_clip_encode in Hstop.
    destruct (contains "CLIPTextEncode" (type_of n)) eqn:Hc; [| discriminate].
    injection Hstop as <-. auto.
  - intros n preds H.
    now destruct (proj2 (walk_allowed_inputs_bound w _ (inputs_of n)) preds H).
  - constructor; [exact Hstart | constructor].
Qed.

(** The stages a successful run went through. *)
Lemma extract_from_workflow_success (w : workflow) (s : string)
    (r : option reason) :
  extract_from_workflow w = Ret (Some s, r) ->
  exists save src_id start_node pos_src clip_node,
    find_highest_order_saveimage w = Some save
    /\ scalar_truthy (find_input_link_id save "images") = true
    /\ link_src (build_link_map w) (find_input_link_id save "images")
       = Ret src_id
    /\ get_node_by_id w src_id = Some start_node
    /\ bfs_upstream_to_positive_source w start_node = Ret (Some pos_src)
    /\ find_upstream_clip_encode w pos_src = Ret (Some clip_node)
    /\ extract_string_value_recursive w clip_node = Ret (Some s).
Proof.
  unfold extract_from_workflow.
  destruct (truthy_node (find_highest_order_saveimage w)) as [save |] eqn:Hsave;
    [| discriminate].
  apply truthy_node_some in Hsave.
  destruct (scalar_truthy (find_input_link_id save "images")) eqn:Himg;
    simpl; [| discriminate].
  destruct (link_src _ _) as [src_id | e |] eqn:Hsrc; simpl; try discriminate.
  destruct (truthy_node (get_node_by_id w src_id)) as [start_node |] eqn:Hst;
    [| discriminate].
  apply truthy_node_some in Hst.
  destruct (bfs_upstream_to_positive_source w start_node) as [pos | e |]
    eqn:Hpos; simpl; try discriminate.
  destruct (truthy_node pos) as [pos_src |] eqn:Hp; [| discriminate].
  apply truthy_node_some in Hp. subst pos.
  destruct (find_upstream_clip_encode w pos_src) as [clip | e |] eqn:Hclip;
    simpl; try discriminate.
  destruct (truthy_node clip) as [clip_node |] eqn:Hc; [| discriminate].
  apply truthy_node_some in Hc. subst clip.
  destruct (extract_string_value_recursive w clip_node) as [prompt | e |]
    eqn:Hres; simpl; try discriminate.
  destruct prompt as [s0 |]; [| discriminate].
  destruct (str_truthy s0); [| discriminate].
  intros [= <- _].
  exists save, src_id, start_node, pos_src, clip_node. repeat split; auto.
Qed.

(** X8: a prompt returned by the entry point is never made up: the workflow
    then has a node of an image-save type, a node of the text-encoder type,
    and a node among whose widget strings the prompt is found (stripped). *)
Theorem returned_prompt_is_a_widget_string (w : workflow) (s : string)
    (r : option reason) :
  extract_final_positive_prompt_from_png (Some w) = Some (Some s, r) ->
  (exists save, In save (nodes w) /\ is_saveimage save = true)
  /\ (exists clip_node,
        In clip_node (nodes w)
        /\ contains "CLIPTextEncode" (type_of clip_node) = true)
  /\ (exists m, In m (nodes w) /\ from_widgets m s).
Proof.
  unfold extract_final_positive_prompt_from_png.
  destruct (extract_from_workflow w) as [[p r'] | e |] eqn:Hrun;
    try discriminate.
  intros [= -> ->]. apply extract_from_workflow_success in Hrun.
  destruct Hrun as (save & src_id & start_node & pos_src & clip_node
                    & Hsave & _ & _ & _ & Hpos & Hclip & Hres).
  apply positive_result_In in Hpos.
  apply (@clip_result_encoder w pos_src clip_node Hpos) in Hclip.
  destruct Hclip as [Hin Hty].
  split; [exists save; now apply find_highest_order_saveimage_In |].
  split; [now exists clip_node |].
  unfold extract_string_value_recursive in Hres.
  destruct (helper w (build_link_map w) (resolve_fuel w) clip_node [])
    as [[a v] | e |] eqn:Hh; simpl in Hres; try discriminate.
  injection Hres as ->.
  apply helper_from_widgets in Hh. destruct Hh as [(m & Hm & Hfrom) _].
  exists m. split; [| exact Hfrom]. destruct Hm as [-> | Hm]; assumption.
Qed.

(** X9: the entry point reports [no_saveimage] exactly when no node of the
    workflow has a type containing "SaveImage" or "Save Image". *)
Theorem no_saveimage_iff_no_save_node (w : workflow) :
  extract_final_positive_prompt_from_png (Some w)
  = Some (None, Some no_saveimage)
  <-> forall n, In n (nodes w) -> is_saveimage n = false.
Proof.
  unfold extract_final_positive_prompt_from_png, extract_from_workflow.
  destruct (find_highest_order_saveimage w) as [save |] eqn:Hsave.
  - destruct (@find_highest_order_saveimage_In w save Hsave) as [Hin Hty].
    simpl. rewrite (@is_saveimage_truthy save Hty). split.
    + intro H. exfalso.
      destruct (negb (scalar_truthy (find_input_link_id save "images")));
        [discriminate |].
      destruct (link_src _ _) as [src_id | e |]; simpl in H;
        try discriminate.
      destruct (truthy_node (get_node_by_id w src_id)) as [start_node |];
        [| discriminate].
      destruct (bfs_upstream_to_positive_source w start_node)
        as [pos | e |]; simpl in H; try discriminate.
      destruct (truthy_node pos) as [pos_src |]; [| discriminate].
      destruct (find_upstream_clip_encode w pos_src) as [clip | e |];
        simpl in H; try discriminate.
      destruct (truthy_node clip) as [clip_node |]; [| discriminate].
      destruct (extract_string_value_recursive w clip_node)
        as [[s |] | e |]; simpl in H; try discriminate.
      destruct (str_truthy s); discriminate.
    + intro H. rewrite (H save Hin) in Hty. discriminate.
  - simpl. split; [| reflexivity]. intros _ n Hin.
    unfold find_highest_order_saveimage in Hsave.
    destruct (filter is_saveimage (nodes w)) as [| c cands] eqn:Hf;
      [| discriminate].
    destruct (is_saveimage n) eqn:Hn; [| reflexivity].
    assert (In n (filter is_saveimage (nodes w))) as H
        by (apply filter_In; auto).
    rewrite Hf in H. contradiction.
Qed.

(** X10: once a save node is located, the entry point reports
    [no_saveimage_images_link] exactly when the link of its first slot named
    "images" that has a "link" key is false as a Python value: there is no
    such slot, or the link is [null], the number 0 or the empty string.  A
    link whose id is 0 counts as no link even when it is in the link
    table. *)
Theorem no_images_link_iff_falsy (w : workflow) (save : node) :
  find_highest_order_saveimage w = Some save ->
  (extract_final_positive_prompt_from_png (Some w)
   = Some (None, Some no_saveimage_images_link)
   <-> scalar_truthy (find_input_link_id save "images") = false).
Proof.
  intro Hsave.
  destruct (@find_highest_order_saveimage_In w save Hsave) as [Hin Hty].
  unfold extract_final_positive_prompt_from_png, extract_from_workflow.
  rewrite Hsave. simpl. rewrite (@is_saveimage_truthy save Hty).
  destruct (scalar_truthy (find_input_link_id save "images"));
    simpl; [| split; reflexivity].
  split; [| discriminate]. intro H. exfalso.
  destruct (link_src _ _) as [src_id | e |]; simpl in H; try discriminate.
  destruct (truthy_node (get_node_by_id w src_id)) as [start_node |];
    [| discriminate].
  destruct (bfs_upstream_to_positive_source w start_node)
    as [pos | e |]; simpl in H; try discriminate.
  destruct (truthy_node pos) as [pos_src |]; [| discriminate].
  destruct (find_upstream_clip_encode w pos_src) as [clip | e |];
    simpl in H; try discriminate.
  destruct (truthy_node clip) as [clip_node |]; [| discriminate].
  destruct (extract_string_value_recursive w clip_node)
    as [[s |] | e |]; simpl in H; try discriminate.
  destruct (str_truthy s); discriminate.
Qed.

(** ** The fields of a link record that matter *)

Lemma link_src_cons (k k' : scalar) (e : edge) (d : dict) :
  link_src (dict_set k e d) k'
  = if scalar_eqb k k' then Ret (edge_src e) else link_src d k'.
Proof.
  unfold link_src, dict_set. simpl. now destruct (scalar_eqb k k').
Qed.

Lemma same_wiring_link_src (l1 l2 : list (list scalar)) :
  Forall2 (fun r1 r2 => record_wire r1 = record_wire r2) l1 l2 ->
  forall acc1 acc2 : dict,
    (forall k, link_src acc1 k = link_src acc2 k) ->
    forall k,
      link_src
        (fold_left
           (fun link_map rec =>
              match rec with
              | link_id :: src_id :: src_slot :: dst_id :: dst_slot :: ltype :: _ =>
                  dict_set link_id (src_id, src_slot, dst_id, dst_slot, ltype)
                           link_map
              | _ => link_map
              end) l1 acc1) k
      = link_src
          (fold_left
             (fun link_map rec =>
                match rec with
                | link_id :: src_id :: src_slot :: dst_id :: dst_slot :: ltype :: _ =>
                    dict_set link_id (src_id, src_slot, dst_id, dst_slot, ltype)
                             link_map
                | _ => link_map
                end) l2 acc2) k.
Proof.
  induction 1 as [| r1 r2 l1 l2 Hr _ IH]; intros acc1 acc2 Hacc k;
    [apply Hacc |].
  simpl. apply IH. intro k'. unfold record_wire in Hr.
  destruct r1 as [| a1 [| a2 [| a3 [| a4 [| a5 [| a6 m1]]]]]];
    destruct r2 as [| b1 [| b2 [| b3 [| b4 [| b5 [| b6 m2]]]]]];
    simpl in Hr; try discriminate; try apply Hacc.
  injection Hr as -> ->. rewrite !link_src_cons.
  destruct (scalar_eqb b1 k'); [reflexivity | apply Hacc].
Qed.

Section SameWiring.
Variables w1 w2 : workflow.
Variables lm1 lm2 : dict.
Hypothesis same_nodes : nodes w1 = nodes w2.
Hypothesis same_src : forall k, link_src lm1 k = link_src lm2 k.

Lemma same_get_node_by_id (id : scalar) :
  get_node_by_id w1 id = get_node_by_id w2 id.
Proof. unfold get_node_by_id. now rewrite same_nodes. Qed.

Lemma same_positive_scan (inps : list input) :
  positive_scan w1 lm1 inps = positive_scan w2 lm2 inps.
Proof.
  induction inps as [| inp rest IH]; simpl; [reflexivity |].
  rewrite IH. destruct (inp_link inp) as [l |]; [| reflexivity].
  destruct (name_is inp "positive"); [| reflexivity].
  rewrite same_src. destruct (link_src lm2 l); simpl; try reflexivity.
  now rewrite same_get_node_by_id.
Qed.

Lemma same_walk_all_inputs (inps : list input) :
  walk_all_inputs w1 lm1 inps = walk_all_inputs w2 lm2 inps.
Proof.
  induction inps as [| inp rest IH]; simpl; [reflexivity |].
  rewrite IH. destruct (inp_link inp) as [l |]; [| reflexivity].
  rewrite same_src. destruct (link_src lm2 l); simpl; try reflexivity.
  now rewrite same_get_node_by_id.
Qed.

Lemma same_walk_allowed_inputs (inps : list input) :
  walk_allowed_inputs w1 lm1 inps = walk_allowed_inputs w2 lm2 inps.
Proof.
  induction inps as [| inp rest IH]; simpl; [reflexivity |].
  rewrite IH. destruct (inp_link inp) as [l |]; [| reflexivity].
  destruct (type_allowed inp); [| reflexivity].
  rewrite same_src. destruct (link_src lm2 l); simpl; try reflexivity.
  now rewrite same_get_node_by_id.
Qed.

Lemma same_positive_loop (fuel : nat) :
  forall q seen,
    positive_loop w1 lm1 fuel q seen = positive_loop w2 lm2 fuel q seen.
Proof.
  induction fuel as [| fuel IH]; intros q seen; simpl; [reflexivity |].
  destruct q as [| n q']; [reflexivity |].
  rewrite same_positive_scan, same_walk_all_inputs.
  destruct (id_of n); try reflexivity.
  destruct (set_mem a seen); [apply IH |].
  destruct (positive_scan w2 lm2 (inputs_of n)); [reflexivity |].
  destruct (walk_all_inputs w2 lm2 (inputs_of n)); try reflexivity.
  now rewrite IH.
Qed.

Lemma same_clip_loop (fuel : nat) :
  forall q seen,
    clip_loop w1 lm1 fuel q seen = clip_loop w2 lm2 fuel q seen.
Proof.
  induction fuel as [| fuel IH]; intros q seen; simpl; [reflexivity |].
  destruct q as [| n q']; [reflexivity |].
  rewrite same_walk_allowed_inputs.
  destruct (id_of n); try reflexivity.
  destruct (set_mem a seen); [apply IH |].
  destruct (is_clip_encode n); [reflexivity |].
  destruct (walk_allowed_inputs w2 lm2 (inputs_of n)); try reflexivity.
  now rewrite IH.
Qed.

Lemma same_follow_inputs (recur1 recur2 : node -> resolver (option string))
    (sel : input -> bool) (inps : list input) :
  (forall pred v, recur1 pred v = recur2 pred v) ->
  forall visited,
    follow_inputs w1 lm1 recur1 sel inps visited
    = follow_inputs w2 lm2 recur2 sel inps visited.
Proof.
  intro Hrec. induction inps as [| inp rest IH]; intro visited; simpl;
    [reflexivity |].
  destruct (inp_link inp) as [l |]; [| apply IH].
  destruct (sel inp); [| apply IH].
  rewrite same_src. destruct (link_src lm2 l); simpl; try reflexivity.
  rewrite same_get_node_by_id.
  destruct (get_node_by_id w2 a) as [pred |]; [| apply IH].
  destruct (node_truthy pred); [| apply IH].
  rewrite Hrec. destruct (recur2 pred visited) as [[r v] | e |]; simpl;
    try reflexivity.
  destruct r as [s |]; [destruct (str_truthy s) |]; try reflexivity;
    apply IH.
Qed.

Lemma same_helper (fuel : nat) :
  forall n visited,
    helper w1 lm1 fuel n visited = helper w2 lm2 fuel n visited.
Proof.
  induction fuel as [| fuel IH]; intros n visited; [reflexivity |].
  rewrite !helper_eq.
  destruct (id_of n); simpl; try reflexivity.
  destruct (set_mem a visited); [reflexivity |].
  destruct (inline_text n) as [[s |] | e |]; simpl; try reflexivity.
  destruct (longest_widget_string n); [reflexivity |].
  rewrite (@same_follow_inputs (helper w1 lm1 fuel) (helper w2 lm2 fuel)
             is_text (inputs_of n) IH).
  destruct (follow_inputs w2 lm2 (helper w2 lm2 fuel) is_text (inputs_of n)
              (set_add a visited)) as [[r v] | e |]; simpl; try reflexivity.
  destruct r; [reflexivity |]. now apply same_follow_inputs.
Qed.
End SameWiring.

(** X11: of a link record the traversal reads only whether it has six
    fields, its id and its source node: two workflows with the same nodes
    whose link records agree on these give the same result at the entry
    point, whatever the slots, destination and type of their links are. *)
Theorem link_slots_and_types_do_not_matter (w1 w2 : workflow) :
  same_wiring w1 w2 ->
  extract_final_positive_prompt_from_png (Some w1)
  = extract_final_positive_prompt_from_png (Some w2).
Proof.
  intros [Hnodes Hlinks].
  assert (forall k, link_src (build_link_map w1) k
                    = link_src (build_link_map w2) k) as Hsrc.
  { unfold build_link_map. now apply same_wiring_link_src. }
  assert (forall n, bfs_upstream_to_positive_source w1 n
                    = bfs_upstream_to_positive_source w2 n) as Hpos.
  { intro n. unfold bfs_upstream_to_positive_source, positive_search_log,
      search_fuel. rewrite Hnodes. f_equal.
    now apply same_positive_loop. }
  assert (forall n, find_upstream_clip_encode w1 n
                    = find_upstream_clip_encode w2 n) as Hclip.
  { intro n. unfold find_upstream_clip_encode, clip_search_log, search_fuel.
    rewrite Hnodes. f_equal. now apply same_clip_loop. }
  assert (forall n, extract_string_value_recursive w1 n
                    = extract_string_value_recursive w2 n) as Hres.
  { intro n. unfold extract_string_value_recursive, resolve_fuel.
    rewrite Hnodes. f_equal. now apply same_helper. }
  unfold extract_final_positive_prompt_from_png. f_equal.
  unfold extract_from_workflow, find_highest_order_saveimage.
  rewrite Hnodes.
  destruct (truthy_node _) as [save |]; [| reflexivity].
  destruct (negb _); [reflexivity |].
  rewrite Hsrc. destruct (link_src _ _) as [src_id | e |]; simpl;
    try reflexivity.
  rewrite (same_get_node_by_id w1 w2 Hnodes).
  destruct (truthy_node _) as [start_node |]; [| reflexivity].
  rewrite Hpos.
  destruct (bfs_upstream_to_positive_source w2 start_node) as [pos | e |];
    simpl; try reflexivity.
  destruct (truthy_node pos) as [pos_src |]; [| reflexivity].
  rewrite Hclip.
  destruct (find_upstream_clip_encode w2 pos_src) as [clip | e |];
    simpl; try reflexivity.
  destruct (truthy_node clip) as [clip_node |]; [| reflexivity].
  now rewrite Hres.
Qed.

(** ** Splitting and joining words *)

Lemma py_split_cons (c : ascii) (r : string) :
  py_split (String c r) =
  if is_space c then py_split r
  else
    match r with
    | EmptyString => [String c EmptyString]
    | String c' _ =>
        if is_space c' then String c EmptyString :: py_split r
        else
          match py_split r with
          | word :: words => String c word :: words
          | [] => [String c EmptyString]
          end
    end.
Proof. reflexivity. Qed.

Lemma py_split_space (c : ascii) (r : string) :
  is_space c = true -> py_split (String c r) = py_split r.
Proof. rewrite py_split_cons. now intros ->. Qed.

(** A word followed by nothing, or by whitespace, is split off whole. *)
Lemma py_split_word (w : string) :
  is_word w = true ->
  forall s,
    match s with EmptyString => True | String c _ => is_space c = true end ->
    py_split (w ++ s) = w :: py_split s.
Proof.
  unfold is_word. induction w as [| c w IH]; [discriminate |].
  intros Hw s Hs. simpl in Hw. apply andb_true_iff in Hw.
  destruct Hw as [Hc Hrest]. apply negb_true_iff in Hc.
  change (String c w ++ s)%string with (String c (w ++ s)).
  rewrite py_split_cons, Hc.
  destruct w as [| c2 w].
  - simpl. destruct s as [| c' r]; [reflexivity |]. now rewrite Hs.
  - assert (is_space c2 = false) as Hc2
        by (simpl in Hrest; apply andb_true_iff in Hrest;
            now apply negb_true_iff).
    change (String c2 w ++ s)%string with (String c2 (w ++ s)).
    cbv iota. rewrite Hc2.
    change (String c2 (w ++ s)) with (String c2 w ++ s)%string.
    rewrite IH; [reflexivity | exact Hrest | exact Hs].
Qed.

(** The words of a string are words; a string that starts with a character
    that is not whitespace has a first word starting with it. *)
Lemma py_split_words (s : string) :
  Forall (fun w => is_word w = true) (py_split s)
  /\ match s with
     | EmptyString => True
     | String c _ =>
         is_space c = false ->
         exists w ws, py_split s = String c w :: ws
     end.
Proof.
  induction s as [| c r [IHw IHh]]; [split; [constructor | exact I] |].
  rewrite py_split_cons. destruct (is_space c) eqn:Hc.
  - split; [exact IHw | discriminate].
  - assert (is_word (String c EmptyString) = true) as Hone
        by (unfold is_word; simpl; now rewrite Hc).
    destruct r as [| c' r'].
    + split; [repeat constructor; exact Hone |].
      intros _. now exists EmptyString, [].
    + destruct (is_space c') eqn:Hc'.
      * split; [constructor; [exact Hone | exact IHw] |].
        intros _. now exists EmptyString, (py_split (String c' r')).
      * destruct (IHh eq_refl) as (w & ws & Heq).
        rewrite Heq in IHw |- *. inversion IHw as [| ? ? Hw Hws]; subst.
        split.
        -- constructor; [| exact Hws]. unfold is_word in *. simpl in *.
           now rewrite Hc.
        -- intros _. now exists (String c' w), ws.
Qed.

Lemma append_empty_r (s : string) : (s ++ "")%string = s.
Proof. induction s as [| c s IH]; simpl; congruence. Qed.

(** Splitting undoes joining words with one space. *)
Lemma py_split_concat (ws : list string) :
  Forall (fun w => is_word w = true) ws ->
  py_split (String.concat " " ws) = ws.
Proof.
  induction 1 as [| w ws Hw Hws IH]; [reflexivity |].
  destruct ws as [| w2 ws].
  - simpl. rewrite <- (append_empty_r w) at 1.
    now rewrite py_split_word.
  - change (String.concat " " (w :: w2 :: ws))
      with (w ++ String space (String.concat " " (w2 :: ws)))%string.
    rewrite py_split_word; [| exact Hw | reflexivity].
    rewrite py_split_space by reflexivity. now rewrite IH.
Qed.

(** Replacing one whitespace character by another changes no word. *)
Lemma py_split_replace (old new : ascii) (s : string) :
  is_space old = true -> is_space new = true ->
  py_split (replace_char old new s) = py_split s.
Proof.
  intros Hold Hnew.
  assert (forall c, is_space (if Ascii.eqb c old then new else c)
                    = is_space c) as Hsp.
  { intro c. destruct (Ascii.eqb c old) eqn:E; [| reflexivity].
    apply Ascii.eqb_eq in E. subst c. now rewrite Hold, Hnew. }
  assert (forall c, is_space c = false ->
                    (if Ascii.eqb c old then new else c) = c) as Hid.
  { intros c Hc. destruct (Ascii.eqb c old) eqn:E; [| reflexivity].
    apply Ascii.eqb_eq in E. subst c. congruence. }
  induction s as [| c r IH]; [reflexivity |].
  cbn [replace_char]. rewrite !py_split_cons, Hsp.
  destruct (is_space c) eqn:Hc; [exact IH |].
  rewrite (Hid c Hc). destruct r as [| c' r']; [reflexivity |].
  cbn [replace_char] in IH |- *. rewrite Hsp.
  destruct (is_space c'); rewrite IH; reflexivity.
Qed.

Lemma one_line_eq (prompt : string) :
  one_line prompt = String.concat " " (py_split prompt).
Proof.
  unfold one_line. now rewrite !py_split_replace.
Qed.

Lemma all_chars_app (p : ascii -> bool) (a b : string) :
  all_chars p (a ++ b) = all_chars p a && all_chars p b.
Proof.
  induction a as [| c a IH]; simpl; [reflexivity |].
  now rewrite IH, andb_assoc.
Qed.

Lemma all_chars_impl (p q : ascii -> bool) (s : string) :
  (forall c, p c = true -> q c = true) ->
  all_chars p s = true -> all_chars q s = true.
Proof.
  intro Hpq. induction s as [| c s IH]; simpl; [reflexivity |].
  intro H. apply andb_true_iff in H. destruct H as [Hc Hs].
  now rewrite (Hpq c Hc), IH.
Qed.

Lemma is_word_solid (w : string) :
  is_word w = true -> all_chars (fun c => negb (is_space c)) w = true.
Proof. unfold is_word. intro H. now apply andb_true_iff in H. Qed.

Lemma concat_cons2 (sep w w2 : string) (ws : list string) :
  String.concat sep (w :: w2 :: ws)
  = (w ++ sep ++ String.concat sep (w2 :: ws))%string.
Proof. reflexivity. Qed.

(** A line of words joined by single spaces has no other whitespace. *)
Lemma concat_words_chars (ws : list string) :
  Forall (fun w => is_word w = true) ws ->
  all_chars (fun c => negb (is_space c) || Ascii.eqb c space)
            (String.concat " " ws) = true.
Proof.
  induction 1 as [| w ws Hw Hws IH]; [reflexivity |].
  assert (all_chars (fun c => negb (is_space c) || Ascii.eqb c space) w
          = true) as Hsolid.
  { apply all_chars_impl with (p := fun c => negb (is_space c));
      [intros c -> ; reflexivity | now apply is_word_solid]. }
  destruct ws as [| w2 ws]; [exact Hsolid |].
  rewrite concat_cons2, !all_chars_app, Hsolid, IH. reflexivity.
Qed.

Lemma solid_chars_app (a b : string) :
  solid_chars (a ++ b) = (solid_chars a ++ solid_chars b)%string.
Proof.
  induction a as [| c a IH]; simpl; [reflexivity |].
  destruct (is_space c); simpl; congruence.
Qed.

Lemma solid_chars_solid (w : string) :
  all_chars (fun c => negb (is_space c)) w = true -> solid_chars w = w.
Proof.
  induction w as [| c w IH]; simpl; [reflexivity |].
  intro H. apply andb_true_iff in H. destruct H as [Hc Hw].
  apply negb_true_iff in Hc. rewrite Hc. now rewrite IH.
Qed.

Lemma solid_chars_concat (ws : list string) :
  Forall (fun w => is_word w = true) ws ->
  solid_chars (String.concat " " ws) = fold_right String.append "" ws.
Proof.
  induction 1 as [| w ws Hw Hws IH]; [reflexivity |].
  apply is_word_solid in Hw.
  destruct ws as [| w2 ws].
  - simpl. now rewrite append_empty_r, solid_chars_solid.
  - rewrite concat_cons2, !solid_chars_app, IH, solid_chars_solid by exact Hw.
    reflexivity.
Qed.

Lemma solid_chars_split (s : string) :
  fold_right String.append "" (py_split s) = solid_chars s.
Proof.
  induction s as [| c r IH]; [reflexivity |].
  rewrite py_split_cons. cbn [solid_chars].
  destruct (is_space c); [exact IH |].
  destruct r as [| c' r']; [reflexivity |].
  destruct (is_space c').
  - cbn [fold_right]. rewrite IH. reflexivity.
  - destruct (py_split (String c' r')) as [| word words].
    + cbn [fold_right] in IH |- *. rewrite <- IH. reflexivity.
    + cbn [fold_right] in IH |- *. rewrite <- IH. reflexivity.
Qed.

(** X12: the line written for a prompt is made of the words of the prompt,
    as [split] finds them, joined by single spaces: replacing the line
    breaks first changes nothing, the line has the same words as the prompt,
    and normalising a line again gives the line back. *)
Theorem one_line_words (prompt : string) :
  one_line prompt = String.concat " " (py_split prompt)
  /\ py_split (one_line prompt) = py_split prompt
  /\ one_line (one_line prompt) = one_line prompt.
Proof.
  assert (py_split (one_line prompt) = py_split prompt) as Hsame.
  { rewrite one_line_eq. apply py_split_concat, py_split_words. }
  split; [apply one_line_eq |]. split; [exact Hsame |].
  rewrite (one_line_eq (one_line prompt)), Hsame. symmetry.
  apply one_line_eq.
Qed.

(** X13: the line keeps every character of the prompt that is not
    whitespace, in order, and its only whitespace is the space character: it
    holds no line feed, carriage return or tab. *)
Theorem one_line_keeps_text (prompt : string) :
  solid_chars (one_line prompt) = solid_chars prompt
  /\ all_chars (fun c => negb (is_space c) || Ascii.eqb c space)
               (one_line prompt) = true.
Proof.
  rewrite one_line_eq. split.
  - rewrite solid_chars_concat by apply py_split_words.
    apply solid_chars_split.
  - apply concat_words_chars, py_split_words.
Qed.

(** ** The text file *)

Lemma lines_of_line (line rest : string) :
  all_chars (fun c => negb (Ascii.eqb c line_feed)) line = true ->
  lines_of (line ++ String line_feed rest) = line :: lines_of rest.
Proof.
  induction line as [| c line IH]; simpl; [reflexivity |].
  intro H. apply andb_true_iff in H. destruct H as [Hc Hline].
  apply negb_true_iff in Hc. rewrite Hc. now rewrite IH.
Qed.

Lemma one_line_no_line_feed (prompt : string) :
  all_chars (fun c => negb (Ascii.eqb c line_feed)) (one_line prompt) = true.
Proof.
  rewrite one_line_eq.
  apply all_chars_impl
    with (p := fun c => negb (is_space c) || Ascii.eqb c space);
    [| apply concat_words_chars, py_split_words].
  intros c Hc. destruct (Ascii.eqb c line_feed) eqn:E; [| reflexivity].
  apply Ascii.eqb_eq in E. subst c. discriminate Hc.
Qed.

(** X14: the text file holds one line per row, in the order of the rows:
    read back line by line it gives the normalised prompts, so a prompt
    that contains line breaks still takes one line. *)
Theorem write_txt_lines (rows : list (string * string)) :
  lines_of (write_txt rows) = map (fun row => one_line (snd row)) rows.
Proof.
  induction rows as [| [name prompt] rows IH]; [reflexivity |].
  cbn [write_txt map snd].
  change (String line_feed "" ++ write_txt rows)%string
    with (String line_feed (write_txt rows)).
  rewrite lines_of_line by apply one_line_no_line_feed. now rewrite IH.
Qed.

(** ** The run over a folder *)

Lemma endswith_spec (s suffix : string) :
  endswith s suffix = true <-> exists a, s = (a ++ suffix)%string.
Proof.
  induction s as [| c s IH].
  - cbn [endswith]. destruct (String.eqb "" suffix) eqn:E.
    + apply String.eqb_eq in E. subst suffix. split; [| reflexivity].
      intros _. now exists "".
    + split; [discriminate |]. intros [a Ha].
      destruct a; [| discriminate]. simpl in Ha. subst suffix.
      discriminate E.
  - cbn [endswith]. destruct (String.eqb (String c s) suffix) eqn:E.
    + apply String.eqb_eq in E. split; [| reflexivity].
      intros _. exists "". now rewrite <- E.
    + rewrite IH. split.
      * intros [a ->]. now exists (String c a).
      * intros [a Ha]. destruct a as [| c' a]; simpl in Ha.
        -- rewrite <- Ha, String.eqb_refl in E. discriminate.
        -- inversion Ha. now exists a.
Qed.

Lemma stripped_starts_solid (s : string) : strip s = s -> starts_solid s.
Proof.
  intro H. rewrite <- H. apply rstrip_starts_solid, lstrip_starts_solid.
Qed.

(** A prompt as the entry point returns it gives a line that is not
    empty. *)
Lemma one_line_nonempty (prompt : string) :
  prompt <> "" -> strip prompt = prompt -> one_line prompt <> "".
Proof.
  intros Hne Hstrip. apply stripped_starts_solid in Hstrip.
  rewrite one_line_eq. destruct prompt as [| c r]; [congruence |].
  simpl in Hstrip.
  destruct (proj2 (py_split_words (String c r)) Hstrip) as (w & ws & ->).
  destruct ws; simpl; discriminate.
Qed.

Lemma entry_point_total (doc : option workflow) :
  exists prompt r,
    extract_final_positive_prompt_from_png doc = Some (prompt, r)
    /\ forall s, prompt = Some s -> s <> "" /\ strip s = s.
Proof.
  destruct doc as [w |];
    [| exists None, (Some no_workflow); split; [reflexivity | discriminate]].
  unfold extract_final_positive_prompt_from_png.
  pose proof (extract_from_workflow_result w) as H.
  destruct (extract_from_workflow w) as [[[s |] [r |]] | e |];
    try contradiction.
  - exists (Some s), None. split; [reflexivity |]. now intros s' [= <-].
  - exists None, (Some r). split; [reflexivity | discriminate].
  - exists None, (Some (error e)). split; [reflexivity | discriminate].
Qed.

Lemma collect_results_rows (entries : list (string * png_file)) :
  exists rows,
    collect_results entries = Some rows
    /\ List.length rows <= List.length entries
    /\ forall name prompt,
         In (name, prompt) rows ->
         endswith (lower name) ".png" = true
         /\ prompt <> "" /\ strip prompt = prompt
         /\ exists doc r,
              In (name, Metadata doc) entries
              /\ extract_final_positive_prompt_from_png doc
                 = Some (Some prompt, r).
Proof.
  induction entries as [| [name f] entries (rows & Hrows & Hlen & Hall)].
  - exists []. split; [reflexivity |]. split; [apply le_n | intros ? ? []].
  - assert (forall name' prompt,
               In (name', prompt) rows ->
               endswith (lower name') ".png" = true
               /\ prompt <> "" /\ strip prompt = prompt
               /\ exists doc r,
                    In (name', Metadata doc) ((name, f) :: entries)
                    /\ extract_final_positive_prompt_from_png doc
                       = Some (Some prompt, r)) as Hold.
    { intros name' prompt Hin.
      destruct (Hall name' prompt Hin) as (H1 & H2 & H3 & doc & r & H4 & H5).
      repeat split; auto. exists doc, r. split; [now right | exact H5]. }
    cbn [collect_results]. rewrite Hrows.
    destruct (endswith (lower name) ".png") eqn:Hpng;
      [| exists rows; split; [reflexivity |]; split;
         [simpl; lia | exact Hold]].
    destruct f as [| doc]; cbn [prompt_of_file].
    + exists rows. split; [reflexivity |]. split; [simpl; lia | exact Hold].
    + destruct (entry_point_total doc) as (prompt & r & Hrun & Hgood).
      rewrite Hrun. destruct prompt as [s |];
        [| exists rows; split; [reflexivity |]; split;
           [simpl; lia | exact Hold]].
      destruct (Hgood s eq_refl) as [Hne Hstrip].
      destruct s as [| c s']; [congruence |]. cbn [str_truthy].
      exists ((name, String c s') :: rows). split; [reflexivity |].
      split; [simpl; lia |].
      intros name' prompt [[= <- <-] | Hin]; [| now apply Hold].
      repeat split; auto. exists doc, r. split; [now left | exact Hrun].
Qed.

(** X15: [main] always gets through the folder, and every row it hands to
    the writer comes from a file whose name ends in ".png" in any
    capitalisation and for which the entry point returned that prompt; the
    prompt is not empty, is equal to its own strip, and gives a line of the
    text file that is not empty.  Files that cannot be read and files
    without a resolved prompt give no row. *)
Theorem main_rows (argv : list string)
    (listdir : string -> list (string * png_file)) :
  exists rows,
    main argv listdir = Some (main_options argv, rows)
    /\ List.length rows
       <= List.length (listdir (input_folder (main_options argv)))
    /\ forall name prompt,
         In (name, prompt) rows ->
         endswith (lower name) ".png" = true
         /\ prompt <> "" /\ strip prompt = prompt
         /\ one_line prompt <> ""
         /\ exists doc r,
              In (name, Metadata doc)
                 (listdir (input_folder (main_options argv)))
              /\ extract_final_positive_prompt_from_png doc
                 = Some (Some prompt, r).
Proof.
  unfold main.
  destruct (collect_results_rows (listdir (input_folder (main_options argv))))
    as (rows & Hrows & Hlen & Hall).
  exists rows. rewrite Hrows. split; [reflexivity |]. split; [exact Hlen |].
  intros name prompt Hin.
  destruct (Hall name prompt Hin) as (H1 & H2 & H3 & H4).
  repeat split; auto. now apply one_line_nonempty.
Qed.

(** ** The command line *)

Lemma filter_drops_flag (a b : list string) :
  filter (fun x => negb (String.eqb x "--csv")) (a ++ "--csv" :: b)
  = filter (fun x => negb (String.eqb x "--csv")) (a ++ b).
Proof. rewrite !filter_app. reflexivity. Qed.

(** X16: the flag "--csv" may stand anywhere after the program name:
    it selects the CSV writer, it is not counted among the positional
    arguments, so the input folder is what it is without the flag, and the
    output file is the second positional argument when there is one and
    "prompts.csv" otherwise. *)
Theorem csv_flag_anywhere (prog : string) (a b : list string) :
  let with_flag := main_options (prog :: a ++ "--csv" :: b) in
  let without := main_options (prog :: a ++ b) in
  as_csv with_flag = true
  /\ input_folder with_flag = input_folder without
  /\ output_file with_flag
     = match filter (fun x => negb (String.eqb x "--csv")) (a ++ b) with
       | _ :: out :: _ => out
       | _ => "prompts.csv"
       end.
Proof.
  cbv zeta. unfold main_options. cbn [tl].
  rewrite filter_drops_flag.
  assert (existsb (String.eqb "--csv") (prog :: a ++ "--csv" :: b) = true)
    as ->.
  { apply existsb_exists. exists "--csv". split; [| reflexivity].
    right. apply in_or_app. right. now left. }
  cbn [as_csv input_folder output_file orb].
  split; [reflexivity |]. split; reflexivity.
Qed.

(** ** The faults behind an exception *)

Lemma find_input_link_id_slot (inps : list input) (name : string) :
  find_input_link_id_in inps name <> SNull ->
  exists inp,
    In inp inps /\ inp_link inp = Some (find_input_link_id_in inps name).
Proof.
  induction inps as [| inp rest IH]; simpl; [congruence |].
  assert (find_input_link_id_in rest name <> SNull ->
          exists inp',
            In inp' (inp :: rest)
            /\ inp_link inp' = Some (find_input_link_id_in rest name))
    as Hrest.
  { intro H. destruct (IH H) as (inp' & Hin & Hl). exists inp'.
    split; [now right | exact Hl]. }
  destruct (inp_link inp) as [l |] eqn:Hl; [| exact Hrest].
  destruct (name_is inp name); [| exact Hrest].
  intros _. exists inp. split; [now left | exact Hl].
Qed.

(** The named reasons are the only ones a run that does not raise gives. *)
Lemma extract_from_workflow_named (w : workflow) (p : option string)
    (e : exn) :
  extract_from_workflow w <> Ret (p, Some (error e)).
Proof.
  unfold extract_from_workflow.
  destruct (truthy_node (find_highest_order_saveimage w)) as [save |];
    [| discriminate].
  destruct (negb _); [discriminate |].
  destruct (link_src _ _) as [src_id | e' |]; simpl; try discriminate.
  destruct (truthy_node (get_node_by_id w src_id)) as [start_node |];
    [| discriminate].
  destruct (bfs_upstream_to_positive_source w start_node) as [pos | e' |];
    simpl; try discriminate.
  destruct (truthy_node pos) as [pos_src |]; [| discriminate].
  destruct (find_upstream_clip_encode w pos_src) as [clip | e' |];
    simpl; try discriminate.
  destruct (truthy_node clip) as [clip_node |]; [| discriminate].
  destruct (extract_string_value_recursive w clip_node) as [[s |] | e' |];
    simpl; try discriminate.
  destruct (str_truthy s); discriminate.
Qed.

Lemma find_highest_order_saveimage_none (w : workflow) (n : node) :
  find_highest_order_saveimage w = None -> In n (nodes w) ->
  is_saveimage n = false.
Proof.
  unfold find_highest_order_saveimage. intros Hnone Hin.
  destruct (filter is_saveimage (nodes w)) as [| c cands] eqn:Hf;
    [| discriminate].
  destruct (is_saveimage n) eqn:Hn; [| reflexivity].
  assert (In n (filter is_saveimage (nodes w))) as H
      by (apply filter_In; auto).
  rewrite Hf in H. contradiction.
Qed.

Lemma lookup_fault_incl (w : workflow) (c c' : list node) (e : exn) :
  incl c c' -> lookup_fault w c e -> lookup_fault w c' e.
Proof.
  intros Hc [[He (n & Hn & Hid)] | [(n & Hn & Hd) | [He (n & Hn & H)]]].
  - left. split; [exact He |]. exists n. auto.
  - right. left. exists n. auto.
  - right. right. split; [exact He |]. exists n. auto.
Qed.

Lemma positive_reads_In (n : node) (inp : input) :
  positive_reads n inp -> In inp (inputs_of n).
Proof.
  unfold positive_reads.
  destruct (find _ (inputs_of n)) as [p |] eqn:Hfind; [| auto].
  intros ->. now apply find_some in Hfind.
Qed.

Lemma dangling_at_In (w : workflow) (reads : node -> input -> Prop)
    (n : node) (e : exn) :
  (forall inp, reads n inp -> In inp (inputs_of n)) ->
  dangling_at w reads n e ->
  dangling_at w (fun m inp => In inp (inputs_of m)) n e.
Proof.
  intros Hin (inp & l & Hr & H). exists inp, l. split; [now apply Hin | exact H].
Qed.

(** The first block raises only on a number or a boolean. *)
Lemma inline_text_raise (n : node) (e : exn) :
  inline_text n = Raise e ->
  e = TypeError /\ is_clip_encode n = true /\ ~ widgets_indexable n.
Proof.
  unfold widgets_indexable, inline_text.
  destruct (is_clip_encode n); [| discriminate].
  destruct (match find _ _ with Some i => has_link i | None => false end);
    simpl; [discriminate |].
  destruct (node_widgets_values n) as [[| b | z | s | l] |]; simpl;
    try discriminate.
  - destruct b; simpl; [| discriminate]. intros [= <-]. auto.
  - destruct (negb (z =? 0)%Z); simpl; [| discriminate].
    intros [= <-]. auto.
  - destruct s; simpl; discriminate.
  - destruct l as [| x l]; simpl; [discriminate |]. destruct x; discriminate.
Qed.

Lemma follow_inputs_raise (w : workflow) (link_map : dict)
    (recur : node -> resolver (option string)) (sel : input -> bool)
    (inps : list input) (Q : exn -> Prop) :
  (forall pred v e, In pred (nodes w) -> recur pred v = Raise e -> Q e) ->
  forall visited e,
    follow_inputs w link_map recur sel inps visited = Raise e ->
    Q e
    \/ exists inp l,
         In inp inps /\ inp_link inp = Some l
         /\ dict_get l link_map = None /\ e = KeyError l.
Proof.
  intros Hrec. induction inps as [| inp rest IH]; intros visited e;
    simpl; [discriminate |].
  assert (forall v,
             follow_inputs w link_map recur sel rest v = Raise e ->
             Q e
             \/ exists inp' l,
                  In inp' (inp :: rest) /\ inp_link inp' = Some l
                  /\ dict_get l link_map = None /\ e = KeyError l) as Hrest.
  { intros v H. destruct (IH v e H) as [HQ | (inp' & l & Hin & H')];
      [now left |].
    right. exists inp', l. split; [now right | exact H']. }
  destruct (inp_link inp) as [l |] eqn:Hl; [| apply Hrest].
  destruct (sel inp); [| apply Hrest].
  unfold link_src.
  destruct (dict_get l link_map) as [ed |] eqn:Hg; simpl.
  - destruct (get_node_by_id w (edge_src ed)) as [pred |] eqn:Hp;
      [| apply Hrest].
    destruct (node_truthy pred); [| apply Hrest].
    destruct (recur pred visited) as [[a v] | e' |] eqn:Hr; simpl.
    + destruct a as [s |]; [destruct (str_truthy s) |];
        try discriminate; apply Hrest.
    + intros [= <-]. left.
      eapply Hrec; [eapply get_node_by_id_In, Hp | exact Hr].
    + discriminate.
  - intros [= <-]. right. exists inp, l. repeat split; auto; now left.
Qed.

(** Whatever depth the recursion is allowed, an exception of the resolver
    is one of the three faults, at the start node or at a node of the
    workflow. *)
Lemma helper_raise (w : workflow) (c : list node) (fuel : nat) :
  incl (nodes w) c ->
  forall n visited e,
    In n c -> helper w (build_link_map w) fuel n visited = Raise e ->
    lookup_fault w c e.
Proof.
  intros Hc.
  induction fuel as [| fuel IH]; intros n visited e Hn; [discriminate |].
  rewrite helper_eq. unfold id_of.
  destruct (node_id n) as [i |] eqn:Hid; simpl.
  2:{ intros [= <-]. left. split; [reflexivity |]. now exists n. }
  destruct (set_mem i visited); [discriminate |].
  pose proof (@inline_text_raise n) as Hown.
  destruct (inline_text n) as [[s |] | e' |]; simpl; try discriminate.
  2:{ intros [= <-]. destruct (Hown e' eq_refl) as (He & Hclip & Hwv).
      right. right. split; [exact He |]. now exists n. }
  destruct (longest_widget_string n); [discriminate |].
  assert (forall sel v,
             follow_inputs w (build_link_map w)
               (helper w (build_link_map w) fuel) sel (inputs_of n) v
             = Raise e -> lookup_fault w c e) as Hfollow.
  { intros sel v H.
    destruct (@follow_inputs_raise w (build_link_map w)
                (helper w (build_link_map w) fuel) sel (inputs_of n)
                (lookup_fault w c)
                (fun pred v' e' Hp => IH pred v' e' (Hc _ Hp)) v e H)
      as [HQ | (inp & l & Hin & H')]; [exact HQ |].
    right. left. exists n. split; [exact Hn |]. now exists inp, l. }
  destruct (follow_inputs w (build_link_map w)
              (helper w (build_link_map w) fuel) is_text (inputs_of n)
              (set_add i visited)) as [[a v] | e' |] eqn:H1; simpl.
  - destruct a; [discriminate | apply Hfollow].
  - intros [= <-]. eapply Hfollow, H1.
  - discriminate.
Qed.

Lemma positive_search_fault (w : workflow) (start_node : node) (e : exn) :
  bfs_upstream_to_positive_source w start_node = Raise e ->
  lookup_fault w (start_node :: nodes w) e.
Proof.
  intro H. destruct (positive_search_raise _ _ H)
    as [Hid | (n & Hn & _ & Hd)]; [now left |].
  right. left. exists n. split; [exact Hn |].
  eapply dangling_at_In; [| exact Hd]. apply positive_reads_In.
Qed.

Lemma clip_search_fault (w : workflow) (start_node : node) (e : exn) :
  find_upstream_clip_encode w start_node = Raise e ->
  lookup_fault w (start_node :: nodes w) e.
Proof.
  intro H. destruct (clip_search_raise _ _ H)
    as [Hid | (n & Hn & _ & Hd)]; [now left |].
  right. left. exists n. split; [exact Hn |].
  eapply dangling_at_In; [| exact Hd]. now intros inp (_ & Hin & _).
Qed.

(** An exception below the entry point is one of the three faults, at a
    node of the workflow. *)
Lemma extract_from_workflow_raise (w : workflow) (e : exn) :
  extract_from_workflow w = Raise e -> lookup_fault w (nodes w) e.
Proof.
  assert (forall n, In n (nodes w) -> incl (n :: nodes w) (nodes w))
    as Hcons by (intros n Hn m [<- | Hm]; assumption).
  unfold extract_from_workflow.
  destruct (truthy_node (find_highest_order_saveimage w)) as [save |] eqn:Hs;
    [| discriminate].
  apply truthy_node_some, find_highest_order_saveimage_In in Hs.
  destruct Hs as [Hsave _].
  unfold find_input_link_id.
  set (images_link := find_input_link_id_in (inputs_of save) "images").
  destruct (scalar_truthy images_link) eqn:Himg; simpl; [| discriminate].
  assert (images_link <> SNull) as Hnn
      by (intro H0; rewrite H0 in Himg; discriminate).
  destruct (find_input_link_id_slot _ _ Hnn) as (inp & Hinp & Hl).
  fold images_link in Hl.
  unfold link_src at 1.
  destruct (dict_get images_link (build_link_map w)) as [ed |] eqn:Hg; simpl.
  2:{ intros [= <-]. right. left. exists save. split; [exact Hsave |].
      now exists inp, images_link. }
  destruct (truthy_node (get_node_by_id w (edge_src ed)))
    as [start_node |] eqn:Hst; [| discriminate].
  apply truthy_node_some, get_node_by_id_In in Hst.
  destruct (bfs_upstream_to_positive_source w start_node) as [pos | e' |]
    eqn:Hpos; simpl; [| | discriminate].
  2:{ intros [= <-]. eapply lookup_fault_incl; [apply (Hcons _ Hst) |].
      now apply positive_search_fault. }
  destruct (truthy_node pos) as [pos_src |] eqn:Hp; [| discriminate].
  apply truthy_node_some in Hp. subst pos.
  apply positive_result_In in Hpos.
  destruct (find_upstream_clip_encode w pos_src) as [clip | e' |] eqn:Hclip;
    simpl; [| | discriminate].
  2:{ intros [= <-]. eapply lookup_fault_incl; [apply (Hcons _ Hpos) |].
      now apply clip_search_fault. }
  destruct (truthy_node clip) as [clip_node |] eqn:Hc; [| discriminate].
  apply truthy_node_some in Hc. subst clip.
  apply (@clip_result_encoder w pos_src clip_node Hpos) in Hclip.
  destruct Hclip as [Hin _].
  unfold extract_string_value_recursive.
  destruct (helper w (build_link_map w) (resolve_fuel w) clip_node [])
    as [[a v] | e' |] eqn:Hh; simpl.
  - destruct a as [s |]; [destruct (str_truthy s) |]; discriminate.
  - intros [= <-]. eapply (@helper_raise w (nodes w)); [apply incl_refl | | ];
      eassumption.
  - discriminate.
Qed.

(** C2 as the code has it.  The locator returns a save node of the
    workflow, or absent when there is none: it has no operation that can
    raise.  The two searches are loops that always come to an end, and the
    resolver is a recursion; each returns a result or absent unless it
    raises, and whatever depth the recursion is allowed, what is raised is
    one of three faults of the document, at the start node or at a node of
    the workflow: the [KeyError] of a node object without id, the
    [KeyError] of a link id that a slot carries and the link table lacks,
    the [TypeError] of an encoder whose [widgets_values] is a number or a
    boolean.  On every document the entry point returns a pair, and an
    exception raised below it becomes the reason [error]. *)
Theorem core_functions_faults (w : workflow) (start_node : node) :
  match find_highest_order_saveimage w with
  | Some save => In save (nodes w) /\ is_saveimage save = true
  | None => forall n, In n (nodes w) -> is_saveimage n = false
  end
  /\ (bfs_upstream_to_positive_source w start_node <> OutOfFuel
      /\ forall e,
           bfs_upstream_to_positive_source w start_node = Raise e ->
           lookup_fault w (start_node :: nodes w) e)
  /\ (find_upstream_clip_encode w start_node <> OutOfFuel
      /\ forall e,
           find_upstream_clip_encode w start_node = Raise e ->
           lookup_fault w (start_node :: nodes w) e)
  /\ (forall depth visited e,
         helper w (build_link_map w) depth start_node visited = Raise e ->
         lookup_fault w (start_node :: nodes w) e)
  /\ (forall doc, exists p,
         extract_final_positive_prompt_from_png doc = Some p)
  /\ (forall e,
         extract_from_workflow w = Raise e ->
         extract_final_positive_prompt_from_png (Some w)
         = Some (None, Some (error e))).
Proof.
  split; [| split; [| split; [| split; [| split]]]].
  - destruct (find_highest_order_saveimage w) as [save |] eqn:Hsave.
    + now apply find_highest_order_saveimage_In.
    + intros n. now apply find_highest_order_saveimage_none.
  - split; [apply positive_search_total |]. apply positive_search_fault.
  - split; [apply clip_search_total |]. apply clip_search_fault.
  - intros depth visited e.
    apply (@helper_raise w (start_node :: nodes w));
      [intros x Hx; now right | now left].
  - intros [w' |]; [| eexists; reflexivity].
    unfold extract_final_positive_prompt_from_png.
    pose proof (extract_from_workflow_result w') as H.
    destruct (extract_from_workflow w'); [| | contradiction];
      eexists; reflexivity.
  - intros e He. unfold extract_final_positive_prompt_from_png.
    rewrite He. reflexivity.
Qed.

(** X17: an [error] reason reported by the entry point for a lookup that
    failed has a cause in the document: a node of the workflow without id,
    a slot of a node of the workflow whose link id is not in the link
    table, or an encoder of the workflow whose [widgets_values] is a number
    or a boolean.  No prompt comes with it. *)
Theorem error_reason_has_a_cause (w : workflow) (p : option string)
    (e : exn) :
  extract_final_positive_prompt_from_png (Some w) = Some (p, Some (error e)) ->
  p = None /\ lookup_fault w (nodes w) e.
Proof.
  unfold extract_final_positive_prompt_from_png.
  destruct (extract_from_workflow w) as [q | e' |] eqn:Hrun;
    try discriminate.
  - intros [= ->]. now contradiction (@extract_from_workflow_named w p e).
  - intros [= <- <-]. split; [reflexivity |].
    now apply extract_from_workflow_raise.
Qed.

(** ** Runs of the further properties *)

Lemma build_link_map_miss_witness :
  dict_get (SInt 7) (build_link_map legacy_workflow) = None.
Proof.
  apply (proj2 (build_link_map_miss legacy_workflow (SInt 7))).
  intros rec e Hin. in_cases Hin discriminate.
Defined.

Lemma build_link_map_last_wins_witness :
  dict_get (SInt 8) (build_link_map legacy_workflow)
  = Some (SInt 2, SInt 0, SInt 0, SInt 0, SStr "IMAGE").
Proof.
  apply (@build_link_map_last_wins legacy_workflow
           [[SInt 7; SInt 1; SInt 0]; link_rec 8 1 "IMAGE"]
           [[SInt 8; SInt 3]]
           (SInt 8) (SInt 2) (SInt 0) (SInt 0) (SInt 0) (SStr "IMAGE")
           [SStr "extra"]).
  - reflexivity.
  - intros rec e Hin. in_cases Hin discriminate.
Defined.

Lemma get_node_by_id_first_witness :
  get_node_by_id sample_workflow (SInt 99) = None.
Proof.
  apply (proj2 (proj1 (get_node_by_id_first sample_workflow (SInt 99)))).
  intros n Hn. in_cases Hn discriminate.
Defined.

Lemma flatten_strings_leaves_witness :
  In "euler" (flatten_strings nested_payload).
Proof.
  apply (proj2 (flatten_strings_leaves nested_payload "euler")).
  apply leaf_inside with (x := WList [WNull; WStr "euler"]);
    [simpl; tauto |].
  apply leaf_inside with (x := WStr "euler"); [simpl; tauto | constructor].
Defined.

Lemma bfs_upstream_returns_positive_source_witness :
  In sample_encoder_a (nodes sample_workflow)
  /\ exists n inp l e,
       In n (sample_decode :: nodes sample_workflow)
       /\ In inp (inputs_of n)
       /\ name_is inp "positive" = true /\ inp_link inp = Some l
       /\ dict_get l (build_link_map sample_workflow) = Some e
       /\ get_or (node_id sample_encoder_a) SNull = edge_src e.
Proof.
  exact (@bfs_upstream_returns_positive_source sample_workflow sample_decode
           sample_encoder_a eq_refl).
Defined.

Lemma find_upstream_clip_encode_returns_encoder_witness :
  contains "CLIPTextEncode" (type_of pruned_encoder) = true
  /\ (pruned_encoder = pruned_combine
      \/ In pruned_encoder (nodes pruned_workflow)).
Proof.
  exact (proj1 (find_upstream_clip_encode_returns_encoder
                  pruned_workflow pruned_combine) pruned_encoder eq_refl).
Defined.

Lemma extract_string_value_from_widgets_witness :
  (exists m,
      (m = sample_repaired_concat \/ In m (nodes sample_workflow))
      /\ from_widgets m "fallback text")
  /\ ("fallback text" = "" ->
      inline_text sample_repaired_concat = Ret (Some "")).
Proof.
  exact (@extract_string_value_from_widgets sample_workflow
           sample_repaired_concat "fallback text" eq_refl).
Defined.

Lemma returned_prompt_is_a_widget_string_witness :
  (exists save, In save (nodes sample_workflow) /\ is_saveimage save = true)
  /\ (exists clip_node,
        In clip_node (nodes sample_workflow)
        /\ contains "CLIPTextEncode" (type_of clip_node) = true)
  /\ (exists m, In m (nodes sample_workflow)
                /\ from_widgets m "a cat, masterpiece").
Proof.
  exact (@returned_prompt_is_a_widget_string sample_workflow
           "a cat, masterpiece" None eq_refl).
Defined.

Lemma no_saveimage_iff_no_save_node_witness :
  extract_final_positive_prompt_from_png (Some cyclic_workflow)
  = Some (None, Some no_saveimage).
Proof.
  apply (proj2 (no_saveimage_iff_no_save_node cyclic_workflow)).
  intros n Hn. in_cases Hn reflexivity.
Defined.

Lemma no_images_link_iff_falsy_witness :
  extract_final_positive_prompt_from_png (Some zero_link_workflow)
  = Some (None, Some no_saveimage_images_link).
Proof.
  apply (proj2 (@no_images_link_iff_falsy zero_link_workflow
                  (plain_node 1 "SaveImage" None
                     [slot "images" "IMAGE" (Some (SInt 0))] None)
                  eq_refl)).
  reflexivity.
Defined.

Example zero_link_is_in_the_table :
  dict_get (SInt 0) (build_link_map zero_link_workflow)
  = Some (SInt 2, SInt 0, SInt 0, SInt 0, SStr "IMAGE").
Proof. reflexivity. Qed.

Lemma sample_retyped_same_wiring : same_wiring sample_workflow retyped_workflow.
Proof. split; [reflexivity |]. repeat constructor. Qed.

Lemma link_slots_and_types_do_not_matter_witness :
  extract_final_positive_prompt_from_png (Some sample_workflow)
  = extract_final_positive_prompt_from_png (Some retyped_workflow).
Proof.
  exact (link_slots_and_types_do_not_matter sample_retyped_same_wiring).
Defined.

Lemma main_rows_witness :
  exists rows,
    main ["extract_prompts.py"; "shots"] sample_folder
    = Some (main_options ["extract_prompts.py"; "shots"], rows)
    /\ List.length rows <= 4.
Proof.
  destruct (main_rows ["extract_prompts.py"; "shots"] sample_folder)
    as (rows & Hrun & Hlen & _).
  exists rows. split; [exact Hrun | exact Hlen].
Defined.

Example main_on_sample_folder :
  main ["extract_prompts.py"; "shots"] sample_folder
  = Some ({| input_folder := "shots"; output_file := "prompts.txt";
             as_csv := false |},
          [("a.PNG", "a cat, masterpiece")]).
Proof. reflexivity. Qed.

Lemma core_functions_faults_witness :
  lookup_fault sample_workflow
    (sample_unlinked_sampler :: nodes sample_workflow) (KeyError SNull).
Proof.
  destruct (core_functions_faults sample_workflow sample_unlinked_sampler)
    as (_ & (_ & Hpos) & _).
  apply Hpos. reflexivity.
Defined.

Lemma error_reason_has_a_cause_witness :
  lookup_fault broken_workflow (nodes broken_workflow) (KeyError (SInt 12)).
Proof.
  exact (proj2 (@error_reason_has_a_cause broken_workflow None
                  (KeyError (SInt 12)) eq_refl)).
Defined.
